(** * Classification and priority scoring of the email MCP server

    A shallow embedding of the Go packages [config] (rule set, glob and
    substring helpers), [storage] (the two tables the scoring core reads and
    writes) and [ai] (Classifier and PriorityEngine), followed by the
    properties of the specification that are checked against them.

    Conventions of the embedding:
    - a Go [string] is a sequence of bytes: [String.string];
    - a Go [int] is a 64-bit signed integer: [Z], with the wrap-around
      written where an operation can leave the range;
    - a Go [float64] is an IEEE 754 binary64 number: the primitive [float];
    - [time.Time] and [time.Duration] are nanosecond counts in [Z]; the
      clock reading of a call is an explicit argument; where the code
      prints a time, the offset of the location that the value carries
      stands beside its instant;
    - a Go [map] that is only looked up is a [gmap]; a map that the code
      ranges over is the list of its entries in the order of the visit,
      which Go leaves unspecified, so that properties are stated for every
      such list;
    - what the Go standard library computes and the sources do not fix
      (Unicode lower-casing, regular expressions, MD5, time formatting) is
      a field of the class [GoRuntime]. *)

From Stdlib Require Import ZArith Uint63 Floats String Ascii List Lia Bool.
From stdpp Require Import gmap strings list pretty.

Set Warnings "-inexact-float".

Local Open Scope string_scope.
Local Open Scope Z_scope.

(** ** The Go runtime *)

Class GoRuntime := {
  (** [strings.ToLower] *)
  strings_ToLower : string -> string;
  (** [*regexp.Regexp], a compiled regular expression *)
  Regexp : Type;
  (** [regexp.Compile]; [None] when the pattern does not compile *)
  regexp_Compile : string -> option Regexp;
  (** [re.MatchString] *)
  Regexp_MatchString : Regexp -> string -> bool;
  (** [fmt.Sprintf("%x", md5.Sum(data))] *)
  md5_hex : string -> string;
  (** [t.Format(time.RFC3339)] for a time [t] given by its instant, in
      nanoseconds, and the offset of its location, in seconds east of
      UTC: the text shows the time of day in that location *)
  format_RFC3339 : Z -> Z -> string
}.

Module Go.

Definition len (s : string) : Z := Z.of_nat (String.length s).

(** [s[lo:hi]] for [0 <= lo <= hi <= len s] *)
Definition slice (s : string) (lo hi : nat) : string :=
  String.substring lo (hi - lo) s.

(** [s[lo:]] *)
Definition slice_from (s : string) (lo : nat) : string :=
  slice s lo (String.length s).

(** [s[i]], a byte *)
Definition byte_at (s : string) (i : nat) : option ascii := String.get i s.

(** [string(b)] for a byte [b]: the UTF-8 encoding of the code point of
    value [b], which is the byte itself below 0x80 and two bytes from
    there on. *)
Definition string_of_byte (b : ascii) : string :=
  let n := N_of_ascii b in
  if (n <? 128)%N then String b EmptyString
  else String (ascii_of_N (192 + n / 64))
         (String (ascii_of_N (128 + n mod 64)) EmptyString).

Definition min_int64 : Z := - 2 ^ 63.
Definition max_int64 : Z := 2 ^ 63 - 1.

(** Two's complement wrap-around of 64-bit signed arithmetic. *)
Definition wrap64 (z : Z) : Z := (z + 2 ^ 63) mod 2 ^ 64 - 2 ^ 63.

Definition add64 (a b : Z) : Z := wrap64 (a + b).
Definition sub64 (a b : Z) : Z := wrap64 (a - b).
Definition mul64 (a b : Z) : Z := wrap64 (a * b).

(** Integer division of Go truncates toward zero. *)
Definition div64 (a b : Z) : Z := wrap64 (Z.quot a b).

(** [strings.Contains]: [substr] occurs in [s]. *)
Fixpoint strings_Contains (s substr : string) : bool :=
  String.prefix substr s ||
  match s with
  | EmptyString => false
  | String _ rest => strings_Contains rest substr
  end.

(** [strings.Join(elems, sep)] *)
Fixpoint strings_Join (elems : list string) (sep : string) : string :=
  match elems with
  | [] => ""
  | [e] => e
  | e :: rest => e ++ sep ++ strings_Join rest sep
  end.

(** *** float64 *)

(** [float64(n)] for an int [n]: the binary64 number nearest to [n], ties
    to even; the magnitude of [n] is converted, and the sign restored. *)
Definition float_of_int (n : Z) : float :=
  if n =? min_int64 then (-9223372036854775808)%float
  else if n <? 0 then (- of_uint63 (Uint63.of_Z (- n)))%float
  else of_uint63 (Uint63.of_Z n).

(** [int(f)] for a float64 [f]: the fraction is discarded (truncation toward
    zero).  The Go specification leaves the result implementation-dependent
    when the value does not fit; the amd64 conversion instruction returns
    the minimum integer there, also for infinities and NaN. *)
Definition int_of_float (f : float) : Z :=
  match Prim2SF f with
  | S754_zero _ => 0
  | S754_finite s m e =>
      let t := if 0 <=? e then Z.pos m * 2 ^ e else Z.pos m / 2 ^ (- e) in
      let v := if s then - t else t in
      if (min_int64 <=? v) && (v <=? max_int64) then v else min_int64
  | S754_infinity _ | S754_nan => min_int64
  end.

(** *** time *)

Definition Nanosecond : Z := 1.
Definition Second : Z := 1000000000.
Definition Hour : Z := 3600 * Second.

(** [t.Sub(u)]: a Duration, saturated at the ends of the int64 range. *)
Definition time_Sub (t u : Z) : Z :=
  Z.max min_int64 (Z.min max_int64 (t - u)).

(** [time.Since(t)] when the clock reads [now]. *)
Definition time_Since (now t : Z) : Z := time_Sub now t.

(** [d.Hours()]: hours of a Duration as a float64. *)
Definition Duration_Hours (d : Z) : float :=
  let hour := Z.quot d Hour in
  let nsec := Z.rem d Hour in
  (float_of_int hour + float_of_int nsec / 3600000000000)%float.

End Go.

(** ** Package config *)

Module config.

Inductive error :=
| ErrInvalidPriority (category : string) (priority : Z)
| ErrInvalidConfidence (name : string) (confidence : float)
| ErrInvalidField (field : string)
| ErrInvalidOperator (operator : string)
| ErrInvalidRegex (pattern : string)
| ErrInvalidCondition (index : nat) (name : string) (cause : error)
| ErrInvalidConfig (cause : error).

(** Configures how priority decreases over time. *)
Record TimeDecayConfig := {
  Enabled : bool;
  MaxAgeHours : Z;
  DecayRate : float
}.

(** A matching condition: [Field] is one of from, to, subject, body,
    headers; [Operator] one of contains, contains_any, regex, domain_in,
    domain_not_in. *)
Record Condition := {
  Field : string;
  Operator : string;
  Value : string;
  Values : list string
}.

Record ClassificationRule := {
  Description : string;
  Conditions : list Condition;
  PriorityBoost : Z;
  Confidence : float;
  Tags : list string
}.

Record PriorityRules := {
  VIPSenders : list string;
  ImportantDomains : list string;
  UrgentKeywords : list string;
  IgnoreSenders : list string;
  IgnoreSubjects : list string;
  CategoryPriority : gmap string Z;
  TimeDecay : TimeDecayConfig
}.

(** The fields [Learning] and [Notifications] of the Go struct are read by
    neither the classifier nor the priority engine and are left out.
    [ClassificationRules] is the map of the Go struct as the list of its
    entries (category, rule) in the order in which a [range] visits them. *)
Record PriorityConfig := {
  Version : string;
  Rules : PriorityRules;
  ClassificationRules : list (string * ClassificationRule)
}.

(** *** Helper functions *)

Definition lower_byte (c : ascii) : ascii :=
  let n := N_of_ascii c in
  if ((65 <=? n) && (n <=? 90))%N then ascii_of_N (n + 32) else c.

(** Simple ASCII lowercase. *)
Fixpoint toLower (s : string) : string :=
  match s with
  | EmptyString => EmptyString
  | String c rest => String (lower_byte c) (toLower rest)
  end.

(** The loop [for i := 0; i <= len(s)-len(substr); i++] of [indexOf], with
    [n] iterations left to run from index [i]. *)
Fixpoint indexOf_loop (n : nat) (s substr : string) (i : nat) : Z :=
  match n with
  | O => -1
  | S n' =>
      if String.eqb (Go.slice s i (i + String.length substr)) substr
      then Z.of_nat i
      else indexOf_loop n' s substr (S i)
  end.

Definition indexOf (s substr : string) : Z :=
  indexOf_loop (S (String.length s) - String.length substr) s substr 0.

Definition contains (s substr : string) : bool :=
  (Go.len substr <=? Go.len s) && (0 <=? indexOf s substr).

(** The first loop of the last case of [matchPattern]: the pieces of the
    pattern between its stars, empty pieces dropped.  A byte joins the
    current piece as [string(pattern[i])]. *)
Fixpoint pattern_parts (pattern current : string) (parts : list string)
  : list string :=
  match pattern with
  | EmptyString =>
      if String.eqb current "" then parts else (parts ++ [current])%list
  | String c rest =>
      if Ascii.eqb c "*"
      then if String.eqb current ""
           then pattern_parts rest current parts
           else pattern_parts rest "" (parts ++ [current])%list
      else pattern_parts rest (current ++ Go.string_of_byte c) parts
  end.

(** Its second loop: every piece occurs, in order, from position [pos]. *)
Fixpoint parts_in_order (s : string) (pos : nat) (parts : list string)
  : bool :=
  match parts with
  | [] => true
  | part :: rest =>
      let idx := indexOf (Go.slice_from s pos) part in
      if idx =? -1 then false
      else parts_in_order s (pos + Z.to_nat idx + String.length part) rest
  end.

(** Simple pattern matching with * wildcard. *)
Definition matchPattern (s pattern : string) : bool :=
  if String.eqb pattern "*" then true
  else if indexOf pattern "*" =? -1 then String.eqb s pattern
  else if (0 <? Go.len pattern)
          && bool_decide (Go.byte_at pattern 0 = Some "*"%char)
  then
    let suffix := Go.slice_from pattern 1 in
    (Go.len suffix <=? Go.len s)
    && String.eqb
         (Go.slice_from s (String.length s - String.length suffix)) suffix
  else if (0 <? Go.len pattern)
          && bool_decide
               (Go.byte_at pattern (String.length pattern - 1)
                = Some "*"%char)
  then
    let prefix := Go.slice pattern 0 (String.length pattern - 1) in
    (Go.len prefix <=? Go.len s)
    && String.eqb (Go.slice s 0 (String.length prefix)) prefix
  else parts_in_order s 0 (pattern_parts pattern "" []).

(** Extracts the domain from an email address. *)
Definition ExtractDomain (email : string) : string :=
  let atIdx := indexOf email "@" in
  if atIdx =? -1 then "" else Go.slice_from email (Z.to_nat (atIdx + 1)).

(** *** Queries on the configuration *)

Definition IsVIPSender (pc : PriorityConfig) (email : string) : bool :=
  existsb (fun vip => String.eqb vip email) (VIPSenders (Rules pc)).

Definition IsImportantDomain (pc : PriorityConfig) (domain : string) : bool :=
  existsb (fun d => String.eqb d domain) (ImportantDomains (Rules pc)).

(** The loop of [HasUrgentKeyword] over the keywords left. *)
Fixpoint first_keyword (textLower : string) (keywords : list string)
  : bool * string :=
  match keywords with
  | [] => (false, "")
  | keyword :: rest =>
      if contains textLower (toLower keyword) then (true, keyword)
      else first_keyword textLower rest
  end.

Definition HasUrgentKeyword (pc : PriorityConfig) (text : string)
  : bool * string :=
  first_keyword (toLower text) (UrgentKeywords (Rules pc)).

Definition ShouldIgnoreSender (pc : PriorityConfig) (email : string) : bool :=
  let emailLower := toLower email in
  existsb (fun pattern => matchPattern emailLower (toLower pattern))
          (IgnoreSenders (Rules pc)).

Definition ShouldIgnoreSubject (pc : PriorityConfig) (subject : string)
  : bool :=
  let subjectLower := toLower subject in
  existsb (fun keyword => contains subjectLower (toLower keyword))
          (IgnoreSubjects (Rules pc)).

Definition GetCategoryPriority (pc : PriorityConfig) (category : string) : Z :=
  match CategoryPriority (Rules pc) !! category with
  | Some priority => priority
  | None => 0
  end.

(** *** Validation at load time *)

Section Validate.
Context `{GoRuntime}.

Definition Condition_Validate (c : Condition) : option error :=
  if negb (existsb (String.eqb (Field c))
             ["from"; "subject"; "body"; "headers"; "to"])
  then Some (ErrInvalidField (Field c))
  else if negb (existsb (String.eqb (Operator c))
                  ["contains"; "contains_any"; "regex";
                   "domain_in"; "domain_not_in"])
  then Some (ErrInvalidOperator (Operator c))
  else if String.eqb (Operator c) "regex"
          && negb (String.eqb (Value c) "")
          && match regexp_Compile (Value c) with
             | None => true
             | Some _ => false
             end
  then Some (ErrInvalidRegex (Value c))
  else None.

Fixpoint validate_conditions (name : string) (i : nat)
  (conds : list Condition) : option error :=
  match conds with
  | [] => None
  | cond :: rest =>
      match Condition_Validate cond with
      | Some err => Some (ErrInvalidCondition i name err)
      | None => validate_conditions name (S i) rest
      end
  end.

Fixpoint validate_rules (rules : list (string * ClassificationRule))
  : option error :=
  match rules with
  | [] => None
  | (name, rule) :: rest =>
      if (Confidence rule <? 0)%float || (1 <? Confidence rule)%float
      then Some (ErrInvalidConfidence name (Confidence rule))
      else match validate_conditions name 0 (Conditions rule) with
           | Some err => Some err
           | None => validate_rules rest
           end
  end.

(** The first loop of [Validate], over the entries of [CategoryPriority] in
    the order of the visit. *)
Fixpoint validate_priorities (entries : list (string * Z)) : option error :=
  match entries with
  | [] => None
  | (category, priority) :: rest =>
      if (priority <? -100) || (100 <? priority)
      then Some (ErrInvalidPriority category priority)
      else validate_priorities rest
  end.

Definition Validate (pc : PriorityConfig) : option error :=
  match validate_priorities (map_to_list (CategoryPriority (Rules pc))) with
  | Some err => Some err
  | None => validate_rules (ClassificationRules pc)
  end.

End Validate.

End config.
(** ** Package storage *)

(** The SQLite store of [schema.sql], as far as the scoring core uses it:
    the tables [classifications] and [sender_analytics], keyed by their
    primary keys, with the CHECK constraints of the schema.  A statement
    fails when a constraint is violated; failures of the driver itself are
    not modelled. *)

Module storage.

Inductive error :=
| ErrClassificationNotFound (emailID : string)
| ErrSenderAnalyticsNotFound (emailAddress : string)
| ErrConstraint (table : string).

Record Classification := {
  EmailID : string;
  Category : string;
  Confidence : float;
  Method : string;
  Tags : list string;
  Reasoning : string;
  ClassifiedAt : Z
}.

Record SenderAnalytics := {
  EmailAddress : string;
  AccountID : string;
  TotalEmails : Z;
  ReadCount : Z;
  ReplyCount : Z;
  AvgResponseTime : Z;
  LastInteraction : Z;
  EngagementScore : Z;
  IsVIP : bool
}.

Record Database := {
  classifications : gmap string Classification;
  sender_analytics : gmap string SenderAnalytics
}.

(** [CHECK(confidence >= 0 AND confidence <= 1)] and
    [CHECK(method IN ('rules', 'ai', 'hybrid'))] of table classifications *)
Definition classification_check (c : Classification) : bool :=
  (0 <=? Confidence c)%float && (Confidence c <=? 1)%float
  && existsb (String.eqb (Method c)) ["rules"; "ai"; "hybrid"].

(** [CHECK(engagement_score >= 0 AND engagement_score <= 100)] of table
    sender_analytics *)
Definition analytics_check (sa : SenderAnalytics) : bool :=
  (0 <=? EngagementScore sa) && (EngagementScore sa <=? 100).

(** Every stored row satisfies the constraints of its table. *)
Definition schema_ok (d : Database) : Prop :=
  (forall k c, classifications d !! k = Some c ->
     classification_check c = true)
  /\ (forall k sa, sender_analytics d !! k = Some sa ->
        analytics_check sa = true).

(** INSERT OR REPLACE of the row; only the first tag is stored, and
    [classified_at] takes its default, the current time. *)
Definition SaveClassification (d : Database) (c : Classification) (now : Z)
  : Database * option error :=
  let row := {| EmailID := EmailID c; Category := Category c;
                Confidence := Confidence c; Method := Method c;
                Tags := match Tags c with [] => [] | t :: _ => [t] end;
                Reasoning := Reasoning c; ClassifiedAt := now |} in
  if classification_check row
  then ({| classifications := <[EmailID c := row]> (classifications d);
           sender_analytics := sender_analytics d |}, None)
  else (d, Some (ErrConstraint "classifications")).

(** The stored tags are not parsed back: [Tags] is always empty. *)
Definition GetClassification (d : Database) (emailID : string)
  : option Classification * option error :=
  match classifications d !! emailID with
  | Some row =>
      (Some {| EmailID := EmailID row; Category := Category row;
               Confidence := Confidence row; Method := Method row;
               Tags := []; Reasoning := Reasoning row;
               ClassifiedAt := ClassifiedAt row |}, None)
  | None => (None, Some (ErrClassificationNotFound emailID))
  end.

Definition GetSenderAnalytics (d : Database) (emailAddress : string)
  : option SenderAnalytics * option error :=
  match sender_analytics d !! emailAddress with
  | Some sa => (Some sa, None)
  | None => (None, Some (ErrSenderAnalyticsNotFound emailAddress))
  end.

(** INSERT ... ON CONFLICT(email_address) DO UPDATE: an existing row keeps
    its [account_id]. *)
Definition UpdateSenderAnalytics (d : Database) (sa : SenderAnalytics)
  : Database * option error :=
  let row :=
    match sender_analytics d !! EmailAddress sa with
    | None => sa
    | Some old =>
        {| EmailAddress := EmailAddress sa; AccountID := AccountID old;
           TotalEmails := TotalEmails sa; ReadCount := ReadCount sa;
           ReplyCount := ReplyCount sa;
           AvgResponseTime := AvgResponseTime sa;
           LastInteraction := LastInteraction sa;
           EngagementScore := EngagementScore sa; IsVIP := IsVIP sa |}
    end in
  if analytics_check row
  then ({| classifications := classifications d;
           sender_analytics :=
             <[EmailAddress sa := row]> (sender_analytics d) |}, None)
  else (d, Some (ErrConstraint "sender_analytics")).

End storage.

(** ** Package ai: the classifier *)

Module Classifier.

Inductive error :=
| ErrStorage (cause : storage.error).

(** The result of email classification. *)
Record ClassificationResult := {
  EmailID : string;
  Category : string;
  Confidence : float;
  Method : string;
  Tags : list string;
  Reasoning : string;
  Timestamp : Z
}.

(** An email for classification; [Headers] lists the entries of the Go map
    in the order in which a [range] visits them.  The [time.Time] of the
    field [ReceivedAt] is its instant, [ReceivedAt], together with the
    offset of the location that it carries, [ReceivedAt_zone]. *)
Record Email := {
  ID : string;
  From : string;
  To : string;
  Subject : string;
  Body : string;
  BodySnippet : string;
  Headers : list (string * string);
  ReceivedAt : Z;
  ReceivedAt_zone : Z
}.

Record Classifier := {
  config : config.PriorityConfig;
  db : storage.Database;
  cache : gmap string ClassificationResult
}.

Definition NewClassifier (cfg : config.PriorityConfig)
  (d : storage.Database) : Classifier :=
  {| config := cfg; db := d; cache := ∅ |}.

Definition with_cache (c : Classifier)
  (m : gmap string ClassificationResult) : Classifier :=
  {| config := config c; db := db c; cache := m |}.

Definition with_db (c : Classifier) (d : storage.Database) : Classifier :=
  {| config := config c; db := d; cache := cache c |}.

Definition newline : string := String (ascii_of_nat 10) EmptyString.

Section WithRuntime.
Context `{GoRuntime}.

(** *** Helper functions *)

(** Generates a cache key for an email. *)
Definition getCacheKey (email : Email) : string :=
  md5_hex (From email ++ ":" ++ Subject email ++ ":"
           ++ format_RFC3339 (ReceivedAt email) (ReceivedAt_zone email)).

(** Concatenates all header values. *)
Definition getAllHeaders (email : Email) : string :=
  Go.strings_Join
    (List.map (fun kv => fst kv ++ ": " ++ snd kv) (Headers email)) newline.

(** Checks if [s] contains [substr] (case insensitive). *)
Definition containsIgnoreCase (s substr : string) : bool :=
  Go.strings_Contains (strings_ToLower s) (strings_ToLower substr).

(** Checks if [s] contains any of the substrings. *)
Definition containsAny (s : string) (substrings : list string) : bool :=
  existsb (fun substr => Go.strings_Contains s substr) substrings.

(** *** Rules *)

(** Checks if an email matches a single condition. *)
Definition matchesCondition (email : Email) (cond : config.Condition)
  : bool :=
  let field := config.Field cond in
  let value : option string :=
    if String.eqb field "from" then Some (From email)
    else if String.eqb field "to" then Some (To email)
    else if String.eqb field "subject" then Some (Subject email)
    else if String.eqb field "body" then Some (BodySnippet email)
    else if String.eqb field "headers" then Some (getAllHeaders email)
    else None in
  match value with
  | None => false
  | Some fieldValue =>
      let operator := config.Operator cond in
      if String.eqb operator "contains"
      then containsIgnoreCase fieldValue (config.Value cond)
      else if String.eqb operator "contains_any"
      then existsb (fun val => containsIgnoreCase fieldValue val)
             (config.Values cond)
      else if String.eqb operator "regex"
      then match regexp_Compile (config.Value cond) with
           | None => false
           | Some re => Regexp_MatchString re fieldValue
           end
      else if String.eqb operator "domain_in"
      then existsb (fun allowedDomain =>
                      String.eqb (config.ExtractDomain fieldValue)
                        allowedDomain)
             (config.Values cond)
      else if String.eqb operator "domain_not_in"
      then negb (existsb (fun excludedDomain =>
                            String.eqb (config.ExtractDomain fieldValue)
                              excludedDomain)
                   (config.Values cond))
      else false
  end.

(** All conditions must match for the rule to apply. *)
Definition matchesRule (email : Email) (rule : config.ClassificationRule)
  : bool :=
  forallb (matchesCondition email) (config.Conditions rule).

(** A default classification when no rules match. *)
Definition defaultClassification (email : Email) (now : Z)
  : ClassificationResult :=
  let subjectLower := strings_ToLower (Subject email) in
  let fromLower := strings_ToLower (From email) in
  let '(category, reasoning, confidence) :=
    if containsAny fromLower ["noreply@"; "no-reply@"; "notifications@"]
    then ("newsletters", "Automated sender detected", 0.7%float)
    else if containsAny subjectLower ["newsletter"; "subscription"; "digest"]
    then ("newsletters", "Newsletter keywords in subject", 0.75%float)
    else if containsAny subjectLower
              ["sale"; "offer"; "discount"; "% off"; "deal"]
    then ("promotions", "Promotional keywords detected", 0.80%float)
    else if containsAny subjectLower
              ["invoice"; "payment"; "receipt"; "bill"]
    then ("invoice", "Financial keywords detected", 0.85%float)
    else if containsAny subjectLower
              ["urgent"; "asap"; "important"; "critical"]
    then ("urgent", "Urgent keywords detected", 0.90%float)
    else ("personal", "Default classification - no specific rules matched",
          0.5%float) in
  {| EmailID := ID email; Category := category; Confidence := confidence;
     Method := "rules"; Tags := ["default"; "heuristic"];
     Reasoning := reasoning; Timestamp := now |}.

(** The result that a matching rule produces. *)
Definition rule_result (email : Email) (category : string)
  (rule : config.ClassificationRule) (now : Z) : ClassificationResult :=
  {| EmailID := ID email; Category := category;
     Confidence := config.Confidence rule; Method := "rules";
     Tags := config.Tags rule;
     Reasoning := "Matched rule: " ++ config.Description rule;
     Timestamp := now |}.

(** The loop of [classifyByRules] over the rules left to visit, with the
    loop variables [bestMatch] and [highestConfidence]. *)
Fixpoint rules_loop (email : Email) (now : Z)
  (rules : list (string * config.ClassificationRule))
  (bestMatch : option ClassificationResult) (highestConfidence : float)
  : option ClassificationResult :=
  match rules with
  | [] => bestMatch
  | (category, rule) :: rest =>
      if matchesRule email rule
         && (highestConfidence <? config.Confidence rule)%float
      then rules_loop email now rest
             (Some (rule_result email category rule now))
             (config.Confidence rule)
      else rules_loop email now rest bestMatch highestConfidence
  end.

(** Applies classification rules to an email. *)
Definition classifyByRules (c : Classifier) (email : Email) (now : Z)
  : ClassificationResult :=
  match rules_loop email now (config.ClassificationRules (config c))
          None 0%float with
  | Some bestMatch => bestMatch
  | None => defaultClassification email now
  end.

(** Classifies an email using rules.  The pair returned is the Go pair
    (result, error). *)
Definition Classify (c : Classifier) (email : Email) (now : Z)
  : Classifier * (option ClassificationResult * option error) :=
  let cacheKey := getCacheKey email in
  let hit :=
    match cache c !! cacheKey with
    | Some cached =>
        if Go.time_Since now (Timestamp cached) <? 24 * Go.Hour
        then Some cached else None
    | None => None
    end in
  match hit with
  | Some cached => (c, (Some cached, None))
  | None =>
      if config.ShouldIgnoreSender (config c) (From email)
      then (c, (Some {| EmailID := ID email; Category := "spam";
                        Confidence := 0.99%float; Method := "rules";
                        Tags := ["ignored"; "auto"];
                        Reasoning := "Sender is in ignore list";
                        Timestamp := now |}, None))
      else if config.ShouldIgnoreSubject (config c) (Subject email)
      then (c, (Some {| EmailID := ID email; Category := "newsletters";
                        Confidence := 0.95%float; Method := "rules";
                        Tags := ["ignored"; "auto"];
                        Reasoning := "Subject matches ignore pattern";
                        Timestamp := now |}, None))
      else
        let result := classifyByRules c email now in
        (with_cache c (<[cacheKey := result]> (cache c)),
         (Some result, None))
  end.

(** Saves a classification to the database. *)
Definition SaveClassification (c : Classifier)
  (result : ClassificationResult) (now : Z) : Classifier * option error :=
  let classification :=
    {| storage.EmailID := EmailID result;
       storage.Category := Category result;
       storage.Confidence := Confidence result;
       storage.Method := Method result;
       storage.Tags := Tags result;
       storage.Reasoning := Reasoning result;
       storage.ClassifiedAt := 0 |} in
  let '(d, err) := storage.SaveClassification (db c) classification now in
  (with_db c d, option_map ErrStorage err).

(** Retrieves a classification from the database. *)
Definition GetClassification (c : Classifier) (emailID : string)
  : option ClassificationResult * option error :=
  match storage.GetClassification (db c) emailID with
  | (Some classification, None) =>
      (Some {| EmailID := storage.EmailID classification;
               Category := storage.Category classification;
               Confidence := storage.Confidence classification;
               Method := storage.Method classification;
               Tags := storage.Tags classification;
               Reasoning := storage.Reasoning classification;
               Timestamp := storage.ClassifiedAt classification |}, None)
  | (_, err) => (None, option_map ErrStorage err)
  end.

(** Updates classification based on user feedback. *)
Definition LearnFromFeedback (c : Classifier)
  (emailID correctCategory : string) (now : Z) : Classifier * option error :=
  let result :=
    {| EmailID := emailID; Category := correctCategory;
       Confidence := 1.0%float; Method := "user";
       Tags := ["user_corrected"]; Reasoning := "User feedback";
       Timestamp := now |} in
  SaveClassification c result now.

(** Clears the classification cache. *)
Definition ClearCache (c : Classifier) : Classifier := with_cache c ∅.

End WithRuntime.

End Classifier.

(** ** Package ai: the priority engine *)

Module PriorityEngine.

Import Classifier.

(** An entry of the reasoning chain.  The Go code formats each entry into
    a line of text; the entries are kept here with the values that the
    line shows. *)
Inductive Reason :=
| VIPSender
| ImportantDomain (domain : string)
| LearnedVIPSender
| EngagementBonus (engagementScore bonus : Z)
| UnknownSender
| UrgentInSubject (keyword : string)
| UrgentInBody (keyword : string)
| ActionKeyword (kw : string)
| NoUrgentKeywords
| VeryRecent
| Recent
| Today
| Last3Days
| Old (days : Z)
| CategoryPlus (category : string) (score : Z)
| CategoryMinus (category : string) (categoryBoost : Z)
| CategoryZero (category : string)
| UnknownCategory
| HighEngagement (readPercent replyPercent : float) (score : Z)
| SomeEngagement (score : Z)
| NoEngagementHistory
| ActiveThread
| NewConversation
| TimeDecayed (reduction : Z) (days : float).

(** The priority score of an email. *)
Record PriorityScore := {
  EmailID : string;
  Score : Z;
  Factors : gmap string Z;
  ReasoningChain : list Reason;
  Category : string;
  Timestamp : Z
}.

Record PriorityEngine := {
  config : config.PriorityConfig;
  db : storage.Database;
  classifier : option Classifier
}.

Definition NewPriorityEngine (cfg : config.PriorityConfig)
  (d : storage.Database) (c : option Classifier) : PriorityEngine :=
  {| config := cfg; db := d; classifier := c |}.

Definition with_classifier (pe : PriorityEngine) (c : option Classifier)
  : PriorityEngine :=
  {| config := config pe; db := db pe; classifier := c |}.

Definition TimeDecay (pe : PriorityEngine) : config.TimeDecayConfig :=
  config.TimeDecay (config.Rules (config pe)).

Section WithRuntime.
Context `{GoRuntime}.

(** Evaluates sender importance (0-30 points). *)
Definition calculateSenderScore (pe : PriorityEngine) (email : Email)
  : Z * list Reason :=
  if config.IsVIPSender (config pe) (From email)
  then (30, [VIPSender])
  else
    let domain := config.ExtractDomain (From email) in
    if config.IsImportantDomain (config pe) domain
    then (20, [ImportantDomain domain])
    else
      let '(score, reasoning) :=
        match storage.GetSenderAnalytics (db pe) (From email) with
        | (Some analytics, None) =>
            if storage.IsVIP analytics
            then (25, [LearnedVIPSender])
            else
              let engagementBonus :=
                Z.quot (Go.mul64 (storage.EngagementScore analytics) 15)
                       100 in
              if 0 <? engagementBonus
              then (engagementBonus,
                    [EngagementBonus (storage.EngagementScore analytics)
                       engagementBonus])
              else (0, [])
        | _ => (0, [])
        end in
      if score =? 0 then (score, (reasoning ++ [UnknownSender])%list)
      else (score, reasoning).

(** The loop of [calculateKeywordScore] over the action keywords. *)
Fixpoint first_action_keyword (email : Email) (actionKeywords : list string)
  : option string :=
  match actionKeywords with
  | [] => None
  | kw :: rest =>
      if containsIgnoreCase (Subject email) kw
         || containsIgnoreCase (BodySnippet email) kw
      then Some kw
      else first_action_keyword email rest
  end.

(** Analyzes urgent keywords (0-20 points). *)
Definition calculateKeywordScore (pe : PriorityEngine) (email : Email)
  : Z * list Reason :=
  let '(hasUrgent, keyword) :=
    config.HasUrgentKeyword (config pe) (Subject email) in
  if hasUrgent then (20, [UrgentInSubject keyword])
  else
    let '(hasUrgent, keyword) :=
      config.HasUrgentKeyword (config pe) (BodySnippet email) in
    if hasUrgent then (15, [UrgentInBody keyword])
    else
      match first_action_keyword email
              ["action required"; "please respond"; "response needed";
               "deadline"; "due date"] with
      | Some kw => (10, [ActionKeyword kw])
      | None => (0, [NoUrgentKeywords])
      end.

(** Evaluates time relevance (0-15 points). *)
Definition calculateTemporalScore (email : Email) (now : Z)
  : Z * list Reason :=
  let age := Go.time_Since now (ReceivedAt email) in
  if age <? 1 * Go.Hour then (15, [VeryRecent])
  else if age <? 6 * Go.Hour then (10, [Recent])
  else if age <? 24 * Go.Hour then (5, [Today])
  else if age <? 3 * 24 * Go.Hour then (2, [Last3Days])
  else (0, [Old (Go.int_of_float (Go.Duration_Hours age / 24))]).

(** Evaluates category importance (0-15 points).  The classification is
    read from the database; when there is none the email is classified
    now, which may fill the cache of the classifier. *)
Definition calculateCategoryScore (pe : PriorityEngine) (email : Email)
  (now : Z) : PriorityEngine * (Z * list Reason * string) :=
  let '(pe', classification) :=
    match classifier pe with
    | Some c =>
        match GetClassification c (ID email) with
        | (found, None) => (pe, found)
        | (_, Some _) =>
            let '(c', (result, _)) := Classify c email now in
            (with_classifier pe (Some c'), result)
        end
    | None => (pe, None)
    end in
  match classification with
  | Some cl =>
      let category := Classifier.Category cl in
      let categoryBoost := config.GetCategoryPriority (config pe) category in
      let normalizedScore :=
        if 15 <? categoryBoost then 15 else categoryBoost in
      let normalizedScore :=
        if normalizedScore <? 0 then 0 else normalizedScore in
      let score := normalizedScore in
      if 0 <? categoryBoost
      then (pe', (score, [CategoryPlus category score], category))
      else if categoryBoost <? 0
      then (pe', (score, [CategoryMinus category categoryBoost], category))
      else (pe', (score, [CategoryZero category], category))
  | None => (pe', (0, [UnknownCategory], "unknown"))
  end.

(** Evaluates historical engagement (0-10 points). *)
Definition calculateEngagementScore (pe : PriorityEngine) (email : Email)
  : Z * list Reason :=
  match storage.GetSenderAnalytics (db pe) (From email) with
  | (Some analytics, None) =>
      let '(score, reasoning) :=
        if 0 <? storage.TotalEmails analytics
        then
          let readRate :=
            (Go.float_of_int (storage.ReadCount analytics)
             / Go.float_of_int (storage.TotalEmails analytics))%float in
          let replyRate :=
            (Go.float_of_int (storage.ReplyCount analytics)
             / Go.float_of_int (storage.TotalEmails analytics))%float in
          let engagementScore :=
            Go.int_of_float (readRate * 5 + replyRate * 5)%float in
          let engagementScore :=
            if 10 <? engagementScore then 10 else engagementScore in
          let score := engagementScore in
          if 5 <? score
          then (score, [HighEngagement (readRate * 100)%float
                          (replyRate * 100)%float score])
          else if 0 <? score then (score, [SomeEngagement score])
          else (score, [])
        else (0, []) in
      if score =? 0 then (score, (reasoning ++ [NoEngagementHistory])%list)
      else (score, reasoning)
  | _ => (0, [NoEngagementHistory])
  end.

(** Evaluates thread importance (0-10 points). *)
Definition calculateThreadScore (email : Email) : Z * list Reason :=
  let isReply :=
    Go.strings_Contains (strings_ToLower (Subject email)) "re:"
    || Go.strings_Contains (strings_ToLower (Subject email)) "fwd:" in
  if isReply then (10, [ActiveThread]) else (0, [NewConversation]).

(** Reduces priority for old emails. *)
Definition applyTimeDecay (pe : PriorityEngine) (score : Z)
  (receivedAt now : Z) : Z * option Reason :=
  if negb (config.Enabled (TimeDecay pe)) then (score, None)
  else
    let age := Go.time_Since now receivedAt in
    let maxAge := Go.mul64 (config.MaxAgeHours (TimeDecay pe)) Go.Hour in
    if maxAge <? age
    then
      let decayRate := config.DecayRate (TimeDecay pe) in
      let hoursOld := Go.Duration_Hours age in
      let decayFactor := (1 - decayRate * (hoursOld / 24))%float in
      let decayFactor :=
        if (decayFactor <? 0)%float then 0%float else decayFactor in
      let newScore :=
        Go.int_of_float (Go.float_of_int score * decayFactor)%float in
      let reduction := Go.sub64 score newScore in
      (newScore, Some (TimeDecayed reduction (hoursOld / 24)%float))
    else (score, None).

(** Calculates the priority score for an email.  The pair returned is the
    Go pair (result, error); every reading of the clock during the call
    gives [now]. *)
Definition CalculatePriority (pe : PriorityEngine) (email : Email) (now : Z)
  : PriorityEngine * (option PriorityScore * option error) :=
  let score := 0 in
  let factors : gmap string Z := ∅ in
  let reasoning : list Reason := [] in
  (* Factor 1: sender analysis *)
  let '(senderScore, senderReasoning) := calculateSenderScore pe email in
  let score := Go.add64 score senderScore in
  let factors := <["sender" := senderScore]> factors in
  let reasoning := (reasoning ++ senderReasoning)%list in
  (* Factor 2: urgent keywords *)
  let '(keywordScore, keywordReasoning) := calculateKeywordScore pe email in
  let score := Go.add64 score keywordScore in
  let factors := <["keywords" := keywordScore]> factors in
  let reasoning := (reasoning ++ keywordReasoning)%list in
  (* Factor 3: temporal relevance *)
  let '(temporalScore, temporalReasoning) :=
    calculateTemporalScore email now in
  let score := Go.add64 score temporalScore in
  let factors := <["temporal" := temporalScore]> factors in
  let reasoning := (reasoning ++ temporalReasoning)%list in
  (* Factor 4: category priority, requires classification first *)
  let '(pe', (categoryScore, categoryReasoning, category)) :=
    calculateCategoryScore pe email now in
  let score := Go.add64 score categoryScore in
  let factors := <["category" := categoryScore]> factors in
  let reasoning := (reasoning ++ categoryReasoning)%list in
  (* Factor 5: engagement history *)
  let '(engagementScore, engagementReasoning) :=
    calculateEngagementScore pe' email in
  let score := Go.add64 score engagementScore in
  let factors := <["engagement" := engagementScore]> factors in
  let reasoning := (reasoning ++ engagementReasoning)%list in
  (* Factor 6: thread importance *)
  let '(threadScore, threadReasoning) := calculateThreadScore email in
  let score := Go.add64 score threadScore in
  let factors := <["thread" := threadScore]> factors in
  let reasoning := (reasoning ++ threadReasoning)%list in
  (* Apply time decay if enabled *)
  let '(score, reasoning) :=
    if config.Enabled (TimeDecay pe')
    then
      let '(decayedScore, decayReasoning) :=
        applyTimeDecay pe' score (ReceivedAt email) now in
      if negb (decayedScore =? score)
      then (decayedScore,
            (reasoning ++ match decayReasoning with
                          | Some r => [r]
                          | None => []
                          end)%list)
      else (score, reasoning)
    else (score, reasoning) in
  (* Normalize to 0-100 *)
  let score := if 100 <? score then 100 else score in
  let score := if score <? 0 then 0 else score in
  (pe',
   (Some {| EmailID := ID email; Score := score; Factors := factors;
            ReasoningChain := reasoning; Category := category;
            Timestamp := now |}, None)).

End WithRuntime.

End PriorityEngine.

(** ** A runtime for closed examples *)

(** On ASCII text [strings.ToLower] is the byte-wise lowering of [config];
    a pattern without metacharacters compiles to the regular expression
    that matches the texts containing it, and here no other pattern
    compiles; the cache key and the time format are stand-ins, which no
    example depends on. *)

Module Example.

Definition metacharacters : list string :=
  ["\"; "."; "+"; "*"; "?"; "("; ")"; "|"; "["; "]"; "{"; "}"; "^"; "$"].

#[global] Instance runtime : GoRuntime := {|
  strings_ToLower := config.toLower;
  Regexp := string;
  regexp_Compile pattern :=
    if existsb (Go.strings_Contains pattern) metacharacters
    then None else Some pattern;
  Regexp_MatchString re text := Go.strings_Contains text re;
  md5_hex data := data;
  format_RFC3339 t zone := pretty t ++ "/" ++ pretty zone
|}.

Definition no_decay : config.TimeDecayConfig :=
  {| config.Enabled := false; config.MaxAgeHours := 0;
     config.DecayRate := 0%float |}.

Definition rules0 : config.PriorityRules :=
  {| config.VIPSenders := []; config.ImportantDomains := [];
     config.UrgentKeywords := []; config.IgnoreSenders := [];
     config.IgnoreSubjects := []; config.CategoryPriority := ∅;
     config.TimeDecay := no_decay |}.

Definition cfg0 : config.PriorityConfig :=
  {| config.Version := "1.0"; config.Rules := rules0;
     config.ClassificationRules := [] |}.

Definition db0 : storage.Database :=
  {| storage.classifications := ∅; storage.sender_analytics := ∅ |}.

Definition email0 : Classifier.Email :=
  {| Classifier.ID := "m1"; Classifier.From := "newsletter@techcrunch.com";
     Classifier.To := "me@example.com";
     Classifier.Subject := "Daily Tech News Digest";
     Classifier.Body := ""; Classifier.BodySnippet := "";
     Classifier.Headers := []; Classifier.ReceivedAt := 0;
     Classifier.ReceivedAt_zone := 0 |}.

(** A sender on the ignore list. *)
Definition marketing_cfg : config.PriorityConfig :=
  {| config.Version := "1.0";
     config.Rules :=
       {| config.VIPSenders := []; config.ImportantDomains := [];
          config.UrgentKeywords := [];
          config.IgnoreSenders := ["*@marketing.com"];
          config.IgnoreSubjects := []; config.CategoryPriority := ∅;
          config.TimeDecay := no_decay |};
     config.ClassificationRules := [] |}.

Definition promo_email : Classifier.Email :=
  {| Classifier.ID := "m2"; Classifier.From := "promo@marketing.com";
     Classifier.To := "me@example.com"; Classifier.Subject := "Hello";
     Classifier.Body := ""; Classifier.BodySnippet := "";
     Classifier.Headers := []; Classifier.ReceivedAt := 0;
     Classifier.ReceivedAt_zone := 0 |}.

(** A condition whose pattern is not a regular expression. *)
Definition bad_regex : config.Condition :=
  {| config.Field := "subject"; config.Operator := "regex";
     config.Value := "("; config.Values := [] |}.

(** A rule set whose only rule has no condition and confidence zero. *)
Definition zero_rule : config.ClassificationRule :=
  {| config.Description := "Everything is work"; config.Conditions := [];
     config.PriorityBoost := 10; config.Confidence := 0%float;
     config.Tags := ["office"] |}.

Definition zero_cfg : config.PriorityConfig :=
  {| config.Version := "1.0"; config.Rules := rules0;
     config.ClassificationRules := [("work", zero_rule)] |}.

(** A rule set with one rule of positive confidence. *)
Definition work_rule : config.ClassificationRule :=
  {| config.Description := "Work email";
     config.Conditions :=
       [{| config.Field := "from"; config.Operator := "domain_in";
           config.Value := ""; config.Values := ["techcrunch.com"] |}];
     config.PriorityBoost := 10; config.Confidence := 0.9%float;
     config.Tags := ["office"] |}.

Definition work_cfg : config.PriorityConfig :=
  {| config.Version := "1.0"; config.Rules := rules0;
     config.ClassificationRules := [("work", work_rule)] |}.

(** A configuration with one VIP sender and the given time decay. *)
Definition vip_cfg (decay : config.TimeDecayConfig) : config.PriorityConfig :=
  {| config.Version := "1.0";
     config.Rules :=
       {| config.VIPSenders := ["boss@example.com"];
          config.ImportantDomains := []; config.UrgentKeywords := [];
          config.IgnoreSenders := []; config.IgnoreSubjects := [];
          config.CategoryPriority := ∅; config.TimeDecay := decay |};
     config.ClassificationRules := [] |}.

(** Half of the score is lost per day, after the first day. *)
Definition halving : config.TimeDecayConfig :=
  {| config.Enabled := true; config.MaxAgeHours := 24;
     config.DecayRate := 0.5%float |}.

(** A decay rate below zero. *)
Definition growing : config.TimeDecayConfig :=
  {| config.Enabled := true; config.MaxAgeHours := 24;
     config.DecayRate := (-0.5)%float |}.

(** A decay rate far below zero. *)
Definition exploding : config.TimeDecayConfig :=
  {| config.Enabled := true; config.MaxAgeHours := 24;
     config.DecayRate := (-1e18)%float |}.

Definition boss_email : Classifier.Email :=
  {| Classifier.ID := "m3"; Classifier.From := "boss@example.com";
     Classifier.To := "me@example.com";
     Classifier.Subject := "Quarterly report";
     Classifier.Body := ""; Classifier.BodySnippet := "";
     Classifier.Headers := []; Classifier.ReceivedAt := 0;
     Classifier.ReceivedAt_zone := 0 |}.

Definition friend_email : Classifier.Email :=
  {| Classifier.ID := "m4"; Classifier.From := "friend@example.com";
     Classifier.To := "me@example.com"; Classifier.Subject := "Lunch";
     Classifier.Body := ""; Classifier.BodySnippet := "";
     Classifier.Headers := []; Classifier.ReceivedAt := 0;
     Classifier.ReceivedAt_zone := 0 |}.

(** Thirty-six hours, in nanoseconds. *)
Definition a_day_and_a_half : Z := 36 * Go.Hour.

(** A sender who is read half of the time and answered a quarter of it. *)
Definition reader : storage.SenderAnalytics :=
  {| storage.EmailAddress := "friend@example.com";
     storage.AccountID := "acc1"; storage.TotalEmails := 4;
     storage.ReadCount := 2; storage.ReplyCount := 1;
     storage.AvgResponseTime := 0; storage.LastInteraction := 0;
     storage.EngagementScore := 60; storage.IsVIP := false |}.

(** A row whose read count is below zero; no constraint of the table
    excludes it. *)
Definition unread : storage.SenderAnalytics :=
  {| storage.EmailAddress := "friend@example.com";
     storage.AccountID := "acc1"; storage.TotalEmails := 1;
     storage.ReadCount := -1; storage.ReplyCount := 0;
     storage.AvgResponseTime := 0; storage.LastInteraction := 0;
     storage.EngagementScore := 50; storage.IsVIP := false |}.

(** A row that the CHECK on the engagement score excludes. *)
Definition unchecked : storage.SenderAnalytics :=
  {| storage.EmailAddress := "friend@example.com";
     storage.AccountID := "acc1"; storage.TotalEmails := 4;
     storage.ReadCount := 2; storage.ReplyCount := 1;
     storage.AvgResponseTime := 0; storage.LastInteraction := 0;
     storage.EngagementScore := 1000; storage.IsVIP := false |}.

(** A row whose read count is above its total number of emails. *)
Definition reread : storage.SenderAnalytics :=
  {| storage.EmailAddress := "friend@example.com";
     storage.AccountID := "acc1"; storage.TotalEmails := 1;
     storage.ReadCount := 3; storage.ReplyCount := 0;
     storage.AvgResponseTime := 0; storage.LastInteraction := 0;
     storage.EngagementScore := 50; storage.IsVIP := false |}.

(** A row whose counts are too large for the engagement points to fit an
    int. *)
Definition overcounted : storage.SenderAnalytics :=
  {| storage.EmailAddress := "friend@example.com";
     storage.AccountID := "acc1"; storage.TotalEmails := 1;
     storage.ReadCount := 2 ^ 60; storage.ReplyCount := 2 ^ 60;
     storage.AvgResponseTime := 0; storage.LastInteraction := 0;
     storage.EngagementScore := 50; storage.IsVIP := false |}.

Definition analytics_db (row : storage.SenderAnalytics) : storage.Database :=
  {| storage.classifications := ∅;
     storage.sender_analytics := {[storage.EmailAddress row := row]} |}.

End Example.

(** * Properties *)

(** ** Strings and patterns *)

Module config_facts.

Import config.

(** No byte of [p] is a star. *)
Definition star_free (p : string) : Prop :=
  forall i, String.get i p <> Some "*"%char.

(** [p] does not begin with a star. *)
Definition no_leading_star (p : string) : Prop :=
  String.get 0 p <> Some "*"%char.

(** The four pattern forms of the ignore lists: the universal pattern, a
    pattern without star (exact match), a star followed by a suffix, and a
    prefix followed by a star. *)
Inductive glob_match (s : string) : string -> Prop :=
| glob_universal : glob_match s "*"
| glob_exact p : star_free p -> s = p -> glob_match s p
| glob_suffix front suffix :
    s = front ++ suffix -> glob_match s ("*" ++ suffix)
| glob_prefix prefix back :
    no_leading_star prefix -> s = prefix ++ back ->
    glob_match s (prefix ++ "*").

Lemma length_app (s t : string) :
  String.length (s ++ t) = (String.length s + String.length t)%nat.
Proof. induction s as [|c s IH]; simpl; [reflexivity | now rewrite IH]. Qed.

Lemma len_app (s t : string) : Go.len (s ++ t) = Go.len s + Go.len t.
Proof. unfold Go.len. rewrite length_app. lia. Qed.

Lemma substring_all (s : string) : String.substring 0 (String.length s) s = s.
Proof. induction s as [|c s IH]; simpl; [reflexivity | now rewrite IH]. Qed.

Lemma substring_front (s t : string) :
  String.substring 0 (String.length s) (s ++ t) = s.
Proof.
  induction s as [|c s IH]; simpl.
  - destruct t; reflexivity.
  - now rewrite IH.
Qed.

Lemma substring_skip (s t : string) (n m : nat) :
  String.substring (String.length s + n) m (s ++ t) = String.substring n m t.
Proof. induction s as [|c s IH]; simpl; [reflexivity | apply IH]. Qed.

Lemma substring_back (s t : string) :
  String.substring (String.length s) (String.length t) (s ++ t) = t.
Proof.
  replace (String.length s) with (String.length s + 0)%nat at 1 by lia.
  rewrite substring_skip. apply substring_all.
Qed.

Lemma get_app_skip (s t : string) (n : nat) :
  String.get (String.length s + n) (s ++ t) = String.get n t.
Proof. induction s as [|c s IH]; simpl; [reflexivity | apply IH]. Qed.

Lemma substring_one_get (s : string) (j : nat) (c : ascii) :
  String.substring j 1 s = String c EmptyString -> String.get j s = Some c.
Proof.
  revert j. induction s as [|d s IH]; intros [|j]; simpl; try discriminate.
  - destruct s; intros [= ->]; reflexivity.
  - apply IH.
Qed.

Lemma slice_from_back (s t : string) :
  Go.slice_from (s ++ t) (String.length (s ++ t) - String.length t) = t.
Proof.
  unfold Go.slice_from, Go.slice. rewrite length_app.
  replace (String.length s + String.length t - String.length t)%nat
    with (String.length s) by lia.
  replace (String.length s + String.length t - String.length s)%nat
    with (String.length t) by lia.
  apply substring_back.
Qed.

Lemma slice_front (s t : string) :
  Go.slice (s ++ t) 0 (String.length s) = s.
Proof.
  unfold Go.slice. rewrite Nat.sub_0_r. apply substring_front.
Qed.

(** The search loop answers -1 exactly when no position of its range
    holds the substring. *)
Lemma indexOf_loop_found (n : nat) (s substr : string) (i j : nat) :
  (i <= j < i + n)%nat ->
  Go.slice s j (j + String.length substr) = substr ->
  0 <= indexOf_loop n s substr i.
Proof.
  revert i. induction n as [|n IH]; intros i Hj Hs; [lia|].
  simpl. destruct (String.eqb_spec
                     (Go.slice s i (i + String.length substr)) substr)
    as [_|Hne]; [lia|].
  apply IH; [|exact Hs].
  destruct (Nat.eq_dec i j) as [->|]; [contradiction | lia].
Qed.

Lemma indexOf_loop_none (n : nat) (s substr : string) (i : nat) :
  (forall j, (i <= j < i + n)%nat ->
     Go.slice s j (j + String.length substr) <> substr) ->
  indexOf_loop n s substr i = -1.
Proof.
  revert i. induction n as [|n IH]; intros i Hno; [reflexivity|].
  simpl. destruct (String.eqb_spec
                     (Go.slice s i (i + String.length substr)) substr)
    as [Heq|_].
  - exfalso. apply (Hno i); [lia | exact Heq].
  - apply IH. intros j Hj. apply Hno. lia.
Qed.

Lemma indexOf_star_free (p : string) : star_free p -> indexOf p "*" = -1.
Proof.
  intros Hp. apply indexOf_loop_none. intros j _ Hj.
  unfold Go.slice in Hj. simpl in Hj.
  replace (j + 1 - j)%nat with 1%nat in Hj by lia.
  apply (Hp j). now apply substring_one_get.
Qed.

Lemma indexOf_star_back (prefix : string) : 0 <= indexOf (prefix ++ "*") "*".
Proof.
  apply indexOf_loop_found with (j := String.length prefix).
  - rewrite length_app. simpl. lia.
  - unfold Go.slice. simpl String.length.
    replace (String.length prefix + 1 - String.length prefix)%nat
      with (String.length "*") by (simpl; lia).
    apply substring_back.
Qed.

Lemma indexOf_star_front (suffix : string) :
  indexOf (String "*" suffix) "*" = 0.
Proof.
  unfold indexOf. simpl String.length.
  replace (S (S (String.length suffix)) - 1)%nat
    with (S (String.length suffix)) by lia.
  simpl. unfold Go.slice. simpl. destruct suffix; reflexivity.
Qed.

(** Each of the four forms is accepted by [matchPattern]. *)
Lemma matchPattern_glob (s pattern : string) :
  glob_match s pattern -> matchPattern s pattern = true.
Proof.
  intros Hm. unfold matchPattern.
  destruct (String.eqb_spec pattern "*") as [|Hne]; [reflexivity|].
  destruct Hm as [|p Hfree ->|front suffix ->|prefix back Hlead ->].
  - contradiction.
  - rewrite indexOf_star_free by assumption. rewrite Z.eqb_refl.
    apply String.eqb_refl.
  - change ("*" ++ suffix) with (String "*" suffix) in *.
    rewrite indexOf_star_front. change (0 =? -1) with false. cbn match.
    replace (0 <? Go.len (String "*" suffix)) with true
      by (unfold Go.len; simpl; symmetry; apply Z.ltb_lt; lia).
    simpl Go.byte_at. rewrite bool_decide_eq_true_2 by reflexivity.
    cbn [andb].
    assert (Hs : Go.slice_from (String "*" suffix) 1 = suffix).
    { unfold Go.slice_from, Go.slice. simpl.
      rewrite Nat.sub_0_r. apply substring_all. }
    rewrite Hs, slice_from_back, String.eqb_refl, len_app.
    apply andb_true_iff. split; [apply Z.leb_le; unfold Go.len; lia | reflexivity].
  - pose proof (indexOf_star_back prefix) as Hidx.
    destruct (Z.eqb_spec (indexOf (prefix ++ "*") "*") (-1)) as [E|_]; [lia|].
    destruct prefix as [|c prefix]; [contradiction|].
    assert (Hc : c <> "*"%char).
    { intros ->. apply Hlead. reflexivity. }
    replace (0 <? Go.len (String c prefix ++ "*")) with true
      by (unfold Go.len; simpl; symmetry; apply Z.ltb_lt; lia).
    simpl Go.byte_at at 1.
    rewrite bool_decide_eq_false_2 by (intros [= E]; now apply Hc).
    cbn [andb].
    assert (Hl : (String.length (String c prefix ++ "*") - 1)%nat
                 = String.length (String c prefix)).
    { rewrite length_app. simpl. lia. }
    rewrite Hl.
    assert (Hg : Go.byte_at (String c prefix ++ "*")
                   (String.length (String c prefix)) = Some "*"%char).
    { unfold Go.byte_at.
      replace (String.length (String c prefix))
        with (String.length (String c prefix) + 0)%nat by lia.
      rewrite get_app_skip. reflexivity. }
    rewrite Hg, bool_decide_eq_true_2 by reflexivity.
    cbn [andb].
    rewrite !slice_front, String.eqb_refl, len_app.
    apply andb_true_iff. split; [apply Z.leb_le; unfold Go.len; lia | reflexivity].
Qed.

Lemma ShouldIgnoreSender_glob (pc : PriorityConfig) (email pattern : string) :
  In pattern (IgnoreSenders (Rules pc)) ->
  glob_match (toLower email) (toLower pattern) ->
  ShouldIgnoreSender pc email = true.
Proof.
  intros Hin Hm. unfold ShouldIgnoreSender. apply existsb_exists.
  exists pattern. split; [exact Hin | now apply matchPattern_glob].
Qed.

End config_facts.

(** ** Comparison of float64 values *)

Module float_facts.

Lemma SFcompare_Lt_Gt (x y : spec_float) :
  SFcompare x y = Some Lt -> SFcompare y x = Some Gt.
Proof.
  destruct x as [sx|sx| |sx mx ex], y as [sy|sy| |sy my ey]; simpl;
    try discriminate; try (destruct sx; discriminate);
    try (destruct sy; discriminate);
    try (destruct sx, sy; (discriminate || reflexivity)).
  destruct sx, sy; try discriminate; try reflexivity;
    rewrite (Z.compare_antisym ex ey);
    change (Pos.compare_cont Eq my mx) with (Pos.compare my mx);
    change (Pos.compare_cont Eq mx my) with (Pos.compare mx my);
    rewrite (Pos.compare_antisym mx my);
    destruct (ex ?= ey); simpl; try discriminate; try reflexivity;
    destruct (mx ?= my)%positive; simpl; (discriminate || reflexivity).
Qed.

(** [<] on float64 is asymmetric. *)
Lemma ltb_asym (x y : float) : (x <? y)%float = true -> (y <? x)%float = false.
Proof.
  rewrite !ltb_spec. unfold SFltb.
  destruct (SFcompare (Prim2SF x) (Prim2SF y)) as [[| |]|] eqn:E;
    try discriminate.
  intros _. now rewrite (SFcompare_Lt_Gt _ _ E).
Qed.

(** ** Rounding of binary64 arithmetic *)

Lemma digits2_pos_bounds (p : positive) :
  2 ^ (Z.pos (digits2_pos p) - 1) <= Z.pos p < 2 ^ Z.pos (digits2_pos p).
Proof.
  induction p as [p IH|p IH|]; simpl digits2_pos.
  - rewrite Pos2Z.inj_succ.
    replace (Z.succ (Z.pos (digits2_pos p)) - 1) with (Z.succ (Z.pos (digits2_pos p) - 1)) by lia.
    rewrite !Z.pow_succ_r by lia. lia.
  - rewrite Pos2Z.inj_succ.
    replace (Z.succ (Z.pos (digits2_pos p)) - 1) with (Z.succ (Z.pos (digits2_pos p) - 1)) by lia.
    rewrite !Z.pow_succ_r by lia. lia.
  - simpl. lia.
Qed.

Lemma Zdigits2_log2 (m : Z) : 0 < m -> Zdigits2 m = Z.log2 m + 1.
Proof.
  intros Hm. destruct m as [|p|p]; try lia. simpl Zdigits2.
  pose proof (digits2_pos_bounds p) as [Hl Hu].
  symmetry. apply Z.add_move_r. apply Z.log2_unique; [lia|].
  replace (Z.succ (Z.pos (digits2_pos p) - 1)) with (Z.pos (digits2_pos p)) by lia.
  split; assumption.
Qed.

Lemma Zdigits2_nonneg m : 0 <= Zdigits2 m.
Proof. destruct m; simpl; lia. Qed.

Lemma Zdigits2_bounds m : 0 < m -> 2 ^ (Zdigits2 m - 1) <= m < 2 ^ Zdigits2 m.
Proof.
  intros Hm. destruct m as [|p|p]; try lia. apply digits2_pos_bounds.
Qed.

Lemma Zdigits2_unique m d : 0 < d -> 2 ^ (d - 1) <= m < 2 ^ d -> Zdigits2 m = d.
Proof.
  intros Hd [Hl Hu].
  assert (0 < m) by (pose proof (Z.pow_pos_nonneg 2 (d - 1)); lia).
  rewrite Zdigits2_log2 by assumption.
  rewrite (Z.log2_unique m (d - 1)); try lia.
  replace (Z.succ (d - 1)) with d by lia. lia.
Qed.

Lemma Zdigits2_mono a b : 0 <= a <= b -> Zdigits2 a <= Zdigits2 b.
Proof.
  intros [Ha Hab]. destruct (Z.eq_dec a 0) as [->|Hne]; [apply Zdigits2_nonneg|].
  rewrite !Zdigits2_log2 by lia. pose proof (Z.log2_le_mono a b Hab). lia.
Qed.

Lemma Zdigits2_shiftr m n : 0 <= m -> 0 <= n ->
  Zdigits2 (m / 2 ^ n) = Z.max 0 (Zdigits2 m - n).
Proof.
  intros Hm Hn. destruct (Z.eq_dec m 0) as [->|Hne].
  - rewrite Z.div_0_l by (apply Z.pow_nonzero; lia). simpl. lia.
  - rewrite <- Z.shiftr_div_pow2 by lia.
    destruct (Z.eq_dec (Z.shiftr m n) 0) as [E|E].
    + rewrite E. simpl Zdigits2.
      apply Z.shiftr_eq_0_iff in E. destruct E as [E|[_ E]]; [lia|].
      rewrite Zdigits2_log2 by lia. lia.
    + assert (0 < Z.shiftr m n).
      { pose proof (Z.shiftr_nonneg m n). lia. }
      rewrite !Zdigits2_log2 by lia.
      rewrite Z.log2_shiftr by lia.
      assert (n <= Z.log2 m).
      { destruct (Z.le_gt_cases n (Z.log2 m)); [assumption|].
        exfalso. apply E. apply Z.shiftr_eq_0; lia. }
      lia.
Qed.

Definition shr_exact (mrs : shr_record) : Prop :=
  shr_r mrs = false /\ shr_s mrs = false.

Lemma shr_1_spec (mrs : shr_record) :
  0 <= shr_m mrs ->
  shr_m (shr_1 mrs) = shr_m mrs / 2
  /\ (shr_exact mrs -> shr_m mrs mod 2 = 0 -> shr_exact (shr_1 mrs)).
Proof.
  destruct mrs as [m r s]. unfold shr_exact. cbn [shr_m shr_r shr_s].
  intros Hm. destruct m as [|[p|p|]|p]; try lia; simpl shr_1;
    cbn [shr_m shr_r shr_s].
  - split; [reflexivity|]. intros [-> ->] _; auto.
  - split.
    + apply Z.div_unique with (r := 1); lia.
    + intros _ Hodd. exfalso.
      rewrite Pos2Z.inj_xI in Hodd.
      rewrite Z.add_comm, Z.mul_comm, Z.mod_add in Hodd by lia.
      discriminate Hodd.
  - split.
    + apply Z.div_unique with (r := 0); lia.
    + intros [-> ->] _; auto.
  - split; [reflexivity|]. intros _ Hodd. discriminate Hodd.
Qed.

Lemma pow2_pos (k : Z) : 0 <= k -> 0 < 2 ^ k.
Proof. intros Hk. apply Z.pow_pos_nonneg; lia. Qed.

Lemma mod_pow2_split (m a b : Z) :
  0 < a -> 0 < b -> m mod (a * b) = 0 ->
  m mod a = 0 /\ (m / a) mod b = 0.
Proof.
  intros Ha Hb Hm.
  apply Z.mod_divide in Hm; [|lia]. destruct Hm as [q ->].
  split.
  - replace (q * (a * b)) with (q * b * a) by ring. apply Z.mod_mul. lia.
  - replace (q * (a * b)) with (q * b * a) by ring.
    rewrite Z.div_mul by lia. apply Z.mod_mul. lia.
Qed.

Lemma iter_shr_1 (p : positive) (mrs : shr_record) :
  0 <= shr_m mrs ->
  shr_m (SpecFloat.iter_pos shr_1 p mrs) = shr_m mrs / 2 ^ Z.pos p
  /\ (shr_exact mrs -> shr_m mrs mod 2 ^ Z.pos p = 0 ->
      shr_exact (SpecFloat.iter_pos shr_1 p mrs)).
Proof.
  revert mrs. induction p as [p IH|p IH|]; intros mrs Hm; simpl SpecFloat.iter_pos.
  - destruct (shr_1_spec mrs Hm) as [H1 E1].
    assert (Hm1 : 0 <= shr_m (shr_1 mrs)).
    { rewrite H1. apply Z.div_pos; lia. }
    destruct (IH _ Hm1) as [H2 E2].
    assert (Hm2 : 0 <= shr_m (SpecFloat.iter_pos shr_1 p (shr_1 mrs))).
    { rewrite H2. apply Z.div_pos; [lia | apply pow2_pos; lia]. }
    destruct (IH _ Hm2) as [H3 E3].
    pose proof (pow2_pos (Z.pos p) ltac:(lia)) as Hp.
    assert (Hpow : 2 ^ Z.pos p~1 = 2 * (2 ^ Z.pos p * 2 ^ Z.pos p)).
    { replace (Z.pos p~1) with (Z.succ (Z.pos p + Z.pos p)) by lia.
      rewrite Z.pow_succ_r, Z.pow_add_r by lia. reflexivity. }
    assert (Hpp : 0 < 2 ^ Z.pos p * 2 ^ Z.pos p)
      by (apply Z.mul_pos_pos; assumption).
    split.
    + rewrite H3, H2, H1, Hpow.
      rewrite (Z.div_div (shr_m mrs / 2)) by lia.
      rewrite (Z.div_div (shr_m mrs)) by lia. reflexivity.
    + intros Hex Hmod. rewrite Hpow in Hmod.
      destruct (mod_pow2_split _ 2 _ ltac:(lia) Hpp Hmod) as [Ma Mb].
      destruct (mod_pow2_split _ _ _ Hp Hp Mb) as [Mc Md].
      apply E3; [apply E2; [apply E1; assumption | rewrite H1; exact Mc]|].
      rewrite H2, H1. exact Md.
  - destruct (IH _ Hm) as [H2 E2].
    assert (Hm2 : 0 <= shr_m (SpecFloat.iter_pos shr_1 p mrs)).
    { rewrite H2. apply Z.div_pos; [lia | apply pow2_pos; lia]. }
    destruct (IH _ Hm2) as [H3 E3].
    pose proof (pow2_pos (Z.pos p) ltac:(lia)) as Hp.
    assert (Hpow : 2 ^ Z.pos p~0 = 2 ^ Z.pos p * 2 ^ Z.pos p).
    { replace (Z.pos p~0) with (Z.pos p + Z.pos p) by lia.
      rewrite Z.pow_add_r by lia. reflexivity. }
    split.
    + rewrite H3, H2, Hpow. rewrite Z.div_div by lia. reflexivity.
    + intros Hex Hmod. rewrite Hpow in Hmod.
      destruct (mod_pow2_split _ _ _ Hp Hp Hmod) as [Mc Md].
      apply E3; [apply E2; assumption|]. rewrite H2. exact Md.
  - change (2 ^ 1) with 2. apply shr_1_spec. exact Hm.
Qed.

Lemma shr_spec (m : Z) (l : location) (e n : Z) :
  0 <= m ->
  shr_m (fst (shr (shr_record_of_loc m l) e n)) = m / 2 ^ Z.max 0 n
  /\ snd (shr (shr_record_of_loc m l) e n) = e + Z.max 0 n
  /\ (l = loc_Exact -> m mod 2 ^ Z.max 0 n = 0 ->
      loc_of_shr_record (fst (shr (shr_record_of_loc m l) e n)) = loc_Exact).
Proof.
  intros Hm.
  assert (Hrec : shr_m (shr_record_of_loc m l) = m).
  { destruct l as [|[| |]]; reflexivity. }
  assert (Hloc : forall mrs, shr_exact mrs -> loc_of_shr_record mrs = loc_Exact).
  { intros [m0 r s] [E1 E2]. simpl in E1, E2. subst. reflexivity. }
  destruct n as [|p|p]; simpl shr; cbn [fst snd].
  - rewrite Hrec. change (2 ^ Z.max 0 0) with 1. rewrite Z.div_1_r, Z.add_0_r.
    repeat split. intros -> _. reflexivity.
  - replace (Z.max 0 (Z.pos p)) with (Z.pos p) by lia.
    destruct (iter_shr_1 p (shr_record_of_loc m l)) as [H1 E1];
      [rewrite Hrec; exact Hm|].
    rewrite Hrec in H1, E1. repeat split; [exact H1|].
    intros -> Hmod. apply Hloc, E1; [split; reflexivity | exact Hmod].
  - replace (Z.max 0 (Z.neg p)) with 0 by lia.
    rewrite Hrec. change (2 ^ 0) with 1. rewrite Z.div_1_r, Z.add_0_r.
    repeat split. intros -> _. reflexivity.
Qed.

Lemma round_nearest_even_bounds (m : Z) (l : location) :
  m <= round_nearest_even m l <= m + 1
  /\ (l = loc_Exact -> round_nearest_even m l = m).
Proof.
  destruct l as [|[| |]]; simpl; try destruct (Z.even m); split;
    try lia; try reflexivity; intros; try discriminate; reflexivity.
Qed.

(** binary64 *)
Definition fexp64 (e : Z) : Z := Z.max (e - 53) (-1074).

Lemma fexp_64 (e : Z) : fexp prec emax e = fexp64 e.
Proof. reflexivity. Qed.

Lemma second_shift_exact (m' m1 e1 : Z) :
  0 <= m' -> m' <= m1 <= m' + 1 ->
  fexp64 (Zdigits2 m' + e1) <= e1 ->
  m1 mod 2 ^ Z.max 0 (fexp64 (Zdigits2 m1 + e1) - e1) = 0.
Proof.
  intros Hm' Hm1 Hf.
  assert (Hd : Zdigits2 m' <= Zdigits2 m1) by (apply Zdigits2_mono; lia).
  destruct (Z.eq_dec (Zdigits2 m1) (Zdigits2 m')) as [E|E].
  - rewrite E. replace (Z.max 0 _) with 0 by lia. apply Z.mod_1_r.
  - assert (Hpos : 0 < m1).
    { destruct (Z.eq_dec m1 0) as [Hz|Hz]; [|lia].
      exfalso. apply E. replace m' with m1 by lia. reflexivity. }
    assert (Hm1' : m1 = 2 ^ Zdigits2 m').
    { destruct (Zdigits2_bounds m1 Hpos) as [Hl _].
      assert (2 ^ Zdigits2 m' <= 2 ^ (Zdigits2 m1 - 1)).
      { apply Z.pow_le_mono_r; [lia|]. lia. }
      destruct (Z.eq_dec m' 0) as [->|Hne].
      - simpl in *. lia.
      - destruct (Zdigits2_bounds m') as [_ Hu]; lia. }
    assert (Hd1 : Zdigits2 m1 = Zdigits2 m' + 1).
    { apply Zdigits2_unique.
      - pose proof (Zdigits2_nonneg m'). lia.
      - replace (Zdigits2 m' + 1 - 1) with (Zdigits2 m') by lia.
        rewrite Hm1'. split; [lia|].
        apply Z.pow_lt_mono_r; pose proof (Zdigits2_nonneg m'); lia. }
    rewrite Hd1. unfold fexp64 in *.
    destruct (Z.eq_dec (Zdigits2 m') 0) as [Z0|NZ].
    + rewrite Z0 in *. replace (Z.max 0 _) with 0 by lia. apply Z.mod_1_r.
    + assert (Hk : Z.max 0 (Z.max (Zdigits2 m' + 1 + e1 - 53) (-1074) - e1) = 0
                   \/ Z.max 0 (Z.max (Zdigits2 m' + 1 + e1 - 53) (-1074) - e1) = 1) by lia.
      destruct Hk as [->| ->]; [apply Z.mod_1_r|].
      rewrite Hm1'. pose proof (Zdigits2_nonneg m').
      replace (Zdigits2 m') with (Z.succ (Zdigits2 m' - 1)) by lia.
      rewrite Z.pow_succ_r by lia. change (2 ^ 1) with 2.
      rewrite Z.mul_comm. apply Z.mod_mul. lia.
Qed.

Definition shr_fexp64 (m e : Z) (l : location) : shr_record * Z :=
  shr (shr_record_of_loc m l) e (fexp64 (Zdigits2 m + e) - e).

Lemma binary_round_aux_unfold (sx : bool) (m e : Z) (l : location) :
  binary_round_aux prec emax sx m e l =
  let s1 := shr_fexp64 m e l in
  let m1 := round_nearest_even (shr_m (fst s1)) (loc_of_shr_record (fst s1)) in
  let s2 := shr_fexp64 m1 (snd s1) loc_Exact in
  match shr_m (fst s2) with
  | Z0 => S754_zero sx
  | Zpos m2 =>
      if snd s2 <=? 971 then S754_finite sx m2 (snd s2) else S754_infinity sx
  | Zneg _ => S754_nan
  end.
Proof.
  unfold binary_round_aux.
  change (shr_fexp prec emax m e l) with (shr_fexp64 m e l).
  destruct (shr_fexp64 m e l) as [mrs' e']. cbn [fst snd].
  change (shr_fexp prec emax
            (round_nearest_even (shr_m mrs') (loc_of_shr_record mrs')) e'
            loc_Exact)
    with (shr_fexp64
            (round_nearest_even (shr_m mrs') (loc_of_shr_record mrs')) e'
            loc_Exact).
  cbv zeta.
  destruct (shr_fexp64 _ e' loc_Exact) as [mrs'' e'']. reflexivity.
Qed.

Lemma binary_round_aux_char (sx : bool) (m e : Z) (l : location) :
  0 <= m ->
  let n := Z.max 0 (fexp64 (Zdigits2 m + e) - e) in
  exists m1 k,
    m / 2 ^ n <= m1 <= m / 2 ^ n + 1
    /\ (l = loc_Exact -> m mod 2 ^ n = 0 -> m1 = m / 2 ^ n)
    /\ k = Z.max 0 (fexp64 (Zdigits2 m1 + (e + n)) - (e + n))
    /\ m1 mod 2 ^ k = 0
    /\ binary_round_aux prec emax sx m e l =
       match m1 / 2 ^ k with
       | Z0 => S754_zero sx
       | Zpos m2 =>
           if e + n + k <=? 971 then S754_finite sx m2 (e + n + k)
           else S754_infinity sx
       | Zneg _ => S754_nan
       end.
Proof.
  intros Hm n.
  rewrite binary_round_aux_unfold. cbv zeta. unfold shr_fexp64.
  destruct (shr_spec m l e (fexp64 (Zdigits2 m + e) - e) Hm) as (H1 & H2 & H3).
  fold n in H1, H2, H3.
  set (s1 := shr (shr_record_of_loc m l) e (fexp64 (Zdigits2 m + e) - e)) in *.
  set (m1 := round_nearest_even (shr_m (fst s1)) (loc_of_shr_record (fst s1))).
  destruct (round_nearest_even_bounds (shr_m (fst s1))
              (loc_of_shr_record (fst s1))) as [Hb Hx].
  fold m1 in Hb, Hx.
  assert (Hm' : 0 <= m / 2 ^ n).
  { apply Z.div_pos; [lia | apply pow2_pos; lia]. }
  rewrite H1 in Hb.
  assert (Hm1 : 0 <= m1) by lia.
  destruct (shr_spec m1 loc_Exact (snd s1)
              (fexp64 (Zdigits2 m1 + snd s1) - snd s1) Hm1) as (G1 & G2 & _).
  rewrite G1, G2, H2.
  exists m1, (Z.max 0 (fexp64 (Zdigits2 m1 + (e + n)) - (e + n))).
  split; [exact Hb|]. split.
  { intros Hl Hmod. rewrite <- H1. apply Hx. now apply H3. }
  split; [reflexivity|]. split; [|reflexivity].
  apply (second_shift_exact (m / 2 ^ n)); [exact Hm' | exact Hb|].
  rewrite Zdigits2_shiftr by lia.
  pose proof (Zdigits2_nonneg m). unfold fexp64 in *. lia.
Qed.

(** Comparison of dyadic numbers [m1 * 2^e1 <= m2 * 2^e2] on integers. *)
Definition dy_le (m1 e1 m2 e2 : Z) : Prop :=
  m1 * 2 ^ (e1 - Z.min e1 e2) <= m2 * 2 ^ (e2 - Z.min e1 e2).

Lemma pow2_add (a b : Z) : 0 <= a -> 0 <= b -> 2 ^ (a + b) = 2 ^ a * 2 ^ b.
Proof. intros. apply Z.pow_add_r; assumption. Qed.

Lemma dy_le_at (c m1 e1 m2 e2 : Z) :
  c <= e1 -> c <= e2 ->
  dy_le m1 e1 m2 e2 <-> m1 * 2 ^ (e1 - c) <= m2 * 2 ^ (e2 - c).
Proof.
  intros H1 H2. unfold dy_le.
  set (d := Z.min e1 e2).
  replace (e1 - c) with ((e1 - d) + (d - c)) by lia.
  replace (e2 - c) with ((e2 - d) + (d - c)) by lia.
  rewrite !pow2_add by lia.
  pose proof (pow2_pos (d - c) ltac:(lia)) as Hp.
  rewrite !Z.mul_assoc. split; intros H.
  - apply Z.mul_le_mono_nonneg_r; lia.
  - apply Z.mul_le_mono_pos_r in H; lia.
Qed.

Lemma Zdigits2_lt_pow (m D : Z) : 0 <= D -> 0 <= m < 2 ^ D -> Zdigits2 m <= D.
Proof.
  intros HD [Hm Hlt]. destruct (Z.eq_dec m 0) as [->|Hne]; [simpl; lia|].
  destruct (Zdigits2_bounds m ltac:(lia)) as [Hl _].
  assert (2 ^ (Zdigits2 m - 1) < 2 ^ D) by lia.
  apply Z.pow_lt_mono_r_iff in H; lia.
Qed.

Lemma Zdigits2_pos (m : Z) : 0 < m -> 0 < Zdigits2 m.
Proof. destruct m; simpl; lia. Qed.

(** A bound [mb * 2^eb] that is a binary64 number. *)
Definition canonical_bound (mb eb : Z) : Prop :=
  0 < mb /\ fexp64 (Zdigits2 mb + eb) = eb /\ eb <= 971.

Lemma canonical_bound_digits (mb eb : Z) :
  canonical_bound mb eb -> Zdigits2 mb <= 53 /\ -1074 <= eb.
Proof. intros (Hm & Hc & He). unfold fexp64 in Hc. lia. Qed.

Lemma mul_pow2_lt (mb D k : Z) :
  0 <= k -> 0 < mb -> Zdigits2 mb <= D -> mb * 2 ^ k < 2 ^ (D + k).
Proof.
  intros Hk Hm Hd. destruct (Zdigits2_bounds mb Hm) as [_ Hu].
  pose proof (Zdigits2_pos mb Hm).
  assert (2 ^ Zdigits2 mb <= 2 ^ D) by (apply Z.pow_le_mono_r; lia).
  rewrite pow2_add by lia.
  apply Z.mul_lt_mono_pos_r; [apply pow2_pos; lia | lia].
Qed.

Lemma binary_round_aux_upper (sx : bool) (m e : Z) (l : location) (mb eb : Z) :
  0 <= m -> canonical_bound mb eb -> e <= eb ->
  m <= mb * 2 ^ (eb - e) ->
  (l <> loc_Exact -> m < mb * 2 ^ (eb - e)) ->
  binary_round_aux prec emax sx m e l = S754_zero sx
  \/ exists m2 e2,
       binary_round_aux prec emax sx m e l = S754_finite sx m2 e2
       /\ e <= e2 <= eb
       /\ Z.pos m2 * 2 ^ (e2 - e) <= mb * 2 ^ (eb - e).
Proof.
  intros Hm HB He Hle Hlt.
  destruct (canonical_bound_digits mb eb HB) as [Hdb Heb].
  destruct HB as (Hmb & Hcan & Hebmax).
  destruct (binary_round_aux_char sx m e l Hm) as (m1 & k & Hb & Hx & Hk & Hdiv & Hres).
  set (n := Z.max 0 (fexp64 (Zdigits2 m + e) - e)) in *.
  assert (Hupper : mb * 2 ^ (eb - e) < 2 ^ (53 + (eb - e))).
  { apply mul_pow2_lt; lia. }
  assert (Hn : e + n <= eb).
  { assert (Zdigits2 m <= 53 + (eb - e)) by (apply Zdigits2_lt_pow; lia).
    unfold n, fexp64 in *. lia. }
  assert (Hn0 : 0 <= n) by (unfold n; lia).
  pose proof (pow2_pos n Hn0) as Hpn.
  set (B' := mb * 2 ^ (eb - e - n)).
  assert (HB' : B' * 2 ^ n = mb * 2 ^ (eb - e)).
  { unfold B'. rewrite <- Z.mul_assoc, <- pow2_add by lia. f_equal. f_equal. lia. }
  assert (Hq : m / 2 ^ n <= B').
  { apply Z.div_le_upper_bound; [lia|]. rewrite Z.mul_comm. lia. }
  assert (Hm1 : m1 <= B').
  { destruct (Z.eq_dec m1 (m / 2 ^ n)) as [->|Hne]; [exact Hq|].
    assert (m1 = m / 2 ^ n + 1) by lia.
    destruct (Z.eq_dec (m / 2 ^ n) B') as [E|E]; [|lia].
    exfalso.
    assert (Hge : B' * 2 ^ n <= m).
    { rewrite <- E. rewrite Z.mul_comm. apply Z.mul_div_le. lia. }
    assert (Hmeq : m = B' * 2 ^ n) by lia.
    assert (Hl : l = loc_Exact).
    { destruct l as [|c]; [reflexivity|]. exfalso.
      assert (m < mb * 2 ^ (eb - e)) by (apply Hlt; discriminate). lia. }
    apply Hne, Hx; [exact Hl|]. rewrite Hmeq. apply Z.mod_mul. lia. }
  assert (Hk0 : 0 <= k) by lia.
  pose proof (pow2_pos k Hk0) as Hpk.
  assert (Hm1k : m1 = m1 / 2 ^ k * 2 ^ k).
  { rewrite Z.mul_comm. apply Z.div_exact; lia. }
  assert (Hm1nn : 0 <= m1).
  { assert (0 <= m / 2 ^ n) by (apply Z.div_pos; lia). lia. }
  assert (Hek : e + n + k <= eb).
  { assert (HB'lt : B' < 2 ^ (53 + (eb - e - n))).
    { unfold B'. apply mul_pow2_lt; lia. }
    assert (Zdigits2 m1 <= 53 + (eb - e - n)) by (apply Zdigits2_lt_pow; lia).
    unfold fexp64 in *. lia. }
  rewrite Hres.
  destruct (m1 / 2 ^ k) as [|m2|m2] eqn:Hm2.
  - left. reflexivity.
  - right. exists m2, (e + n + k).
    replace (e + n + k <=? 971) with true by (symmetry; apply Z.leb_le; lia).
    split; [reflexivity|]. split; [lia|].
    replace (e + n + k - e) with (k + n) by lia.
    rewrite pow2_add, Z.mul_assoc, <- Hm1k, <- HB' by lia.
    apply Z.mul_le_mono_nonneg_r; lia.
  - exfalso. assert (0 <= m1 / 2 ^ k) by (apply Z.div_pos; lia). lia.
Qed.

Lemma binary_round_aux_lower (sx : bool) (m e : Z) (l : location) (j : Z) :
  0 < m -> -1074 <= j -> e <= j -> 2 ^ (j - e) <= m ->
  (exists m2 e2,
     binary_round_aux prec emax sx m e l = S754_finite sx m2 e2
     /\ e <= e2 /\ 2 ^ (j - e) <= Z.pos m2 * 2 ^ (e2 - e))
  \/ binary_round_aux prec emax sx m e l = S754_infinity sx.
Proof.
  intros Hm Hj He Hle.
  destruct (binary_round_aux_char sx m e l ltac:(lia))
    as (m1 & k & Hb & Hx & Hk & Hdiv & Hres).
  set (n := Z.max 0 (fexp64 (Zdigits2 m + e) - e)) in *.
  destruct (Zdigits2_bounds m Hm) as [Hdl Hdu].
  pose proof (Zdigits2_pos m Hm) as Hdpos.
  assert (Hjd : j - e < Zdigits2 m).
  { assert (2 ^ (j - e) < 2 ^ Zdigits2 m) by lia.
    apply Z.pow_lt_mono_r_iff in H; lia. }
  assert (Hn : 0 <= n <= Zdigits2 m - 1) by (unfold n, fexp64; lia).
  pose proof (pow2_pos n ltac:(lia)) as Hpn.
  assert (Hq : 2 ^ (Zdigits2 m - 1 - n) <= m / 2 ^ n).
  { apply Z.div_le_lower_bound; [lia|].
    rewrite <- pow2_add by lia.
    replace (n + (Zdigits2 m - 1 - n)) with (Zdigits2 m - 1) by lia. lia. }
  pose proof (pow2_pos (Zdigits2 m - 1 - n) ltac:(lia)) as Hpq.
  assert (Hm1 : 0 < m1) by lia.
  assert (Hk0 : 0 <= k) by lia.
  pose proof (pow2_pos k Hk0) as Hpk.
  assert (Hm1k : m1 = m1 / 2 ^ k * 2 ^ k).
  { rewrite Z.mul_comm. apply Z.div_exact; lia. }
  rewrite Hres.
  destruct (m1 / 2 ^ k) as [|m2|m2] eqn:Hm2; [lia| |lia].
  destruct (e + n + k <=? 971); [left|right; reflexivity].
  exists m2, (e + n + k). split; [reflexivity|]. split; [lia|].
  replace (e + n + k - e) with (k + n) by lia.
  rewrite pow2_add, Z.mul_assoc, <- Hm1k by lia.
  assert (2 ^ (j - e) <= 2 ^ (Zdigits2 m - 1)) by (apply Z.pow_le_mono_r; lia).
  assert (2 ^ (Zdigits2 m - 1) = 2 ^ (Zdigits2 m - 1 - n) * 2 ^ n).
  { rewrite <- pow2_add by lia. f_equal. lia. }
  assert (2 ^ (Zdigits2 m - 1 - n) * 2 ^ n <= m1 * 2 ^ n)
    by (apply Z.mul_le_mono_nonneg_r; lia).
  lia.
Qed.

Lemma dy_le_refl (m e : Z) : dy_le m e m e.
Proof. unfold dy_le. lia. Qed.

Lemma dy_le_trans (m1 e1 m2 e2 m3 e3 : Z) :
  dy_le m1 e1 m2 e2 -> dy_le m2 e2 m3 e3 -> dy_le m1 e1 m3 e3.
Proof.
  intros H12 H23.
  set (c := Z.min e1 (Z.min e2 e3)).
  apply (dy_le_at c) in H12; [|lia|lia].
  apply (dy_le_at c) in H23; [|lia|lia].
  apply (dy_le_at c); lia.
Qed.

Lemma dy_le_digits (m1 e1 m2 e2 : Z) :
  0 < m1 -> 0 < m2 -> dy_le m1 e1 m2 e2 ->
  Zdigits2 m1 + e1 <= Zdigits2 m2 + e2.
Proof.
  intros H1 H2 H. unfold dy_le in H.
  set (c := Z.min e1 e2) in *.
  destruct (Zdigits2_bounds m1 H1) as [Hl _].
  pose proof (Zdigits2_pos m1 H1). pose proof (Zdigits2_pos m2 H2).
  assert (Hu : m2 * 2 ^ (e2 - c) < 2 ^ (Zdigits2 m2 + (e2 - c)))
    by (apply mul_pow2_lt; lia).
  assert (Hlo : 2 ^ (Zdigits2 m1 - 1 + (e1 - c)) <= m1 * 2 ^ (e1 - c)).
  { rewrite pow2_add by lia.
    apply Z.mul_le_mono_nonneg_r; [pose proof (pow2_pos (e1 - c)); lia | lia]. }
  assert (Hp : 2 ^ (Zdigits2 m1 - 1 + (e1 - c)) < 2 ^ (Zdigits2 m2 + (e2 - c)))
    by lia.
  apply Z.pow_lt_mono_r_iff in Hp; lia.
Qed.

Lemma fexp64_mono (a b : Z) : a <= b -> fexp64 a <= fexp64 b.
Proof. unfold fexp64. lia. Qed.

(** The shape of a rounded non-negative quantity. *)
Definition rounded_le (sx : bool) (r : spec_float) (mb eb : Z) : Prop :=
  r = S754_zero sx
  \/ exists m2 e2, r = S754_finite sx m2 e2 /\ dy_le (Z.pos m2) e2 mb eb.

Lemma binary_round_aux_le (sx : bool) (m e : Z) (l : location) (mb eb : Z) :
  0 <= m -> canonical_bound mb eb -> e <= eb ->
  m <= mb * 2 ^ (eb - e) ->
  (l <> loc_Exact -> m < mb * 2 ^ (eb - e)) ->
  rounded_le sx (binary_round_aux prec emax sx m e l) mb eb.
Proof.
  intros Hm HB He Hle Hlt.
  destruct (binary_round_aux_upper sx m e l mb eb Hm HB He Hle Hlt)
    as [Hz|(m2 & e2 & Hr & He2 & Hv)]; [left; exact Hz|].
  right. exists m2, e2. split; [exact Hr|].
  apply (dy_le_at e); [lia | lia | exact Hv].
Qed.

Lemma binary_round_aux_sign (sx : bool) (m e : Z) (l : location) :
  0 <= m ->
  binary_round_aux prec emax sx m e l = S754_zero sx
  \/ (exists m2 e2, binary_round_aux prec emax sx m e l = S754_finite sx m2 e2)
  \/ binary_round_aux prec emax sx m e l = S754_infinity sx.
Proof.
  intros Hm.
  destruct (binary_round_aux_char sx m e l Hm)
    as (m1 & k & Hb & _ & Hk & _ & Hres).
  rewrite Hres.
  assert (0 <= m1).
  { assert (0 <= m / 2 ^ Z.max 0 (fexp64 (Zdigits2 m + e) - e))
      by (apply Z.div_pos; [lia | apply pow2_pos; lia]). lia. }
  assert (0 <= m1 / 2 ^ k) by (apply Z.div_pos; [lia | apply pow2_pos; lia]).
  destruct (m1 / 2 ^ k) as [|m2|m2]; [auto| |lia].
  destruct (_ <=? 971); eauto.
Qed.

Lemma shl_align_spec (mx : positive) (ex ex' : Z) :
  snd (shl_align mx ex ex') = Z.min ex ex'
  /\ Z.pos (fst (shl_align mx ex ex'))
     = Z.pos mx * 2 ^ (ex - Z.min ex ex').
Proof.
  unfold shl_align. destruct (ex' - ex) as [|d|d] eqn:E; cbn [fst snd].
  - replace (Z.min ex ex') with ex by lia.
    rewrite Z.sub_diag. simpl. split; lia.
  - replace (Z.min ex ex') with ex by lia.
    rewrite Z.sub_diag. simpl. split; lia.
  - replace (Z.min ex ex') with ex' by lia. split; [reflexivity|].
    change (Pos.iter xO mx d) with (shift_pos d mx).
    rewrite shift_pos_correct, Z.pow_pos_fold.
    replace (ex - ex') with (Z.pos d) by lia. lia.
Qed.

Lemma binary_round_le (sx : bool) (mx : positive) (ex mb eb : Z) :
  canonical_bound mb eb -> dy_le (Z.pos mx) ex mb eb ->
  rounded_le sx (binary_round prec emax sx mx ex) mb eb.
Proof.
  intros HB Hle. unfold binary_round.
  destruct (shl_align_spec mx ex (fexp prec emax (Z.pos (digits2_pos mx) + ex)))
    as [He Hm].
  destruct (shl_align mx ex _) as [mz ez]. cbn [fst snd] in He, Hm.
  destruct (canonical_bound_digits mb eb HB) as [Hdb Heb].
  pose proof HB as (Hmb & Hcan & _).
  assert (Hd : Zdigits2 (Z.pos mx) + ex <= Zdigits2 mb + eb)
    by (apply dy_le_digits; [lia | lia | exact Hle]).
  assert (Hez : ez <= eb).
  { apply fexp64_mono in Hd. rewrite Hcan in Hd.
    rewrite He. rewrite fexp_64. simpl Zdigits2 in Hd. lia. }
  assert (Hez' : ez <= ex) by lia.
  destruct (binary_round_aux_upper sx (Z.pos mz) ez loc_Exact mb eb)
    as [Hz|(m2 & e2 & Hr & He2 & Hv)]; try assumption; try lia.
  - rewrite Hm, He. apply (dy_le_at ez) in Hle; [|lia|lia].
    rewrite <- He. exact Hle.
  - intros H; exfalso; apply H; reflexivity.
  - left. exact Hz.
  - right. exists m2, e2. split; [exact Hr|].
    apply (dy_le_at ez); [lia | lia | exact Hv].
Qed.

Lemma binary_round_ge (sx : bool) (mx : positive) (ex j : Z) :
  -1074 <= j -> ex <= j -> dy_le 1 j (Z.pos mx) ex ->
  (exists m2 e2,
     binary_round prec emax sx mx ex = S754_finite sx m2 e2
     /\ dy_le 1 j (Z.pos m2) e2)
  \/ binary_round prec emax sx mx ex = S754_infinity sx.
Proof.
  intros Hj Hex Hle. unfold binary_round.
  destruct (shl_align_spec mx ex (fexp prec emax (Z.pos (digits2_pos mx) + ex)))
    as [He Hm].
  destruct (shl_align mx ex _) as [mz ez]. cbn [fst snd] in He, Hm.
  assert (Hez : ez <= ex) by lia.
  destruct (binary_round_aux_lower sx (Z.pos mz) ez loc_Exact j)
    as [(m2 & e2 & Hr & He2 & Hv)|Hinf]; try lia.
  - apply (dy_le_at ez) in Hle; [|lia|lia]. rewrite Hm, He.
    rewrite <- He. lia.
  - left. exists m2, e2. split; [exact Hr|].
    apply (dy_le_at ez); [lia | lia | lia].
  - right. exact Hinf.
Qed.

(** Zero of either sign, or a positive number of value at most [mb * 2^eb]. *)
Definition sf_le (x : spec_float) (mb eb : Z) : Prop :=
  match x with
  | S754_zero _ => True
  | S754_finite false m e => dy_le (Z.pos m) e mb eb
  | _ => False
  end.

(** A positive number of value at least [2^j]. *)
Definition sf_ge (x : spec_float) (j : Z) : Prop :=
  match x with
  | S754_finite false m e => dy_le 1 j (Z.pos m) e
  | _ => False
  end.

(** Not a number, a zero, or of positive sign. *)
Definition sf_nn (x : spec_float) : Prop :=
  match x with
  | S754_nan | S754_zero _ => True
  | S754_infinity s | S754_finite s _ _ => s = false
  end.

(** Not a number, a zero, or of negative sign. *)
Definition sf_np (x : spec_float) : Prop :=
  match x with
  | S754_nan | S754_zero _ => True
  | S754_infinity s | S754_finite s _ _ => s = true
  end.

(** Not a number, or of value at most one. *)
Definition sf_le1 (x : spec_float) : Prop :=
  match x with
  | S754_nan | S754_zero _ => True
  | S754_infinity s => s = true
  | S754_finite true _ _ => True
  | S754_finite false m e => dy_le (Z.pos m) e 1 0
  end.

(** Not a number, a zero, or a positive number of value at most one. *)
Definition sf_unit (x : spec_float) : Prop :=
  match x with
  | S754_nan | S754_zero _ => True
  | S754_finite false m e => dy_le (Z.pos m) e 1 0
  | _ => False
  end.

Lemma rounded_le_sf_le (r : spec_float) (mb eb : Z) :
  rounded_le false r mb eb -> sf_le r mb eb.
Proof. intros [->|(m2 & e2 & -> & H)]; simpl; auto. Qed.

Lemma canonical_pow2 (j : Z) :
  -1022 <= j <= 1023 -> canonical_bound (2 ^ 52) (j - 52).
Proof.
  intros Hj. unfold canonical_bound.
  change (Zdigits2 (2 ^ 52)) with 53. unfold fexp64. lia.
Qed.

Lemma dy_le_pow2_canon (m e j : Z) :
  dy_le m e 1 j <-> dy_le m e (2 ^ 52) (j - 52).
Proof.
  set (c := Z.min e (j - 52)).
  rewrite (dy_le_at c m e 1 j) by lia.
  rewrite (dy_le_at c m e (2 ^ 52) (j - 52)) by lia.
  replace (j - c) with (52 + (j - 52 - c)) by lia.
  rewrite pow2_add by lia. lia.
Qed.

Lemma binary_round_sign (sx : bool) (mx : positive) (ex : Z) :
  binary_round prec emax sx mx ex = S754_zero sx
  \/ (exists m2 e2, binary_round prec emax sx mx ex = S754_finite sx m2 e2)
  \/ binary_round prec emax sx mx ex = S754_infinity sx.
Proof.
  unfold binary_round. destruct (shl_align mx ex _) as [mz ez].
  apply binary_round_aux_sign. lia.
Qed.

(** *** Conversion of a non-negative integer *)

Lemma normalize_le (n mb eb : Z) :
  0 <= n -> canonical_bound mb eb -> dy_le n 0 mb eb ->
  sf_le (binary_normalize prec emax n 0 false) mb eb.
Proof.
  intros Hn HB Hle. destruct n as [|p|p]; [exact I| |lia].
  simpl binary_normalize. apply rounded_le_sf_le. now apply binary_round_le.
Qed.

Lemma normalize_ge (n j mb eb : Z) :
  0 <= j -> 2 ^ j <= n -> canonical_bound mb eb -> dy_le n 0 mb eb ->
  sf_ge (binary_normalize prec emax n 0 false) j.
Proof.
  intros Hj Hge HB Hle.
  pose proof (pow2_pos j Hj).
  destruct n as [|p|p]; try lia.
  simpl binary_normalize.
  destruct (binary_round_le false p 0 mb eb HB Hle)
    as [Hz|(m2 & e2 & Hr & Hv)];
    destruct (binary_round_ge false p 0 j)
      as [(m3 & e3 & Hr3 & Hv3)|Hinf]; try lia;
    try (apply (dy_le_at 0); [lia | lia |]; rewrite Z.sub_0_r; lia);
    try congruence.
  rewrite Hr3. exact Hv3.
Qed.

Lemma normalize_nn (n : Z) :
  0 <= n -> sf_nn (binary_normalize prec emax n 0 false).
Proof.
  intros Hn. destruct n as [|p|p]; [exact I| |lia].
  simpl binary_normalize.
  destruct (binary_round_sign false p 0) as [->|[(m2 & e2 & ->)| ->]];
    simpl; auto.
Qed.

(** *** Multiplication *)

Lemma dy_le_mul (m1 e1 m2 e2 m3 e3 m4 e4 : Z) :
  0 <= m1 -> 0 <= m3 -> 0 <= m2 ->
  dy_le m1 e1 m2 e2 -> dy_le m3 e3 m4 e4 ->
  dy_le (m1 * m3) (e1 + e3) (m2 * m4) (e2 + e4).
Proof.
  intros H1 H3 H2 Ha Hb. unfold dy_le in Ha, Hb.
  set (c1 := Z.min e1 e2) in *. set (c3 := Z.min e3 e4) in *.
  apply (dy_le_at (c1 + c3)); [lia | lia |].
  replace (e1 + e3 - (c1 + c3)) with ((e1 - c1) + (e3 - c3)) by lia.
  replace (e2 + e4 - (c1 + c3)) with ((e2 - c1) + (e4 - c3)) by lia.
  rewrite !pow2_add by lia.
  pose proof (pow2_pos (e1 - c1) ltac:(lia)).
  pose proof (pow2_pos (e3 - c3) ltac:(lia)).
  pose proof (pow2_pos (e2 - c1) ltac:(lia)).
  replace (m1 * m3 * (2 ^ (e1 - c1) * 2 ^ (e3 - c3)))
    with ((m1 * 2 ^ (e1 - c1)) * (m3 * 2 ^ (e3 - c3))) by ring.
  replace (m2 * m4 * (2 ^ (e2 - c1) * 2 ^ (e4 - c3)))
    with ((m2 * 2 ^ (e2 - c1)) * (m4 * 2 ^ (e4 - c3))) by ring.
  apply Z.mul_le_mono_nonneg; lia.
Qed.

Lemma Zdigits2_ge_pow (m D : Z) : 2 ^ (D - 1) <= m -> 0 < m -> D <= Zdigits2 m.
Proof.
  intros Hle Hm. destruct (Zdigits2_bounds m Hm) as [_ Hu].
  destruct (Z.le_gt_cases D 0) as [|HD]; [pose proof (Zdigits2_pos m Hm); lia|].
  assert (2 ^ (D - 1) < 2 ^ Zdigits2 m) by lia.
  apply Z.pow_lt_mono_r_iff in H; [lia | lia | pose proof (Zdigits2_pos m Hm); lia].
Qed.

Lemma Zdigits2_mul_ge (a b : Z) :
  0 < a -> 0 < b -> Zdigits2 a + Zdigits2 b - 1 <= Zdigits2 (a * b).
Proof.
  intros Ha Hb.
  destruct (Zdigits2_bounds a Ha) as [Hla _].
  destruct (Zdigits2_bounds b Hb) as [Hlb _].
  pose proof (Zdigits2_pos a Ha). pose proof (Zdigits2_pos b Hb).
  apply Zdigits2_ge_pow; [|nia].
  replace (Zdigits2 a + Zdigits2 b - 1 - 1)
    with ((Zdigits2 a - 1) + (Zdigits2 b - 1)) by lia.
  rewrite pow2_add by lia.
  apply Z.mul_le_mono_nonneg; try lia;
    apply Z.lt_le_incl, pow2_pos; lia.
Qed.

Lemma Zdigits2_mul_le (a b : Z) :
  0 < a -> 0 < b -> Zdigits2 (a * b) <= Zdigits2 a + Zdigits2 b.
Proof.
  intros Ha Hb.
  destruct (Zdigits2_bounds a Ha) as [_ Hua].
  destruct (Zdigits2_bounds b Hb) as [_ Hub].
  pose proof (Zdigits2_pos a Ha). pose proof (Zdigits2_pos b Hb).
  apply Zdigits2_lt_pow; [lia|]. split; [nia|].
  rewrite pow2_add by lia. apply Z.mul_lt_mono_nonneg; lia.
Qed.

(** A finite binary64 number in the words of this file. *)
Lemma valid_finite (s : bool) (m : positive) (e : Z) :
  valid_binary (S754_finite s m e) = true ->
  fexp64 (Zdigits2 (Z.pos m) + e) = e /\ e <= 971.
Proof.
  simpl. unfold bounded, canonical_mantissa.
  intros H. apply andb_true_iff in H. destruct H as [H1 H2].
  apply Z.eqb_eq in H1. apply Z.leb_le in H2.
  rewrite fexp_64 in H1. split; [exact H1 | exact H2].
Qed.

Lemma SFmul_le (x y : spec_float) (mX eX mY eY mb eb : Z) :
  valid_binary x = true -> valid_binary y = true ->
  0 <= mX -> 0 <= mY ->
  sf_le x mX eX -> sf_le y mY eY ->
  canonical_bound mb eb -> dy_le (mX * mY) (eX + eY) mb eb ->
  sf_le (SFmul prec emax x y) mb eb.
Proof.
  intros Vx Vy HX HY Hx Hy HB Hle.
  destruct x as [sx|sx| |sx mx ex], y as [sy|sy| |sy my ey];
    simpl in Hx, Hy; try contradiction; try exact I.
  destruct sx; [contradiction|]. destruct sy; [contradiction|].
  simpl SFmul. cbn [xorb]. apply rounded_le_sf_le.
  destruct (valid_finite _ _ _ Vx) as [Cx _].
  destruct (valid_finite _ _ _ Vy) as [Cy _].
  assert (Hprod : dy_le (Z.pos mx * Z.pos my) (ex + ey) mb eb).
  { apply dy_le_trans with (m2 := mX * mY) (e2 := eX + eY); [|exact Hle].
    apply dy_le_mul; try lia; assumption. }
  pose proof HB as (Hmb & Hcan & _).
  assert (He : ex + ey <= eb).
  { assert (Hpp : 0 < Z.pos mx * Z.pos my) by (apply Z.mul_pos_pos; lia).
    pose proof (dy_le_digits _ _ _ _ Hpp Hmb Hprod) as Hd.
    pose proof (Zdigits2_mul_ge (Z.pos mx) (Z.pos my) ltac:(lia) ltac:(lia)).
    pose proof (Zdigits2_pos (Z.pos mx) ltac:(lia)).
    pose proof (Zdigits2_pos (Z.pos my) ltac:(lia)).
    unfold fexp64 in *. lia. }
  change (Z.pos (mx * my)) with (Z.pos mx * Z.pos my).
  apply binary_round_aux_le; try assumption; try lia.
  - apply (dy_le_at (ex + ey)) in Hprod; [|lia|lia].
    rewrite Z.sub_diag in Hprod. simpl (2 ^ 0) in Hprod. lia.
  - intros H; exfalso; apply H; reflexivity.
Qed.

Lemma SFmul_sign (x y : spec_float) :
  (sf_nn x -> sf_nn y -> sf_nn (SFmul prec emax x y))
  /\ (sf_np x -> sf_nn y -> sf_np (SFmul prec emax x y)).
Proof.
  split; intros Hx Hy;
    destruct x as [sx|sx| |sx mx ex], y as [sy|sy| |sy my ey];
    simpl in Hx, Hy; subst; simpl; auto;
    match goal with
    | |- context [binary_round_aux prec emax ?s ?m ?e ?l] =>
        destruct (binary_round_aux_sign s m e l ltac:(lia))
          as [->|[(m2 & e2 & ->)| ->]]; simpl; auto
    end.
Qed.

(** *** Addition *)

Lemma shl_align_min (mx : positive) (ex ey : Z) :
  Z.pos (fst (shl_align mx ex (Z.min ex ey)))
  = Z.pos mx * 2 ^ (ex - Z.min ex ey).
Proof.
  destruct (shl_align_spec mx ex (Z.min ex ey)) as [_ H].
  rewrite H. f_equal. f_equal. lia.
Qed.

Lemma SFadd_le (x y : spec_float) (mX mY eB mb eb : Z) :
  0 <= mX -> 0 <= mY ->
  sf_le x mX eB -> sf_le y mY eB ->
  canonical_bound mb eb -> dy_le (mX + mY) eB mb eb ->
  sf_le (SFadd prec emax x y) mb eb.
Proof.
  intros HX HY Hx Hy HB Hle.
  assert (HlX : dy_le mX eB (mX + mY) eB).
  { apply (dy_le_at eB); [lia | lia |]. rewrite Z.sub_diag. simpl (2 ^ 0). lia. }
  assert (HlY : dy_le mY eB (mX + mY) eB).
  { apply (dy_le_at eB); [lia | lia |]. rewrite Z.sub_diag. simpl (2 ^ 0). lia. }
  destruct x as [sx|sx| |sx mx ex], y as [sy|sy| |sy my ey];
    simpl in Hx, Hy; try contradiction.
  - simpl. destruct sx, sy; exact I.
  - destruct sy; [contradiction|]. simpl.
    eapply dy_le_trans; [exact Hy|]. eapply dy_le_trans; [exact HlY | exact Hle].
  - destruct sx; [contradiction|]. simpl.
    eapply dy_le_trans; [exact Hx|]. eapply dy_le_trans; [exact HlX | exact Hle].
  - destruct sx; [contradiction|]. destruct sy; [contradiction|].
    unfold SFadd. cbn [cond_Zopp].
    rewrite (shl_align_min mx ex ey).
    replace (Z.pos (fst (shl_align my ey (Z.min ex ey))))
      with (Z.pos my * 2 ^ (ey - Z.min ex ey))
      by (rewrite (Z.min_comm ex ey); symmetry; apply shl_align_min).
    set (ez := Z.min ex ey).
    pose proof (pow2_pos (ex - ez) ltac:(lia)).
    pose proof (pow2_pos (ey - ez) ltac:(lia)).
    destruct (Z.pos mx * 2 ^ (ex - ez) + Z.pos my * 2 ^ (ey - ez))
      as [|p|p] eqn:E; try nia.
    simpl binary_normalize. apply rounded_le_sf_le.
    apply binary_round_le; [exact HB|].
    eapply dy_le_trans; [|exact Hle].
    set (c := Z.min ez eB).
    apply (dy_le_at c) in Hx; [|lia|lia].
    apply (dy_le_at c) in Hy; [|lia|lia].
    apply (dy_le_at c); [lia | lia |].
    rewrite <- E.
    replace (ex - c) with ((ex - ez) + (ez - c)) in Hx by lia.
    replace (ey - c) with ((ey - ez) + (ez - c)) in Hy by lia.
    rewrite pow2_add in Hx, Hy by lia. lia.
Qed.

Lemma SFadd_nn (x y : spec_float) :
  sf_nn x -> sf_nn y -> sf_nn (SFadd prec emax x y).
Proof.
  intros Hx Hy.
  destruct x as [sx|sx| |sx mx ex], y as [sy|sy| |sy my ey];
    simpl in Hx, Hy; subst; try (simpl; auto; fail);
    try (destruct sx; simpl; auto; fail);
    try (destruct sy; simpl; auto; fail);
    try (destruct sx, sy; simpl; auto; fail).
  unfold SFadd. cbn [cond_Zopp].
  destruct (Z.pos (fst (shl_align mx ex (Z.min ex ey)))
            + Z.pos (fst (shl_align my ey (Z.min ex ey)))) as [|p|p] eqn:E;
    try lia.
  simpl binary_normalize.
  destruct (binary_round_sign false p (Z.min ex ey))
    as [->|[(m2 & e2 & ->)| ->]]; simpl; auto.
Qed.

(** *** Subtraction from one *)

Definition sf_one : spec_float := S754_finite false 4503599627370496 (-52).

Lemma SFsub_one_le1 (p : spec_float) :
  sf_nn p -> sf_le1 (SFsub prec emax sf_one p).
Proof.
  intros Hp. destruct p as [sp|sp| |sp mp ep]; simpl in Hp; subst.
  - destruct sp; vm_compute; discriminate.
  - simpl. reflexivity.
  - exact I.
  - unfold SFsub, sf_one. cbn [cond_Zopp].
    rewrite (shl_align_min 4503599627370496 (-52) ep).
    replace (Z.pos (fst (shl_align mp ep (Z.min (-52) ep))))
      with (Z.pos mp * 2 ^ (ep - Z.min (-52) ep))
      by (rewrite (Z.min_comm (-52) ep); symmetry; apply shl_align_min).
    set (ez := Z.min (-52) ep).
    pose proof (pow2_pos (-52 - ez) ltac:(lia)).
    pose proof (pow2_pos (ep - ez) ltac:(lia)).
    destruct (4503599627370496 * 2 ^ (-52 - ez) - Z.pos mp * 2 ^ (ep - ez))
      as [|d|d] eqn:E.
    + exact I.
    + simpl binary_normalize.
      destruct (binary_round_le false d ez (2 ^ 52) (0 - 52))
        as [->|(m2 & e2 & -> & Hv)].
      * apply canonical_pow2. lia.
      * apply (dy_le_at ez); [lia | lia |].
        rewrite Z.sub_diag. simpl (2 ^ 0).
        change (2 ^ 52) with 4503599627370496.
        replace (0 - 52 - ez) with (-52 - ez) by lia. lia.
      * exact I.
      * simpl. apply dy_le_pow2_canon. exact Hv.
    + simpl binary_normalize.
      destruct (binary_round_sign true d ez)
        as [->|[(m2 & e2 & ->)| ->]]; simpl; auto.
Qed.

(** *** Division by a positive number *)

Lemma SFdiv_core_spec (mx my : positive) (ex ey : Z) :
  let e' := Z.min (fexp64 (Zdigits2 (Z.pos mx) + ex
                           - (Zdigits2 (Z.pos my) + ey))) (ex - ey) in
  let m' := Z.pos mx * 2 ^ (ex - ey - e') in
  SFdiv_core_binary prec emax (Z.pos mx) ex (Z.pos my) ey
  = (m' / Z.pos my, e', new_location (Z.pos my) (m' mod Z.pos my)).
Proof.
  intros e' m'. unfold SFdiv_core_binary.
  change (fexp prec emax) with fexp64. fold e'.
  assert (Hs : 0 <= ex - ey - e') by (unfold e'; lia).
  assert (Hm : match ex - ey - e' with
               | 0 => Z.pos mx
               | Z.pos _ => Z.shiftl (Z.pos mx) (ex - ey - e')
               | Z.neg _ => 0
               end = m').
  { unfold m'. destruct (ex - ey - e') as [|s|s] eqn:E; try lia.
    rewrite Z.shiftl_mul_pow2 by lia. reflexivity. }
  rewrite Hm. unfold Z.div, Z.modulo.
  destruct (Z.div_eucl m' (Z.pos my)) as [q r]. reflexivity.
Qed.

Lemma new_location_exact (nb r : Z) :
  new_location nb r <> loc_Exact -> r <> 0.
Proof.
  intros H ->. apply H. unfold new_location, new_location_even, new_location_odd.
  destruct (Z.even nb); reflexivity.
Qed.

Lemma SFdiv_finite_le (mx my : positive) (ex ey mb eb : Z) :
  canonical_bound mb eb ->
  dy_le (Z.pos mx) ex (mb * Z.pos my) (eb + ey) ->
  sf_le (SFdiv prec emax (S754_finite false mx ex) (S754_finite false my ey))
    mb eb.
Proof.
  intros HB Hle. unfold SFdiv. rewrite SFdiv_core_spec. cbv zeta. cbn [xorb].
  set (e' := Z.min (fexp64 (Zdigits2 (Z.pos mx) + ex
                            - (Zdigits2 (Z.pos my) + ey))) (ex - ey)).
  set (m' := Z.pos mx * 2 ^ (ex - ey - e')).
  pose proof HB as (Hmb & Hcan & _).
  assert (Hs : 0 <= ex - ey - e') by (unfold e'; lia).
  pose proof (pow2_pos _ Hs) as Hps.
  assert (He' : e' <= eb).
  { assert (Hpp : 0 < mb * Z.pos my) by (apply Z.mul_pos_pos; lia).
    pose proof (dy_le_digits (Z.pos mx) ex _ _ ltac:(lia) Hpp Hle) as Hd.
    pose proof (Zdigits2_mul_le mb (Z.pos my) Hmb ltac:(lia)) as Hml.
    assert (Hf : fexp64 (Zdigits2 (Z.pos mx) + ex - (Zdigits2 (Z.pos my) + ey))
                 <= fexp64 (Zdigits2 mb + eb)) by (apply fexp64_mono; lia).
    unfold e'. lia. }
  pose proof (pow2_pos (eb - e') ltac:(lia)) as Hpb.
  assert (Hm' : m' <= mb * 2 ^ (eb - e') * Z.pos my).
  { apply (dy_le_at (e' + ey)) in Hle; [|lia|lia].
    replace (ex - (e' + ey)) with (ex - ey - e') in Hle by lia.
    replace (eb + ey - (e' + ey)) with (eb - e') in Hle by lia.
    unfold m'. lia. }
  assert (Hm'0 : 0 <= m') by (unfold m'; lia).
  apply rounded_le_sf_le. apply binary_round_aux_le; try assumption.
  - apply Z.div_pos; lia.
  - apply Z.div_le_upper_bound; lia.
  - intros Hl. apply new_location_exact in Hl.
    pose proof (Z.div_mod m' (Z.pos my) ltac:(lia)) as Hdm.
    pose proof (Z.mod_pos_bound m' (Z.pos my) ltac:(lia)) as Hmb'.
    assert (Hq : m' / Z.pos my <= mb * 2 ^ (eb - e'))
      by (apply Z.div_le_upper_bound; lia).
    destruct (Z.eq_dec (m' / Z.pos my) (mb * 2 ^ (eb - e'))) as [E|E]; [|lia].
    exfalso. rewrite E in Hdm. lia.
Qed.

Lemma SFdiv_le_pow2 (x y : spec_float) (a b : Z) :
  sf_le x 1 a -> sf_ge y b -> -1022 <= a - b <= 1023 ->
  sf_le (SFdiv prec emax x y) 1 (a - b).
Proof.
  intros Hx Hy Hab.
  destruct y as [sy|sy| |sy my ey]; simpl in Hy; try contradiction.
  destruct sy; [contradiction|].
  destruct x as [sx|sx| |sx mx ex]; simpl in Hx; try contradiction.
  - exact I.
  - destruct sx; [contradiction|].
    assert (H : sf_le (SFdiv prec emax (S754_finite false mx ex)
                         (S754_finite false my ey)) (2 ^ 52) (a - b - 52)).
    { apply SFdiv_finite_le; [apply canonical_pow2; lia|].
      eapply dy_le_trans; [exact Hx|].
      replace a with ((a - b) + b) at 1 by lia.
      change 1 with (1 * 1) at 1.
      apply dy_le_mul; try lia; [|exact Hy].
      apply dy_le_pow2_canon, dy_le_refl. }
    destruct (SFdiv prec emax _ _) as [s|s| |s m e]; simpl in H |- *;
      try contradiction; try exact I.
    destruct s; [contradiction|]. now apply dy_le_pow2_canon.
Qed.

Lemma SFdiv_nn (x : spec_float) (my : positive) (ey : Z) :
  sf_nn x -> sf_nn (SFdiv prec emax x (S754_finite false my ey)).
Proof.
  intros Hx. destruct x as [sx|sx| |sx mx ex]; simpl in Hx; subst;
    try (simpl; auto; fail).
  unfold SFdiv. rewrite SFdiv_core_spec. cbv zeta. cbn [xorb].
  match goal with
  | |- context [binary_round_aux prec emax ?s ?m ?e ?l] =>
      assert (Hq : 0 <= m);
      [|destruct (binary_round_aux_sign s m e l Hq)
          as [->|[(m2 & e2 & ->)| ->]]; simpl; auto]
  end.
  apply Z.div_pos; [|lia].
  apply Z.mul_nonneg_nonneg; [lia|]. apply Z.pow_nonneg. lia.
Qed.

(** *** The primitive operations *)

Lemma float_of_int_nonneg (n : Z) :
  0 <= n < 2 ^ 63 ->
  Prim2SF (Go.float_of_int n) = binary_normalize prec emax n 0 false.
Proof.
  intros Hn. unfold Go.float_of_int.
  replace (n =? Go.min_int64) with false
    by (symmetry; apply Z.eqb_neq; unfold Go.min_int64; lia).
  replace (n <? 0) with false by (symmetry; apply Z.ltb_ge; lia).
  rewrite of_uint63_spec, Uint63.of_Z_spec.
  rewrite Z.mod_small; [reflexivity|].
  change wB with (2 ^ 63). lia.
Qed.

Lemma float_of_int_neg (n : Z) :
  - 2 ^ 63 <= n < 0 -> sf_np (Prim2SF (Go.float_of_int n)).
Proof.
  intros Hn. unfold Go.float_of_int.
  destruct (Z.eqb_spec n Go.min_int64) as [->|Hne]; [reflexivity|].
  replace (n <? 0) with true by (symmetry; apply Z.ltb_lt; lia).
  rewrite opp_spec, of_uint63_spec, Uint63.of_Z_spec.
  rewrite Z.mod_small
    by (change wB with (2 ^ 63); unfold Go.min_int64 in Hne; lia).
  pose proof (normalize_nn (- n) ltac:(lia)) as H.
  destruct (binary_normalize prec emax (- n) 0 false) as [s|s| |s m e];
    simpl in H |- *; subst; auto.
Qed.

Lemma int_of_float_np (f : float) :
  sf_np (Prim2SF f) -> Go.int_of_float f <= 0.
Proof.
  unfold Go.int_of_float. destruct (Prim2SF f) as [s|s| |s m e]; simpl;
    intros H; subst; try (unfold Go.min_int64; lia).
  assert (Ht : 0 <= (if 0 <=? e then Z.pos m * 2 ^ e else Z.pos m / 2 ^ (- e))).
  { destruct (0 <=? e) eqn:E.
    - apply Z.leb_le in E. pose proof (pow2_pos e E). lia.
    - apply Z.leb_gt in E. apply Z.div_pos; [lia | apply pow2_pos; lia]. }
  destruct (_ && _); unfold Go.min_int64; lia.
Qed.

Lemma int_of_float_le (f : float) (mb eb s : Z) :
  sf_le (Prim2SF f) mb eb -> dy_le mb eb s 0 -> 0 <= s <= Go.max_int64 ->
  0 <= Go.int_of_float f <= s.
Proof.
  unfold Go.int_of_float. destruct (Prim2SF f) as [sg|sg| |sg m e]; simpl;
    intros H Hb Hs; try contradiction; [lia|].
  destruct sg; [contradiction|].
  pose proof (dy_le_trans _ _ _ _ _ _ H Hb) as Hle.
  assert (Ht : 0 <= (if 0 <=? e then Z.pos m * 2 ^ e else Z.pos m / 2 ^ (- e)) <= s).
  { destruct (0 <=? e) eqn:E.
    - apply Z.leb_le in E. pose proof (pow2_pos e E).
      apply (dy_le_at 0) in Hle; [|lia|lia].
      rewrite !Z.sub_0_r in Hle. simpl (2 ^ 0) in Hle. lia.
    - apply Z.leb_gt in E. pose proof (pow2_pos (- e) ltac:(lia)).
      apply (dy_le_at e) in Hle; [|lia|lia].
      rewrite Z.sub_diag in Hle. simpl (2 ^ 0) in Hle.
      replace (0 - e) with (- e) in Hle by lia.
      split; [apply Z.div_pos; lia|].
      apply Z.div_le_upper_bound; lia. }
  replace ((Go.min_int64 <=? _) && (_ <=? Go.max_int64)) with true; [lia|].
  symmetry. apply andb_true_iff. unfold Go.min_int64, Go.max_int64 in *.
  split; apply Z.leb_le; lia.
Qed.

Lemma leb0_nn (x : float) : (0 <=? x)%float = true -> sf_nn (Prim2SF x).
Proof.
  rewrite leb_spec. change (Prim2SF 0) with (S754_zero false).
  destruct (Prim2SF x) as [s|s| |s m e]; simpl; auto;
    destruct s; simpl; auto; discriminate.
Qed.

Lemma clamp_nn (x : float) :
  sf_nn (Prim2SF (if (x <? 0)%float then 0%float else x)).
Proof.
  destruct (x <? 0)%float eqn:E; [exact I|].
  rewrite ltb_spec in E. change (Prim2SF 0) with (S754_zero false) in E.
  destruct (Prim2SF x) as [s|s| |s m e]; simpl; auto;
    destruct s; simpl in *; auto; discriminate.
Qed.

Lemma clamp_unit (x : float) :
  sf_le1 (Prim2SF x) ->
  sf_unit (Prim2SF (if (x <? 0)%float then 0%float else x)).
Proof.
  intros H. destruct (x <? 0)%float eqn:E; [exact I|].
  rewrite ltb_spec in E. change (Prim2SF 0) with (S754_zero false) in E.
  destruct (Prim2SF x) as [s|s| |s m e]; simpl in *; auto;
    destruct s; simpl in *; auto; discriminate.
Qed.

Lemma mul_nn (x y : float) :
  sf_nn (Prim2SF x) -> sf_nn (Prim2SF y) -> sf_nn (Prim2SF (x * y)).
Proof. rewrite mul_spec. apply SFmul_sign. Qed.

Lemma mul_np (x y : float) :
  sf_np (Prim2SF x) -> sf_nn (Prim2SF y) -> sf_np (Prim2SF (x * y)).
Proof. rewrite mul_spec. apply SFmul_sign. Qed.

Lemma add_nn (x y : float) :
  sf_nn (Prim2SF x) -> sf_nn (Prim2SF y) -> sf_nn (Prim2SF (x + y)).
Proof. rewrite add_spec. apply SFadd_nn. Qed.

Lemma div_nn (x y : float) (my : positive) (ey : Z) :
  Prim2SF y = S754_finite false my ey ->
  sf_nn (Prim2SF x) -> sf_nn (Prim2SF (x / y)).
Proof. intros Hy Hx. rewrite div_spec, Hy. now apply SFdiv_nn. Qed.

Lemma float_of_int_nn (n : Z) :
  0 <= n < 2 ^ 63 -> sf_nn (Prim2SF (Go.float_of_int n)).
Proof.
  intros Hn. rewrite float_of_int_nonneg by exact Hn.
  apply normalize_nn. lia.
Qed.

Lemma Duration_Hours_nn (d : Z) :
  0 <= d < 2 ^ 63 -> sf_nn (Prim2SF (Go.Duration_Hours d)).
Proof.
  intros Hd. unfold Go.Duration_Hours.
  assert (HH : 0 < Go.Hour) by reflexivity.
  pose proof (Z.quot_pos d Go.Hour ltac:(lia) HH).
  assert (Z.quot d Go.Hour < 2 ^ 63).
  { rewrite Z.quot_div_nonneg by lia.
    apply Z.div_lt_upper_bound; [lia|]. unfold Go.Hour, Go.Second. lia. }
  pose proof (Z.rem_bound_pos d Go.Hour ltac:(lia) HH).
  assert (Go.Hour < 2 ^ 63) by reflexivity.
  apply add_nn.
  - apply float_of_int_nn. lia.
  - eapply div_nn; [reflexivity|]. apply float_of_int_nn. lia.
Qed.

(** The canonical pair of a positive integer below [2^53]. *)
Lemma canonical_int (s : Z) :
  0 < s < 2 ^ 53 ->
  exists mb eb, canonical_bound mb eb /\ dy_le s 0 mb eb /\ dy_le mb eb s 0.
Proof.
  intros Hs. set (d := Zdigits2 s).
  assert (Hd : 0 < d <= 53).
  { split; [apply Zdigits2_pos; lia|]. apply Zdigits2_lt_pow; lia. }
  pose proof (pow2_pos (53 - d) ltac:(lia)) as Hp.
  exists (s * 2 ^ (53 - d)), (d - 53).
  assert (Hdig : Zdigits2 (s * 2 ^ (53 - d)) = 53).
  { apply Zdigits2_unique; [lia|].
    destruct (Zdigits2_bounds s ltac:(lia)) as [Hl Hu]. fold d in Hl, Hu.
    assert (E1 : 2 ^ (53 - 1) = 2 ^ (d - 1) * 2 ^ (53 - d)).
    { rewrite <- pow2_add by lia. f_equal. lia. }
    assert (E2 : 2 ^ 53 = 2 ^ d * 2 ^ (53 - d)).
    { rewrite <- pow2_add by lia. f_equal. lia. }
    rewrite E1, E2. split.
    - apply Z.mul_le_mono_nonneg_r; lia.
    - apply Z.mul_lt_mono_pos_r; lia. }
  split; [|split].
  - unfold canonical_bound. rewrite Hdig. unfold fexp64. lia.
  - apply (dy_le_at (d - 53)); [lia | lia |].
    rewrite Z.sub_diag. simpl (2 ^ 0).
    replace (0 - (d - 53)) with (53 - d) by lia. lia.
  - apply (dy_le_at (d - 53)); [lia | lia |].
    rewrite Z.sub_diag. simpl (2 ^ 0).
    replace (0 - (d - 53)) with (53 - d) by lia. lia.
Qed.

(** Scaling an integer score by a factor of at most one does not raise
    it. *)
Lemma scaled_le (s : Z) (df : float) :
  0 <= s < 2 ^ 53 -> sf_unit (Prim2SF df) ->
  Go.int_of_float (Go.float_of_int s * df) <= s.
Proof.
  intros Hs Hdf.
  assert (Hnan : forall f, Prim2SF f = S754_nan -> Go.int_of_float f <= s).
  { intros f E. unfold Go.int_of_float. rewrite E. unfold Go.min_int64. lia. }
  assert (Hzero : forall f sg, Prim2SF f = S754_zero sg ->
                    Go.int_of_float f <= s).
  { intros f sg E. unfold Go.int_of_float. rewrite E. lia. }
  pose proof (mul_spec (Go.float_of_int s) df) as Hmul.
  unfold SF64mul in Hmul.
  rewrite float_of_int_nonneg in Hmul by lia.
  destruct (Z.eq_dec s 0) as [->|Hne].
  - simpl binary_normalize in Hmul.
    destruct (Prim2SF df) as [sg|sg| |sg m e]; simpl in Hmul, Hdf;
      try contradiction; eauto.
  - destruct (canonical_int s ltac:(lia)) as (mb & eb & HB & Hsb & Hbs).
    pose proof (normalize_le s mb eb ltac:(lia) HB Hsb) as HX.
    pose proof (Prim2SF_valid (Go.float_of_int s)) as VX.
    rewrite float_of_int_nonneg in VX by lia.
    pose proof (Prim2SF_valid df) as Vdf.
    destruct (Prim2SF df) as [sg|sg| |sg m e] eqn:Edf; simpl in Hdf;
      try contradiction.
    + destruct (binary_normalize prec emax s 0 false) as [s1|s1| |s1 m1 e1];
        simpl in HX, Hmul; try contradiction; eauto.
    + destruct (binary_normalize prec emax s 0 false) as [s1|s1| |s1 m1 e1];
        simpl in HX, Hmul; try contradiction; eauto.
    + destruct sg; [contradiction|].
      assert (Hle : sf_le (Prim2SF (Go.float_of_int s * df)) mb eb).
      { rewrite Hmul.
        apply (SFmul_le _ _ mb eb 1 0); try assumption; try lia.
        - destruct HB; lia.
        - rewrite Z.mul_1_r, Z.add_0_r. apply dy_le_refl. }
      apply (int_of_float_le _ mb eb s Hle Hbs).
      unfold Go.max_int64. lia.
Qed.

Lemma decay_factor_unit (rate hours : float) :
  (0 <=? rate)%float = true -> sf_nn (Prim2SF hours) ->
  sf_unit
    (Prim2SF (if (1 - rate * (hours / 24) <? 0)%float then 0%float
              else (1 - rate * (hours / 24))%float)).
Proof.
  intros Hr Hh. apply clamp_unit.
  rewrite sub_spec. change (Prim2SF 1) with sf_one.
  apply SFsub_one_le1. apply mul_nn; [now apply leb0_nn|].
  eapply div_nn; [reflexivity | exact Hh].
Qed.

(** With counts that are not negative and at most [2^59], the sum of the
    two rates times five is a number of the range of an int. *)
Lemma engagement_fits (R P T : Z) :
  0 <= R <= 2 ^ 59 -> 0 <= P <= 2 ^ 59 -> 0 < T < 2 ^ 63 ->
  0 <= Go.int_of_float
         (Go.float_of_int R / Go.float_of_int T * 5
          + Go.float_of_int P / Go.float_of_int T * 5)%float
    <= Go.max_int64.
Proof.
  intros HR HP HT.
  set (k := Zdigits2 T).
  destruct (Zdigits2_bounds T ltac:(lia)) as [Hkl Hku]. fold k in Hkl, Hku.
  assert (Hk : 0 < k <= 63).
  { split; [apply Zdigits2_pos; lia|]. apply Zdigits2_lt_pow; lia. }
  assert (Hconv : forall n, 0 <= n <= 2 ^ 59 ->
            sf_le (Prim2SF (Go.float_of_int n)) 1 59).
  { intros n Hn. rewrite float_of_int_nonneg by lia.
    assert (H : sf_le (binary_normalize prec emax n 0 false) (2 ^ 52) (59 - 52)).
    { apply normalize_le; [lia | apply canonical_pow2; lia|].
      apply dy_le_pow2_canon. apply (dy_le_at 0); [lia | lia |].
      rewrite !Z.sub_0_r. simpl (2 ^ 0). lia. }
    destruct (binary_normalize prec emax n 0 false) as [s|s| |s m e];
      simpl in H |- *; try contradiction; auto.
    destruct s; [contradiction|]. now apply dy_le_pow2_canon. }
  assert (HTge : sf_ge (Prim2SF (Go.float_of_int T)) 0).
  { rewrite float_of_int_nonneg by lia.
    apply (normalize_ge T 0 (2 ^ 52) (k - 52)); try lia.
    - apply canonical_pow2. lia.
    - apply dy_le_pow2_canon. apply (dy_le_at 0); [lia | lia |].
      rewrite !Z.sub_0_r. simpl (2 ^ 0). lia. }
  assert (Hterm : forall n, 0 <= n <= 2 ^ 59 ->
            sf_le (Prim2SF (Go.float_of_int n / Go.float_of_int T * 5)%float)
              (5 * 2 ^ 50) 9).
  { intros n Hn.
    assert (Hq : sf_le (Prim2SF (Go.float_of_int n / Go.float_of_int T)%float)
                   1 59).
    { rewrite div_spec.
      exact (SFdiv_le_pow2 _ _ 59 0 (Hconv n Hn) HTge ltac:(lia)). }
    rewrite mul_spec.
    apply (SFmul_le _ _ 1 59 5 0); try apply Prim2SF_valid; try lia.
    - exact Hq.
    - change (Prim2SF 5) with (S754_finite false 5629499534213120 (-50)).
      unfold sf_le, dy_le. vm_compute. discriminate.
    - unfold canonical_bound. vm_compute. intuition (discriminate || reflexivity).
    - unfold dy_le. vm_compute. discriminate. }
  assert (Hsum : sf_le (Prim2SF (Go.float_of_int R / Go.float_of_int T * 5
                                 + Go.float_of_int P / Go.float_of_int T * 5)%float)
                   (5 * 2 ^ 50) 10).
  { rewrite add_spec.
    apply (SFadd_le _ _ (5 * 2 ^ 50) (5 * 2 ^ 50) 9); try lia.
    - now apply Hterm.
    - now apply Hterm.
    - unfold canonical_bound. vm_compute. intuition (discriminate || reflexivity).
    - unfold dy_le. vm_compute. discriminate. }
  pose proof (int_of_float_le _ _ _ (5 * 2 ^ 60) Hsum) as Hint.
  unfold Go.max_int64 in *.
  assert (0 <= Go.int_of_float
         (Go.float_of_int R / Go.float_of_int T * 5
          + Go.float_of_int P / Go.float_of_int T * 5)%float <= 5 * 2 ^ 60).
  { apply Hint.
    - unfold dy_le. vm_compute. discriminate.
    - lia. }
  lia.
Qed.

End float_facts.

(** ** The classifier *)

Module Classifier_facts.

Import Classifier.

(** The classifier with another rule set. *)
Definition with_rules (c : Classifier)
  (rules : list (string * config.ClassificationRule)) : Classifier :=
  {| config :=
       {| config.Version := config.Version (config c);
          config.Rules := config.Rules (config c);
          config.ClassificationRules := rules |};
     db := db c; cache := cache c |}.

(** What the short-circuits for an ignored sender and an ignored subject
    return. *)
Definition ignored_sender_result (email : Email) (now : Z)
  : ClassificationResult :=
  {| EmailID := ID email; Category := "spam"; Confidence := 0.99%float;
     Method := "rules"; Tags := ["ignored"; "auto"];
     Reasoning := "Sender is in ignore list"; Timestamp := now |}.

Definition ignored_subject_result (email : Email) (now : Z)
  : ClassificationResult :=
  {| EmailID := ID email; Category := "newsletters";
     Confidence := 0.95%float; Method := "rules";
     Tags := ["ignored"; "auto"];
     Reasoning := "Subject matches ignore pattern"; Timestamp := now |}.

(** The first pair of a list of guarded pairs whose guard holds. *)
Fixpoint first_match {A : Type} (cases : list (bool * A)) (default : A) : A :=
  match cases with
  | [] => default
  | (guard, a) :: rest => if guard then a else first_match rest default
  end.

Section WithRuntime.
Context `{GoRuntime}.

(** The cache holds no entry for the email that is less than 24 hours
    old when the clock reads [now]. *)
Definition no_fresh_entry (c : Classifier) (email : Email) (now : Z) : Prop :=
  forall cached, cache c !! getCacheKey email = Some cached ->
    24 * Go.Hour <= Go.time_Since now (Timestamp cached).

(** The email reaches the evaluation of the rules. *)
Definition reaches_rules (c : Classifier) (email : Email) (now : Z) : Prop :=
  no_fresh_entry c email now
  /\ config.ShouldIgnoreSender (config c) (From email) = false
  /\ config.ShouldIgnoreSubject (config c) (Subject email) = false.

(** The heuristics of the fallback in the words of the specification:
    guard, category and confidence, in priority order. *)
Definition heuristics (email : Email) : list (bool * (string * float)) :=
  let sender := strings_ToLower (From email) in
  let subject := strings_ToLower (Subject email) in
  let has text keyword := Go.strings_Contains text keyword in
  [ (has sender "noreply@" || has sender "no-reply@"
     || has sender "notifications@", ("newsletters", 0.70%float));
    (has subject "newsletter" || has subject "subscription"
     || has subject "digest", ("newsletters", 0.75%float));
    (has subject "sale" || has subject "offer" || has subject "discount"
     || has subject "% off" || has subject "deal", ("promotions", 0.80%float));
    (has subject "invoice" || has subject "payment" || has subject "receipt"
     || has subject "bill", ("invoice", 0.85%float));
    (has subject "urgent" || has subject "asap" || has subject "important"
     || has subject "critical", ("urgent", 0.90%float)) ].

Lemma Classify_fresh (c : Classifier) (email : Email) (now : Z)
  (cached : ClassificationResult) :
  cache c !! getCacheKey email = Some cached ->
  Go.time_Since now (Timestamp cached) < 24 * Go.Hour ->
  Classify c email now = (c, (Some cached, None)).
Proof.
  intros Hc Ht. unfold Classify. rewrite Hc.
  now rewrite (proj2 (Z.ltb_lt _ _) Ht).
Qed.

Lemma Classify_no_fresh (c : Classifier) (email : Email) (now : Z) :
  no_fresh_entry c email now ->
  Classify c email now =
  if config.ShouldIgnoreSender (config c) (From email)
  then (c, (Some (ignored_sender_result email now), None))
  else if config.ShouldIgnoreSubject (config c) (Subject email)
  then (c, (Some (ignored_subject_result email now), None))
  else (with_cache c (<[getCacheKey email := classifyByRules c email now]>
                        (cache c)),
        (Some (classifyByRules c email now), None)).
Proof.
  intros Hno. unfold Classify.
  destruct (cache c !! getCacheKey email) as [cached|] eqn:Hc; [|reflexivity].
  specialize (Hno cached Hc).
  now rewrite (proj2 (Z.ltb_ge _ _) Hno).
Qed.

Lemma time_Since_mono (now1 now2 t : Z) :
  now1 <= now2 -> Go.time_Since now1 t <= Go.time_Since now2 t.
Proof. unfold Go.time_Since, Go.time_Sub. lia. Qed.

Lemma no_fresh_entry_later (c : Classifier) (email : Email) (now1 now2 : Z) :
  now1 <= now2 -> no_fresh_entry c email now1 -> no_fresh_entry c email now2.
Proof.
  intros Hle Hno cached Hc. specialize (Hno cached Hc).
  pose proof (time_Since_mono now1 now2 (Timestamp cached) Hle). lia.
Qed.

(** A rule that does not match leaves the loop variables as they are. *)
Lemma rules_loop_no_match (email : Email) (now : Z)
  (rules : list (string * config.ClassificationRule))
  (bestMatch : option ClassificationResult) (highestConfidence : float) :
  (forall category rule, In (category, rule) rules ->
     matchesRule email rule = false) ->
  rules_loop email now rules bestMatch highestConfidence = bestMatch.
Proof.
  induction rules as [|[category rule] rest IH]; intros Hno; [reflexivity|].
  simpl. rewrite (Hno category rule (or_introl eq_refl)). simpl.
  apply IH. intros cat' rule' Hin. apply (Hno cat' rule'). now right.
Qed.

(** Once the loop holds a rule, a rule that is visited later replaces it
    only when its confidence is strictly greater. *)
Lemma rules_loop_keeps (email : Email) (now : Z)
  (rules : list (string * config.ClassificationRule))
  (best : ClassificationResult) (rule : config.ClassificationRule) :
  (forall cat' rule', In (cat', rule') rules ->
     matchesRule email rule' = true ->
     (config.Confidence rule <? config.Confidence rule')%float = false) ->
  rules_loop email now rules (Some best) (config.Confidence rule) = Some best.
Proof.
  induction rules as [|[cat' rule'] rest IH]; intros Hle; [reflexivity|].
  simpl. destruct (matchesRule email rule') eqn:Hm; simpl.
  - rewrite (Hle cat' rule' (or_introl eq_refl) Hm).
    apply IH. intros c2 r2 Hin. apply (Hle c2 r2). now right.
  - apply IH. intros c2 r2 Hin. apply (Hle c2 r2). now right.
Qed.

(** The rule that matches with a confidence above zero and strictly above
    the confidence of every other matching rule is the one selected, in
    whatever order the rules are visited. *)
Lemma rules_loop_highest (email : Email) (now : Z)
  (rules : list (string * config.ClassificationRule))
  (category : string) (rule : config.ClassificationRule)
  (bestMatch : option ClassificationResult) (highestConfidence : float) :
  NoDup (List.map fst rules) ->
  In (category, rule) rules ->
  matchesRule email rule = true ->
  (highestConfidence <? config.Confidence rule)%float = true ->
  (forall cat' rule', In (cat', rule') rules -> cat' <> category ->
     matchesRule email rule' = true ->
     (config.Confidence rule' <? config.Confidence rule)%float = true) ->
  rules_loop email now rules bestMatch highestConfidence
  = Some (rule_result email category rule now).
Proof.
  revert bestMatch highestConfidence.
  induction rules as [|[cat' rule'] rest IH];
    intros bestMatch h Hnd Hin Hm Hh Hmax; [destruct Hin|].
  simpl in Hnd. apply NoDup_cons in Hnd. destruct Hnd as [Hfresh Hnd].
  rewrite list_elem_of_In in Hfresh.
  destruct Hin as [[= -> ->]|Hin].
  - simpl. rewrite Hm, Hh. simpl.
    apply rules_loop_keeps. intros c2 r2 Hin2 Hm2.
    apply float_facts.ltb_asym. apply (Hmax c2 r2); [now right| |exact Hm2].
    intros ->. apply Hfresh. apply in_map_iff. now exists (category, r2).
  - assert (Hne : cat' <> category).
    { intros ->. apply Hfresh. apply in_map_iff. now exists (category, rule). }
    assert (Hrest : forall c2 r2, In (c2, r2) rest -> c2 <> category ->
              matchesRule email r2 = true ->
              (config.Confidence r2 <? config.Confidence rule)%float = true).
    { intros c2 r2 Hin2. apply (Hmax c2 r2). now right. }
    simpl. destruct (matchesRule email rule' &&
                     (h <? config.Confidence rule')%float) eqn:Hsel.
    + apply andb_true_iff in Hsel. destruct Hsel as [Hm' _].
      apply IH; auto. apply (Hmax cat' rule'); auto. now left.
    + apply IH; auto.
Qed.

Lemma classifyByRules_highest (c : Classifier) (email : Email) (now : Z)
  (category : string) (rule : config.ClassificationRule) :
  NoDup (List.map fst (config.ClassificationRules (config c))) ->
  In (category, rule) (config.ClassificationRules (config c)) ->
  matchesRule email rule = true ->
  (0 <? config.Confidence rule)%float = true ->
  (forall cat' rule',
     In (cat', rule') (config.ClassificationRules (config c)) ->
     cat' <> category -> matchesRule email rule' = true ->
     (config.Confidence rule' <? config.Confidence rule)%float = true) ->
  classifyByRules c email now = rule_result email category rule now.
Proof.
  intros Hnd Hin Hm Hpos Hmax. unfold classifyByRules.
  now rewrite (rules_loop_highest email now _ category rule None 0%float).
Qed.

Lemma defaultClassification_heuristics (email : Email) (now : Z) :
  let r := defaultClassification email now in
  (Category r, Confidence r)
  = first_match (heuristics email) ("personal", 0.5%float)
  /\ EmailID r = ID email /\ Method r = "rules"
  /\ Tags r = ["default"; "heuristic"] /\ Timestamp r = now.
Proof.
  unfold defaultClassification, heuristics, containsAny. simpl.
  rewrite !orb_false_r, !orb_assoc.
  repeat match goal with
         | |- context [if ?b then _ else _] => destruct b; simpl
         end; repeat split; reflexivity.
Qed.

End WithRuntime.

End Classifier_facts.

(** ** Claims about the classifier *)

Import Classifier Classifier_facts.

(** The claim C3 as it is stated: two calls less than 24 hours apart
    return the same result. *)
Definition classify_twice_identical `{GoRuntime} (c : Classifier)
  (email : Email) (now1 now2 : Z) : Prop :=
  now1 <= now2 < now1 + 24 * Go.Hour ->
  forall c1 r1 c2 r2,
    Classify c email now1 = (c1, r1) ->
    Classify c1 email now2 = (c2, r2) ->
    r1 = r2.

(** C3, as stated, fails: a message of an ignored sender is not cached, so
    the second call one nanosecond later stamps its result anew. *)
Lemma C3_ignored_sender_restamped :
  ~ classify_twice_identical
      (NewClassifier Example.marketing_cfg Example.db0)
      Example.promo_email 0 1.
Proof.
  intros Hclaim.
  specialize (Hclaim ltac:(vm_compute; split; congruence)
                _ _ _ _ eq_refl eq_refl).
  discriminate Hclaim.
Qed.

(** C3 (amended): for a message that no ignore list matches, a second call
    of Classify less than 24 hours after the timestamp of the result of
    the first call returns that very result - category, confidence,
    method, tags, reasoning and timestamp - and leaves the cache as the
    first call left it. *)
Theorem C3_second_call_returns_cached `{GoRuntime} (c c1 : Classifier)
  (email : Email) (now1 now2 : Z) (r1 : ClassificationResult) :
  config.ShouldIgnoreSender (config c) (From email) = false ->
  config.ShouldIgnoreSubject (config c) (Subject email) = false ->
  Classify c email now1 = (c1, (Some r1, None)) ->
  Go.time_Since now2 (Timestamp r1) < 24 * Go.Hour ->
  Classify c1 email now2 = (c1, (Some r1, None)).
Proof.
  intros Hsender Hsubject Hfirst Hwithin.
  unfold Classify in Hfirst.
  destruct (cache c !! getCacheKey email) as [cached|] eqn:Hc.
  - destruct (Go.time_Since now1 (Timestamp cached) <? 24 * Go.Hour) eqn:Hf.
    + injection Hfirst as <- <-. now apply Classify_fresh.
    + rewrite Hsender, Hsubject in Hfirst. injection Hfirst as <- <-.
      apply Classify_fresh; [apply lookup_insert_eq | exact Hwithin].
  - rewrite Hsender, Hsubject in Hfirst. injection Hfirst as <- <-.
    apply Classify_fresh; [apply lookup_insert_eq | exact Hwithin].
Qed.

Lemma C3_second_call_returns_cached_witness :
  Classify
    (fst (Classify (NewClassifier Example.cfg0 Example.db0)
            Example.email0 0))
    Example.email0 1
  = (fst (Classify (NewClassifier Example.cfg0 Example.db0)
            Example.email0 0),
     (Some (defaultClassification Example.email0 0), None)).
Proof.
  apply (C3_second_call_returns_cached
           (NewClassifier Example.cfg0 Example.db0) _ Example.email0 0 1);
    [reflexivity | reflexivity | reflexivity | vm_compute; reflexivity].
Defined.

(** C5 fails on a rule of confidence zero: the rule set of [zero_cfg]
    passes validation, its only rule matches every message and so has the
    greatest confidence among the matching rules, yet Classify answers
    with the fallback heuristics and not with the category, confidence and
    tags of the rule. *)
Theorem C5_zero_confidence_rule_ignored :
  config.Validate Example.zero_cfg = None
  /\ matchesRule Example.email0 Example.zero_rule = true
  /\ snd (Classify (NewClassifier Example.zero_cfg Example.db0)
            Example.email0 0)
     = (Some (defaultClassification Example.email0 0), None)
  /\ Category (defaultClassification Example.email0 0) = "newsletters"
  /\ Tags (defaultClassification Example.email0 0) = ["default"; "heuristic"].
Proof. repeat split; reflexivity. Qed.

(** C6: a message without fresh cache entry whose sender matches an ignore
    pattern - universal, exact, suffix glob or prefix glob, compared after
    lowering ASCII letters - is classified as spam with confidence 0.99,
    method rules, tags ignored and auto and the reasoning of the ignore
    list; the cache is untouched and the answer is the same whatever the
    classification rules are. *)
Theorem C6_ignored_sender_is_spam `{GoRuntime} (c : Classifier)
  (email : Email) (now : Z) (pattern : string)
  (rules : list (string * config.ClassificationRule)) :
  no_fresh_entry c email now ->
  In pattern (config.IgnoreSenders (config.Rules (config c))) ->
  config_facts.glob_match (config.toLower (From email))
    (config.toLower pattern) ->
  Classify (with_rules c rules) email now
  = (with_rules c rules,
     (Some {| EmailID := ID email; Category := "spam";
              Confidence := 0.99%float; Method := "rules";
              Tags := ["ignored"; "auto"];
              Reasoning := "Sender is in ignore list";
              Timestamp := now |}, None)).
Proof.
  intros Hno Hin Hm.
  rewrite Classify_no_fresh by exact Hno.
  replace (config.ShouldIgnoreSender (config (with_rules c rules))
             (From email)) with true; [reflexivity|].
  symmetry. now apply (config_facts.ShouldIgnoreSender_glob _ _ pattern).
Qed.

Lemma C6_ignored_sender_is_spam_witness :
  Classify (with_rules (NewClassifier Example.marketing_cfg Example.db0)
              Example.work_cfg.(config.ClassificationRules))
    Example.promo_email 7
  = (with_rules (NewClassifier Example.marketing_cfg Example.db0)
       Example.work_cfg.(config.ClassificationRules),
     (Some (ignored_sender_result Example.promo_email 7), None)).
Proof.
  apply (C6_ignored_sender_is_spam
           (NewClassifier Example.marketing_cfg Example.db0)
           Example.promo_email 7 "*@marketing.com").
  - intros cached Hc. vm_compute in Hc. discriminate Hc.
  - simpl. left. reflexivity.
  - apply (config_facts.glob_suffix _ "promo" "@marketing.com"). reflexivity.
Defined.

(** C7: every path of Classify returns a result and a nil error, and a
    regex condition whose pattern does not compile does not match. *)
Theorem C7_Classify_never_fails `{GoRuntime} (c : Classifier)
  (email : Email) (now : Z) :
  (exists c' result, Classify c email now = (c', (Some result, None)))
  /\ (forall cond,
        config.Operator cond = "regex" ->
        regexp_Compile (config.Value cond) = None ->
        matchesCondition email cond = false).
Proof.
  split.
  - unfold Classify.
    destruct (match cache c !! getCacheKey email with
              | Some cached =>
                  if Go.time_Since now (Timestamp cached) <? 24 * Go.Hour
                  then Some cached else None
              | None => None
              end) as [cached|]; [eauto|].
    destruct (config.ShouldIgnoreSender (config c) (From email)); [eauto|].
    destruct (config.ShouldIgnoreSubject (config c) (Subject email)); eauto.
  - intros cond Hop Hre. unfold matchesCondition.
    rewrite Hop, Hre. simpl.
    repeat match goal with
           | |- context [if ?b then _ else _] => destruct b
           end; reflexivity.
Qed.

Lemma C7_Classify_never_fails_witness :
  matchesCondition Example.email0 Example.bad_regex = false.
Proof.
  apply (proj2 (C7_Classify_never_fails
                  (NewClassifier Example.cfg0 Example.db0)
                  Example.email0 0) Example.bad_regex);
    reflexivity.
Defined.

(** C8: a message that reaches the rules and that no rule matches gets
    the first of the heuristics that applies - automated sender
    (newsletters, 0.70), newsletter keyword (newsletters, 0.75), promotion
    keyword (promotions, 0.80), financial keyword (invoice, 0.85), urgent
    keyword (urgent, 0.90) - and otherwise personal with confidence 0.50;
    the subject "Daily Tech News Digest" from newsletter@techcrunch.com
    gives newsletters with confidence 0.75. *)
Theorem C8_fallback_heuristics `{GoRuntime} (c : Classifier)
  (email : Email) (now : Z) :
  reaches_rules c email now ->
  (forall category rule,
     In (category, rule) (config.ClassificationRules (config c)) ->
     matchesRule email rule = false) ->
  exists result,
    Classify c email now
    = (with_cache c (<[getCacheKey email := result]> (cache c)),
       (Some result, None))
    /\ (Category result, Confidence result)
       = first_match (heuristics email) ("personal", 0.5%float)
    /\ (From email = "newsletter@techcrunch.com" ->
        Subject email = "Daily Tech News Digest" ->
        strings_ToLower "newsletter@techcrunch.com"
        = "newsletter@techcrunch.com" ->
        strings_ToLower "Daily Tech News Digest"
        = "daily tech news digest" ->
        Category result = "newsletters"
        /\ Confidence result = 0.75%float).
Proof.
  intros (Hno & Hsender & Hsubject) Hrules.
  exists (defaultClassification email now).
  assert (Hby : classifyByRules c email now = defaultClassification email now).
  { unfold classifyByRules. now rewrite rules_loop_no_match. }
  rewrite Classify_no_fresh, Hsender, Hsubject, Hby by exact Hno.
  destruct (defaultClassification_heuristics email now) as (Hh & _).
  split; [reflexivity|]. split; [exact Hh|].
  intros Hfrom Hsubj Hl1 Hl2.
  assert (E : (Category (defaultClassification email now),
               Confidence (defaultClassification email now))
              = ("newsletters", 0.75%float)).
  { rewrite Hh. unfold heuristics. rewrite Hfrom, Hsubj, Hl1, Hl2.
    reflexivity. }
  now injection E.
Qed.

Lemma C8_fallback_heuristics_witness :
  exists result,
    Classify (NewClassifier Example.cfg0 Example.db0) Example.email0 0
    = (with_cache (NewClassifier Example.cfg0 Example.db0)
         (<[getCacheKey Example.email0 := result]> ∅), (Some result, None))
    /\ Category result = "newsletters" /\ Confidence result = 0.75%float.
Proof.
  destruct (C8_fallback_heuristics
              (NewClassifier Example.cfg0 Example.db0) Example.email0 0)
    as (result & Hc & _ & Hex).
  - split; [|split; reflexivity].
    intros cached Hc. vm_compute in Hc. discriminate Hc.
  - intros category rule [].
  - exists result. split; [exact Hc|].
    apply Hex; reflexivity.
Defined.

(** C9: a call that returns through the ignore-sender or ignore-subject
    short-circuit leaves the classifier, and with it the cache, as it was,
    and a later call for the same message takes the short-circuit again and
    stamps its result with the time of that call. *)
Theorem C9_ignore_path_not_cached `{GoRuntime} (c : Classifier)
  (email : Email) (now1 now2 : Z) :
  now1 <= now2 ->
  no_fresh_entry c email now1 ->
  config.ShouldIgnoreSender (config c) (From email) = true
  \/ config.ShouldIgnoreSubject (config c) (Subject email) = true ->
  exists result : Z -> ClassificationResult,
    (result = ignored_sender_result email
     \/ result = ignored_subject_result email)
    /\ Classify c email now1 = (c, (Some (result now1), None))
    /\ Classify c email now2 = (c, (Some (result now2), None))
    /\ Timestamp (result now2) = now2.
Proof.
  intros Hle Hno Hign.
  pose proof (no_fresh_entry_later c email now1 now2 Hle Hno) as Hno2.
  rewrite !Classify_no_fresh by assumption.
  destruct (config.ShouldIgnoreSender (config c) (From email)).
  - exists (ignored_sender_result email). auto.
  - destruct Hign as [Hs|Hs]; [discriminate|]. rewrite Hs.
    exists (ignored_subject_result email). auto.
Qed.

Lemma C9_ignore_path_not_cached_witness :
  exists result : Z -> ClassificationResult,
    (result = ignored_sender_result Example.promo_email
     \/ result = ignored_subject_result Example.promo_email)
    /\ Classify (NewClassifier Example.marketing_cfg Example.db0)
         Example.promo_email 0
       = (NewClassifier Example.marketing_cfg Example.db0,
          (Some (result 0), None))
    /\ Classify (NewClassifier Example.marketing_cfg Example.db0)
         Example.promo_email 1
       = (NewClassifier Example.marketing_cfg Example.db0,
          (Some (result 1), None))
    /\ Timestamp (result 1) = 1.
Proof.
  apply (C9_ignore_path_not_cached
           (NewClassifier Example.marketing_cfg Example.db0)
           Example.promo_email 0 1).
  - lia.
  - intros cached Hc. vm_compute in Hc. discriminate Hc.
  - left. reflexivity.
Defined.

(** C10: LearnFromFeedback changes nothing but the database of the
    classifier; a message whose cached result is less than 24 hours old is
    still answered from the cache after the feedback, with the category
    that was cached and not the corrected one. *)
Theorem C10_feedback_leaves_cache `{GoRuntime} (c : Classifier)
  (email : Email) (correctCategory : string) (now_feedback now : Z)
  (cached : ClassificationResult) :
  cache c !! getCacheKey email = Some cached ->
  Go.time_Since now (Timestamp cached) < 24 * Go.Hour ->
  let c' := fst (LearnFromFeedback c (ID email) correctCategory
                   now_feedback) in
  cache c' = cache c
  /\ config c' = config c
  /\ Classify c' email now = (c', (Some cached, None))
  /\ (Category cached <> correctCategory ->
      forall r, snd (Classify c' email now) = (Some r, None) ->
                Category r <> correctCategory).
Proof.
  intros Hc Hfresh c'.
  assert (Hcache : cache c' = cache c).
  { unfold c', LearnFromFeedback, SaveClassification.
    destruct (storage.SaveClassification _ _ _). reflexivity. }
  assert (Hconfig : config c' = config c).
  { unfold c', LearnFromFeedback, SaveClassification.
    destruct (storage.SaveClassification _ _ _). reflexivity. }
  assert (Hcl : Classify c' email now = (c', (Some cached, None))).
  { apply Classify_fresh; [now rewrite Hcache | exact Hfresh]. }
  repeat split; try assumption.
  intros Hne r Hr. rewrite Hcl in Hr. simpl in Hr. now injection Hr as <-.
Qed.

Lemma C10_feedback_leaves_cache_witness :
  let c := fst (Classify (NewClassifier Example.cfg0 Example.db0)
                  Example.email0 0) in
  let c' := fst (LearnFromFeedback c "m1" "work" 5) in
  cache c' = cache c
  /\ config c' = config c
  /\ Classify c' Example.email0 9
     = (c', (Some (defaultClassification Example.email0 0), None))
  /\ (Category (defaultClassification Example.email0 0) <> "work" ->
      forall r, snd (Classify c' Example.email0 9) = (Some r, None) ->
                Category r <> "work").
Proof.
  intros c.
  apply (C10_feedback_leaves_cache c Example.email0 "work" 5 9
           (defaultClassification Example.email0 0)).
  - reflexivity.
  - vm_compute. reflexivity.
Defined.

(** ** The priority engine *)

Module PriorityEngine_facts.

Import Classifier PriorityEngine.

(** [clamp(z, lo, hi)] *)
Definition clamp (lo hi z : Z) : Z := Z.max lo (Z.min hi z).

(** The sum of the contributions recorded in a factor map. *)
Definition factor_sum (factors : gmap string Z) : Z :=
  map_fold (fun _ contribution acc => contribution + acc) 0 factors.

(** [floor(x)] of a float64: the greatest integer that is not above [x];
    infinities and NaN have none. *)
Definition floor_of_float (f : float) : option Z :=
  match Prim2SF f with
  | S754_zero _ => Some 0
  | S754_finite s m e =>
      let n := if s then Z.neg m else Z.pos m in
      Some (if 0 <=? e then n * 2 ^ e else n / 2 ^ (- e))
  | S754_infinity _ | S754_nan => None
  end.

(** [max(0, x)] on float64, as the code takes it. *)
Definition float_max0 (x : float) : float :=
  if (x <? 0)%float then 0%float else x.

(** The values of an int. *)
Definition int64 (z : Z) : Prop := Go.min_int64 <= z <= Go.max_int64.

Section WithRuntime.
Context `{GoRuntime}.

(** The six contributions and their sum for an email. *)
Definition senderScore pe email := fst (calculateSenderScore pe email).
Definition keywordScore pe email := fst (calculateKeywordScore pe email).
Definition temporalScore email now := fst (calculateTemporalScore email now).
Definition categoryScore pe email now :=
  fst (fst (snd (calculateCategoryScore pe email now))).
Definition engagementScore pe email :=
  fst (calculateEngagementScore pe email).
Definition threadScore email := fst (calculateThreadScore email).

Definition raw_sum (pe : PriorityEngine) (email : Email) (now : Z) : Z :=
  senderScore pe email + keywordScore pe email + temporalScore email now
  + categoryScore pe email now + engagementScore pe email
  + threadScore email.

(** The age of the email and the threshold of the decay. *)
Definition age (email : Email) (now : Z) : Z :=
  Go.time_Since now (ReceivedAt email).
Definition maxAge (pe : PriorityEngine) : Z :=
  Go.mul64 (config.MaxAgeHours (TimeDecay pe)) Go.Hour.

(** Decay is applied: it is enabled and the email is older than the
    threshold. *)
Definition decay_applies (pe : PriorityEngine) (email : Email) (now : Z)
  : bool :=
  config.Enabled (TimeDecay pe) && (maxAge pe <? age email now).

(** The decay factor [max(0, 1 - decayRate * (ageInHours / 24))]. *)
Definition decay_factor (pe : PriorityEngine) (email : Email) (now : Z)
  : float :=
  float_max0
    (1 - config.DecayRate (TimeDecay pe)
         * (Go.Duration_Hours (age email now) / 24))%float.

(** The pipeline of the specification: the raw sum is clamped, then
    decayed, then clamped again.  The product of the clamped sum and the
    decay factor is taken in float64; the pipeline has no value when the
    product is infinite or not a number. *)
Definition spec_product (pe : PriorityEngine) (email : Email) (now : Z)
  : float :=
  (Go.float_of_int (clamp 0 100 (raw_sum pe email now))
   * decay_factor pe email now)%float.

Definition spec_decayed_score (pe : PriorityEngine) (email : Email) (now : Z)
  : option Z :=
  option_map (clamp 0 100) (floor_of_float (spec_product pe email now)).

(** The engine reads the analytics of the sender, if the store has any. *)
Definition sender_analytics_of (pe : PriorityEngine) (email : Email)
  : option storage.SenderAnalytics :=
  storage.sender_analytics (db pe) !! From email.

End WithRuntime.

Lemma clamp_range (z : Z) : 0 <= clamp 0 100 z <= 100.
Proof. unfold clamp. lia. Qed.

Lemma clamp_mono (a b : Z) : a <= b -> clamp 0 100 a <= clamp 0 100 b.
Proof. unfold clamp. lia. Qed.

Lemma normalize_clamp (score : Z) :
  (let score := if 100 <? score then 100 else score in
   if score <? 0 then 0 else score) = clamp 0 100 score.
Proof.
  cbv zeta. unfold clamp.
  destruct (Z.ltb_spec 100 score);
    [|destruct (Z.ltb_spec score 0)]; simpl; lia.
Qed.

Lemma wrap64_small (z : Z) : int64 z -> Go.wrap64 z = z.
Proof.
  unfold int64, Go.min_int64, Go.max_int64, Go.wrap64. intros Hz.
  rewrite Z.mod_small; lia.
Qed.

Lemma wrap64_range (z : Z) : int64 (Go.wrap64 z).
Proof.
  unfold int64, Go.min_int64, Go.max_int64, Go.wrap64.
  pose proof (Z.mod_pos_bound (z + 2 ^ 63) (2 ^ 64) ltac:(lia)). lia.
Qed.

Lemma int_of_float_range (f : float) : int64 (Go.int_of_float f).
Proof.
  unfold Go.int_of_float, int64.
  destruct (Prim2SF f) as [s|s| |s m e];
    try (unfold Go.min_int64, Go.max_int64; lia).
  cbv zeta.
  match goal with
  | |- context [(Go.min_int64 <=? ?v) && (?v <=? Go.max_int64)] =>
      destruct (Z.leb_spec Go.min_int64 v); destruct (Z.leb_spec v Go.max_int64)
  end; simpl; unfold Go.min_int64, Go.max_int64 in *; lia.
Qed.

Lemma factor_sum_six (s1 s2 s3 s4 s5 s6 : Z) :
  factor_sum
    (<["thread" := s6]> (<["engagement" := s5]> (<["category" := s4]>
      (<["temporal" := s3]> (<["keywords" := s2]> (<["sender" := s1]> ∅))))))
  = s1 + s2 + s3 + s4 + s5 + s6.
Proof.
  unfold factor_sum.
  assert (Hfold : forall g : Z -> Z -> Z,
            map_fold (fun (_ : string) v acc => g v acc) 0
              (<["thread" := s6]> (<["engagement" := s5]>
                (<["category" := s4]> (<["temporal" := s3]>
                  (<["keywords" := s2]> (<["sender" := s1]> ∅))))))
            = g s2 (g s1 (g s4 (g s5 (g s3 (g s6 0)))))).
  { intros g. vm_compute. reflexivity. }
  rewrite (Hfold Z.add). lia.
Qed.

Section Factors.
Context `{GoRuntime}.

Lemma senderScore_cases (pe : PriorityEngine) (email : Email) :
  senderScore pe email =
  if config.IsVIPSender (config pe) (From email) then 30
  else if config.IsImportantDomain (config pe)
            (config.ExtractDomain (From email)) then 20
  else match sender_analytics_of pe email with
       | Some analytics =>
           if storage.IsVIP analytics then 25
           else
             let bonus :=
               Z.quot (Go.mul64 (storage.EngagementScore analytics) 15) 100 in
             if 0 <? bonus then bonus else 0
       | None => 0
       end.
Proof.
  unfold senderScore, calculateSenderScore, sender_analytics_of,
    storage.GetSenderAnalytics.
  destruct (config.IsVIPSender _ _); [reflexivity|].
  destruct (config.IsImportantDomain _ _); [reflexivity|].
  destruct (storage.sender_analytics (db pe) !! From email) as [sa|];
    [|reflexivity].
  destruct (storage.IsVIP sa); [reflexivity|]. cbv zeta.
  destruct (0 <? _) eqn:E; [|reflexivity].
  apply Z.ltb_lt in E.
  destruct (_ =? 0) eqn:E0; [apply Z.eqb_eq in E0; simpl in *; lia|reflexivity].
Qed.

Lemma senderScore_range (pe : PriorityEngine) (email : Email) :
  0 <= senderScore pe email <= 2 ^ 62
  /\ ((forall analytics, sender_analytics_of pe email = Some analytics ->
         0 <= storage.EngagementScore analytics <= 100) ->
      senderScore pe email <= 30).
Proof.
  rewrite senderScore_cases.
  destruct (config.IsVIPSender _ _); [lia|].
  destruct (config.IsImportantDomain _ _); [lia|].
  destruct (sender_analytics_of pe email) as [sa|]; [|lia].
  destruct (storage.IsVIP sa); [lia|]. cbv zeta.
  pose proof (wrap64_range (storage.EngagementScore sa * 15)) as Hw.
  unfold int64, Go.min_int64, Go.max_int64 in Hw. unfold Go.mul64.
  split.
  - destruct (Z.ltb_spec 0 (Z.quot (Go.wrap64 (storage.EngagementScore sa * 15)) 100));
      [|lia].
    split; [lia|].
    apply Z.quot_le_upper_bound; lia.
  - intros Hes. specialize (Hes sa eq_refl).
    rewrite wrap64_small by (unfold int64, Go.min_int64, Go.max_int64; lia).
    rewrite Z.quot_div_nonneg by lia.
    assert (storage.EngagementScore sa * 15 / 100 <= 15)
      by (apply Z.div_le_upper_bound; lia).
    destruct (0 <? _); lia.
Qed.

Lemma keywordScore_range (pe : PriorityEngine) (email : Email) :
  0 <= keywordScore pe email <= 20.
Proof.
  unfold keywordScore, calculateKeywordScore.
  destruct (config.HasUrgentKeyword (config pe) (Subject email)) as [[|] k1];
    [simpl; lia|].
  destruct (config.HasUrgentKeyword (config pe) (BodySnippet email))
    as [[|] k2]; [simpl; lia|].
  destruct (first_action_keyword email _); simpl; lia.
Qed.

Lemma temporalScore_range (email : Email) (now : Z) :
  0 <= temporalScore email now <= 15.
Proof.
  unfold temporalScore, calculateTemporalScore. cbv zeta.
  repeat match goal with
         | |- context [if ?b then _ else _] => destruct b
         end; simpl; lia.
Qed.

Lemma threadScore_range (email : Email) : 0 <= threadScore email <= 10.
Proof.
  unfold threadScore, calculateThreadScore. cbv zeta.
  destruct (_ || _); simpl; lia.
Qed.

Lemma calculateCategoryScore_frame (pe : PriorityEngine) (email : Email)
  (now : Z) :
  config (fst (calculateCategoryScore pe email now)) = config pe
  /\ db (fst (calculateCategoryScore pe email now)) = db pe
  /\ 0 <= categoryScore pe email now <= 15.
Proof.
  unfold categoryScore, calculateCategoryScore.
  destruct (classifier pe) as [c|].
  - destruct (GetClassification c (ID email)) as [found [err|]].
    + destruct (Classify c email now) as [c' [result err']].
      destruct result as [cl|]; cbv zeta;
        repeat match goal with
               | |- context [if ?b then _ else _] => destruct b eqn:?
               end; simpl; repeat split; lia.
    + destruct found as [cl|]; cbv zeta;
        repeat match goal with
               | |- context [if ?b then _ else _] => destruct b eqn:?
               end; simpl; repeat split; lia.
  - simpl. repeat split; lia.
Qed.

Lemma engagementScore_cases (pe : PriorityEngine) (email : Email) :
  engagementScore pe email =
  match sender_analytics_of pe email with
  | Some analytics =>
      if 0 <? storage.TotalEmails analytics
      then
        let points :=
          Go.int_of_float
            (Go.float_of_int (storage.ReadCount analytics)
             / Go.float_of_int (storage.TotalEmails analytics) * 5
             + Go.float_of_int (storage.ReplyCount analytics)
               / Go.float_of_int (storage.TotalEmails analytics) * 5)%float in
        if 10 <? points then 10 else points
      else 0
  | None => 0
  end.
Proof.
  unfold engagementScore, calculateEngagementScore, sender_analytics_of,
    storage.GetSenderAnalytics.
  destruct (storage.sender_analytics (db pe) !! From email) as [sa|];
    [|reflexivity].
  destruct (0 <? storage.TotalEmails sa); [|reflexivity]. cbv zeta.
  set (points := if 10 <? _ then 10 else _).
  destruct (5 <? points); [|destruct (0 <? points)];
    destruct (points =? 0); reflexivity.
Qed.

Lemma engagementScore_range (pe : PriorityEngine) (email : Email) :
  Go.min_int64 <= engagementScore pe email <= 10
  /\ ((forall analytics, sender_analytics_of pe email = Some analytics ->
         0 <= storage.ReadCount analytics <= 2 ^ 59
         /\ 0 <= storage.ReplyCount analytics <= 2 ^ 59
         /\ storage.TotalEmails analytics <= Go.max_int64) ->
      0 <= engagementScore pe email).
Proof.
  rewrite engagementScore_cases.
  destruct (sender_analytics_of pe email) as [sa|];
    [|unfold Go.min_int64; lia].
  destruct (Z.ltb_spec 0 (storage.TotalEmails sa));
    [|unfold Go.min_int64; lia].
  cbv zeta.
  match goal with
  | |- context [10 <? Go.int_of_float ?f] =>
      pose proof (int_of_float_range f) as Hr; set (points := Go.int_of_float f) in *
  end.
  unfold int64 in Hr. split.
  - destruct (Z.ltb_spec 10 points); unfold Go.min_int64 in *; lia.
  - intros Hc. destruct (Hc sa eq_refl) as (Hread & Hreply & Hint).
    assert (0 <= points <= Go.max_int64).
    { apply float_facts.engagement_fits; unfold Go.max_int64 in Hint; lia. }
    destruct (Z.ltb_spec 10 points); lia.
Qed.

End Factors.

Section Pipeline.
Context `{GoRuntime}.

(** What [applyTimeDecay] makes of the raw sum. *)
Definition decayed_sum (pe : PriorityEngine) (email : Email) (now : Z) : Z :=
  Go.int_of_float
    (Go.float_of_int (raw_sum pe email now) * decay_factor pe email now)%float.

(** The factor map of an email. *)
Definition factors_of (pe : PriorityEngine) (email : Email) (now : Z)
  : gmap string Z :=
  <["thread" := threadScore email]>
    (<["engagement" := engagementScore pe email]>
      (<["category" := categoryScore pe email now]>
        (<["temporal" := temporalScore email now]>
          (<["keywords" := keywordScore pe email]>
            (<["sender" := senderScore pe email]> ∅))))).

Lemma factor_sum_factors_of (pe : PriorityEngine) (email : Email) (now : Z) :
  factor_sum (factors_of pe email now) = raw_sum pe email now.
Proof. unfold factors_of, raw_sum. apply factor_sum_six. Qed.

Lemma raw_sum_range (pe : PriorityEngine) (email : Email) (now : Z) :
  Go.min_int64 <= raw_sum pe email now <= 2 ^ 62 + 70.
Proof.
  unfold raw_sum.
  pose proof (proj1 (senderScore_range pe email)).
  pose proof (keywordScore_range pe email).
  pose proof (temporalScore_range email now).
  pose proof (proj2 (proj2 (calculateCategoryScore_frame pe email now))).
  pose proof (proj1 (engagementScore_range pe email)).
  pose proof (threadScore_range email).
  unfold Go.min_int64 in *. lia.
Qed.

(** The running total never leaves the range of an int. *)
Lemma add64_chain (pe : PriorityEngine) (email : Email) (now : Z) :
  Go.add64
    (Go.add64
      (Go.add64
        (Go.add64
          (Go.add64 (Go.add64 0 (senderScore pe email))
             (keywordScore pe email))
          (temporalScore email now))
        (categoryScore pe email now))
      (engagementScore pe email))
    (threadScore email)
  = raw_sum pe email now.
Proof.
  unfold raw_sum, Go.add64.
  pose proof (proj1 (senderScore_range pe email)).
  pose proof (keywordScore_range pe email).
  pose proof (temporalScore_range email now).
  pose proof (proj2 (proj2 (calculateCategoryScore_frame pe email now))).
  pose proof (proj1 (engagementScore_range pe email)).
  pose proof (threadScore_range email).
  assert (Hsmall : forall z, Go.min_int64 <= z <= 2 ^ 62 + 70 ->
                    Go.wrap64 z = z).
  { intros z Hz. apply wrap64_small.
    unfold int64, Go.min_int64, Go.max_int64 in *. lia. }
  unfold Go.min_int64 in *.
  rewrite (Hsmall (0 + _)) by lia.
  rewrite (Hsmall (0 + _ + _)) by lia.
  rewrite (Hsmall (0 + _ + _ + _)) by lia.
  rewrite (Hsmall (0 + _ + _ + _ + _)) by lia.
  rewrite (Hsmall (0 + _ + _ + _ + _ + _)) by lia.
  rewrite (Hsmall (0 + _ + _ + _ + _ + _ + _)) by lia.
  lia.
Qed.

Lemma engagementScore_frame (pe pe' : PriorityEngine) (email : Email) :
  db pe' = db pe -> engagementScore pe' email = engagementScore pe email.
Proof.
  intros Hdb. rewrite !engagementScore_cases. unfold sender_analytics_of.
  rewrite Hdb. reflexivity.
Qed.

(** What [CalculatePriority] returns: it never fails, the factor map holds
    the six contributions, and the score is the clamped raw sum, decayed
    before the clamp when the decay applies. *)
Lemma CalculatePriority_result (pe : PriorityEngine) (email : Email)
  (now : Z) :
  exists pe' ps,
    CalculatePriority pe email now = (pe', (Some ps, None))
    /\ config pe' = config pe /\ db pe' = db pe
    /\ Factors ps = factors_of pe email now
    /\ Score ps =
         clamp 0 100
           (if decay_applies pe email now then decayed_sum pe email now
            else raw_sum pe email now).
Proof.
  pose proof (add64_chain pe email now) as Hsum.
  pose proof (calculateCategoryScore_frame pe email now) as (Hc & Hd & _).
  unfold factors_of, decayed_sum, decay_applies, decay_factor, float_max0,
    maxAge, age.
  revert Hsum. generalize (raw_sum pe email now). intros raw Hsum.
  unfold CalculatePriority.
  unfold senderScore, keywordScore, temporalScore, categoryScore,
    threadScore in *.
  destruct (calculateSenderScore pe email) as [s1 r1].
  destruct (calculateKeywordScore pe email) as [s2 r2].
  destruct (calculateTemporalScore email now) as [s3 r3].
  destruct (calculateCategoryScore pe email now) as [pe' [[s4 r4] cat]].
  simpl in Hc, Hd, Hsum |- *.
  rewrite <- (engagementScore_frame pe pe' email Hd) in Hsum |- *.
  unfold engagementScore in *.
  destruct (calculateEngagementScore pe' email) as [s5 r5].
  destruct (calculateThreadScore email) as [s6 r6].
  simpl in Hsum |- *. rewrite Hsum.
  unfold applyTimeDecay, TimeDecay. rewrite Hc.
  destruct (config.Enabled _); simpl.
  - destruct (_ <? Go.time_Since now (ReceivedAt email)); simpl.
    + match goal with
      | |- context [negb (?d =? raw)] => destruct (Z.eqb_spec d raw) as [E|E]
      end; simpl.
      * do 2 eexists. split; [reflexivity|]. simpl.
        repeat split; try assumption.
        rewrite E. apply (normalize_clamp raw).
      * do 2 eexists. split; [reflexivity|]. simpl.
        repeat split; try assumption. apply normalize_clamp.
    + rewrite Z.eqb_refl. simpl.
      do 2 eexists. split; [reflexivity|]. simpl.
      repeat split; try assumption. apply (normalize_clamp raw).
  - do 2 eexists. split; [reflexivity|]. simpl.
    repeat split; try assumption. apply (normalize_clamp raw).
Qed.

(** After the clamp, rounding down and the conversion to an int agree on
    a number whose floor is at most the greatest int. *)
Lemma clamp_floor_int (f : float) (v : Z) :
  floor_of_float f = Some v -> v <= Go.max_int64 ->
  clamp 0 100 (Go.int_of_float f) = clamp 0 100 v.
Proof.
  unfold floor_of_float, Go.int_of_float.
  destruct (Prim2SF f) as [s|s| |[|] m e]; try discriminate.
  - intros [= <-] _. reflexivity.
  - cbv zeta. intros [= <-] _.
    assert (Hp : 0 < 2 ^ e \/ 2 ^ e = 0).
    { destruct (Z.le_gt_cases 0 e);
        [left; apply Z.pow_pos_nonneg; lia
        |right; apply Z.pow_neg_r; lia]. }
    assert (Hq : 0 < 2 ^ (- e) \/ 2 ^ (- e) = 0).
    { destruct (Z.le_gt_cases 0 (- e));
        [left; apply Z.pow_pos_nonneg; lia
        |right; apply Z.pow_neg_r; lia]. }
    assert (Hfloor :
      (if 0 <=? e then Z.neg m * 2 ^ e else Z.neg m / 2 ^ (- e)) <= 0).
    { destruct (0 <=? e).
      - destruct Hp as [Hp|Hp]; [nia|rewrite Hp; lia].
      - destruct Hq as [Hq|Hq]; [|rewrite Hq, Z.div_0_r; lia].
        apply Z.div_le_upper_bound; lia. }
    assert (Htrunc :
      - (if 0 <=? e then Z.pos m * 2 ^ e else Z.pos m / 2 ^ (- e)) <= 0).
    { destruct (0 <=? e).
      - destruct Hp as [Hp|Hp]; [nia|rewrite Hp; lia].
      - destruct Hq as [Hq|Hq]; [|rewrite Hq, Z.div_0_r; lia].
        pose proof (Z.div_pos (Z.pos m) (2 ^ (- e)) ltac:(lia) Hq). lia. }
    unfold clamp, Go.min_int64 in *.
    repeat match goal with
           | |- context [if ?b && ?c then _ else _] => destruct (b && c)
           end; lia.
  - cbv zeta. intros [= <-] Hfits.
    assert (Hnn :
      0 <= (if 0 <=? e then Z.pos m * 2 ^ e else Z.pos m / 2 ^ (- e))).
    { destruct (Z.leb_spec 0 e).
      - pose proof (Z.pow_nonneg 2 e ltac:(lia)). nia.
      - apply Z.div_pos; [lia|]. apply Z.pow_pos_nonneg; lia. }
    set (t := if 0 <=? e then Z.pos m * 2 ^ e else Z.pos m / 2 ^ (- e)) in *.
    replace ((Go.min_int64 <=? t) && (t <=? Go.max_int64)) with true;
      [reflexivity|].
    symmetry. apply andb_true_intro. split; apply Z.leb_le;
      unfold Go.min_int64 in *; lia.
Qed.

(** The floor of a product with zero, when it has one, is zero. *)
Lemma floor_zero_mul (df : float) (v : Z) :
  floor_of_float (Go.float_of_int 0 * df) = Some v -> v = 0.
Proof.
  unfold floor_of_float. rewrite mul_spec.
  change (Prim2SF (Go.float_of_int 0)) with (S754_zero false).
  destruct (Prim2SF df) as [s|s| |s m e]; simpl; congruence.
Qed.

Lemma age_nn (email : Email) (now : Z) :
  ReceivedAt email <= now -> 0 <= age email now < 2 ^ 63.
Proof.
  unfold age, Go.time_Since, Go.time_Sub, Go.min_int64, Go.max_int64. lia.
Qed.

Lemma decay_factor_nn (pe : PriorityEngine) (email : Email) (now : Z) :
  float_facts.sf_nn (Prim2SF (decay_factor pe email now)).
Proof. unfold decay_factor, float_max0. apply float_facts.clamp_nn. Qed.

(** A sum below zero stays below or at zero, whatever the decay factor. *)
Lemma decayed_negative (raw : Z) (df : float) :
  Go.min_int64 <= raw <= 0 -> float_facts.sf_nn (Prim2SF df) ->
  Go.int_of_float (Go.float_of_int raw * df) <= 0.
Proof.
  intros Hraw Hdf. apply float_facts.int_of_float_np.
  apply float_facts.mul_np; [|exact Hdf].
  destruct (Z.eq_dec raw 0) as [->|Hne]; [exact I|].
  apply float_facts.float_of_int_neg. unfold Go.min_int64 in Hraw. lia.
Qed.

(** With a decay rate that is not negative and an email that is not dated
    in the future, the decay does not raise the clamped score. *)
Lemma decayed_le (pe : PriorityEngine) (email : Email) (now : Z) :
  (0 <=? config.DecayRate (TimeDecay pe))%float = true ->
  ReceivedAt email <= now ->
  clamp 0 100 (decayed_sum pe email now)
  <= clamp 0 100 (raw_sum pe email now).
Proof.
  intros Hrate Hage. unfold decayed_sum.
  pose proof (raw_sum_range pe email now) as Hraw.
  destruct (Z.le_gt_cases 100 (raw_sum pe email now)) as [Hbig|Hsmall].
  { pose proof (clamp_range
      (Go.int_of_float
         (Go.float_of_int (raw_sum pe email now)
          * decay_factor pe email now))).
    unfold clamp in *. lia. }
  destruct (Z.le_gt_cases 0 (raw_sum pe email now)) as [Hpos|Hneg].
  - apply clamp_mono. apply float_facts.scaled_le; [lia|].
    unfold decay_factor, float_max0.
    apply float_facts.decay_factor_unit; [exact Hrate|].
    apply float_facts.Duration_Hours_nn. now apply age_nn.
  - assert (Hrange : Go.min_int64 <= raw_sum pe email now <= 0) by lia.
    pose proof (decayed_negative _ _ Hrange (decay_factor_nn pe email now)).
    unfold clamp. lia.
Qed.

(** With the sender contribution within its cap the raw sum is at most
    100. *)
Lemma raw_sum_le_100 (pe : PriorityEngine) (email : Email) (now : Z) :
  (forall analytics, sender_analytics_of pe email = Some analytics ->
     storage.analytics_check analytics = true) ->
  raw_sum pe email now <= 100.
Proof.
  intros Hcheck. unfold raw_sum.
  assert (senderScore pe email <= 30).
  { apply senderScore_range. intros sa Hsa.
    specialize (Hcheck sa Hsa). unfold storage.analytics_check in Hcheck.
    apply andb_prop in Hcheck. destruct Hcheck as [H1 H2].
    apply Z.leb_le in H1, H2. lia. }
  pose proof (keywordScore_range pe email).
  pose proof (temporalScore_range email now).
  pose proof (proj2 (proj2 (calculateCategoryScore_frame pe email now))).
  pose proof (proj1 (engagementScore_range pe email)).
  pose proof (threadScore_range email).
  lia.
Qed.

(** Decaying the raw sum and clamping once is decaying the clamped sum and
    clamping again, when the raw sum is at most 100 and the product of the
    clamped sum and the decay factor has a floor in the range of an int. *)
Lemma decayed_spec (pe : PriorityEngine) (email : Email) (now : Z) (v : Z) :
  raw_sum pe email now <= 100 ->
  floor_of_float (spec_product pe email now) = Some v ->
  v <= Go.max_int64 ->
  clamp 0 100 (decayed_sum pe email now) = clamp 0 100 v.
Proof.
  intros Hle Hfloor Hfits. unfold spec_product in Hfloor. unfold decayed_sum.
  pose proof (raw_sum_range pe email now) as Hraw.
  destruct (Z.le_gt_cases 0 (raw_sum pe email now)) as [Hpos|Hneg].
  - replace (clamp 0 100 (raw_sum pe email now)) with (raw_sum pe email now)
      in Hfloor by (unfold clamp; lia).
    now apply clamp_floor_int.
  - replace (clamp 0 100 (raw_sum pe email now)) with 0 in Hfloor
      by (unfold clamp; lia).
    apply floor_zero_mul in Hfloor. subst v.
    assert (Hrange : Go.min_int64 <= raw_sum pe email now <= 0) by lia.
    pose proof (decayed_negative _ _ Hrange (decay_factor_nn pe email now)).
    unfold clamp. lia.
Qed.

End Pipeline.

End PriorityEngine_facts.

(** ** Claims about the priority engine *)

Import PriorityEngine PriorityEngine_facts.

(** The last part of claim C1 as it is stated: whenever the decay is
    applied, the final score is at most the clamped sum of the recorded
    contributions. *)
Definition decay_never_raises `{GoRuntime} (pe : PriorityEngine)
  (email : Email) (now : Z) : Prop :=
  forall pe' ps,
    CalculatePriority pe email now = (pe', (Some ps, None)) ->
    decay_applies pe email now = true ->
    Score ps <= clamp 0 100 (factor_sum (Factors ps)).

(** Claim C2 as it is stated: every contribution is within its documented
    cap. *)
Definition factor_caps `{GoRuntime} (pe : PriorityEngine) (email : Email)
  (now : Z) : Prop :=
  0 <= senderScore pe email <= 30
  /\ 0 <= keywordScore pe email <= 20
  /\ 0 <= temporalScore email now <= 15
  /\ 0 <= categoryScore pe email now <= 15
  /\ 0 <= engagementScore pe email <= 10
  /\ 0 <= threadScore email <= 10.

(** Claim C4 as it is stated: whenever the decay is applied, the final
    score is the floor of the clamped sum times the decay factor, clamped
    to [0,100] again. *)
Definition decay_after_clamp `{GoRuntime} (pe : PriorityEngine)
  (email : Email) (now : Z) : Prop :=
  forall pe' ps,
    CalculatePriority pe email now = (pe', (Some ps, None)) ->
    decay_applies pe email now = true ->
    spec_decayed_score pe email now = Some (Score ps).

(** C1, as stated, fails: [Validate] accepts a decay rate below zero, and
    with the rate -0.5 a message of a VIP sender that is a day and a half
    old gets 56 points out of contributions that sum to 32. *)
Lemma C1_negative_rate_raises_score :
  config.Validate (Example.vip_cfg Example.growing) = None
  /\ ~ decay_never_raises
        (NewPriorityEngine (Example.vip_cfg Example.growing) Example.db0 None)
        Example.boss_email Example.a_day_and_a_half.
Proof.
  split; [vm_compute; reflexivity|].
  intros Hclaim.
  specialize (Hclaim _ _ eq_refl eq_refl).
  vm_compute in Hclaim. apply Hclaim. reflexivity.
Qed.

(** C1 (amended): CalculatePriority always returns a score, which lies in
    [0,100]; when the decay is disabled or not triggered the score is the
    sum of the six recorded contributions clamped to [0,100]; and when
    the decay is applied with a decay rate that is not negative, to a
    message that is not dated in the future, the score is at most that
    clamped sum. *)
Theorem C1_score_is_clamped_sum `{GoRuntime} (pe : PriorityEngine)
  (email : Email) (now : Z) :
  exists pe' ps,
    CalculatePriority pe email now = (pe', (Some ps, None))
    /\ 0 <= Score ps <= 100
    /\ (decay_applies pe email now = false ->
        Score ps = clamp 0 100 (factor_sum (Factors ps)))
    /\ (decay_applies pe email now = true ->
        (0 <=? config.DecayRate (TimeDecay pe))%float = true ->
        ReceivedAt email <= now ->
        Score ps <= clamp 0 100 (factor_sum (Factors ps))).
Proof.
  destruct (CalculatePriority_result pe email now)
    as (pe' & ps & Hcall & _ & _ & Hfactors & Hscore).
  exists pe', ps. rewrite Hfactors, factor_sum_factors_of, Hscore.
  repeat split; try apply clamp_range; try exact Hcall.
  - intros ->. reflexivity.
  - intros -> Hrate Hage. now apply decayed_le.
Qed.

(** On a message of a VIP sender that is a day and a half old, with half
    of the score lost per day, the decay lowers the score. *)
Lemma C1_score_is_clamped_sum_witness :
  exists ps,
    snd (CalculatePriority
           (NewPriorityEngine (Example.vip_cfg Example.halving) Example.db0
              None)
           Example.boss_email Example.a_day_and_a_half) = (Some ps, None)
    /\ 0 <= Score ps <= 100
    /\ Score ps <= clamp 0 100 (factor_sum (Factors ps)).
Proof.
  destruct (C1_score_is_clamped_sum
              (NewPriorityEngine (Example.vip_cfg Example.halving)
                 Example.db0 None)
              Example.boss_email Example.a_day_and_a_half)
    as (pe' & ps & Hcall & Hrange & _ & Hdecay).
  exists ps. rewrite Hcall. split; [reflexivity|]. split; [exact Hrange|].
  apply Hdecay; [reflexivity|reflexivity|].
  vm_compute. discriminate.
Defined.

(** C2, as stated, fails: for a sender whose row has engagement score 50
    and a read count of -1 out of one email, the engagement contribution
    is -5. *)
Lemma C2_negative_read_count :
  sender_analytics_of
    (NewPriorityEngine Example.cfg0 (Example.analytics_db Example.unread)
       None)
    Example.friend_email = Some Example.unread
  /\ storage.analytics_check Example.unread = true
  /\ ~ factor_caps
        (NewPriorityEngine Example.cfg0
           (Example.analytics_db Example.unread) None)
        Example.friend_email Example.a_day_and_a_half.
Proof.
  split; [vm_compute; reflexivity|]. split; [reflexivity|].
  intros (_ & _ & _ & _ & [Hengagement _] & _).
  vm_compute in Hengagement. apply Hengagement. reflexivity.
Qed.

(** Counts beyond the bound: with a read count and a reply count of 2^60
    out of one email the engagement points leave the range of an int, and
    the contribution is the least int. *)
Lemma overcounted_engagement :
  engagementScore
    (NewPriorityEngine Example.cfg0
       (Example.analytics_db Example.overcounted) None)
    Example.friend_email = Go.min_int64.
Proof. vm_compute. reflexivity. Qed.

(** C2 (amended): when the row of the sender, if there is one, has an
    engagement score in [0,100] and read and reply counts that are not
    negative and at most 2^59, which keeps the engagement points within
    the range of an int, every contribution is within its cap: sender in
    [0,30], keywords in [0,20], temporal in [0,15], category in [0,15],
    engagement in [0,10], thread in [0,10].  Counts above the total
    number of emails are capped at 10. *)
Theorem C2_factors_within_caps `{GoRuntime} (pe : PriorityEngine)
  (email : Email) (now : Z)
  (Hscore : forall analytics,
      sender_analytics_of pe email = Some analytics ->
      0 <= storage.EngagementScore analytics <= 100)
  (Hcounts : forall analytics,
      sender_analytics_of pe email = Some analytics ->
      0 <= storage.ReadCount analytics <= 2 ^ 59
      /\ 0 <= storage.ReplyCount analytics <= 2 ^ 59
      /\ storage.TotalEmails analytics <= Go.max_int64) :
  factor_caps pe email now.
Proof.
  unfold factor_caps.
  pose proof (senderScore_range pe email) as [Hs1 Hs2].
  pose proof (engagementScore_range pe email) as [He1 He2].
  specialize (Hs2 Hscore). specialize (He2 Hcounts).
  pose proof (keywordScore_range pe email).
  pose proof (temporalScore_range email now).
  pose proof (proj2 (proj2 (calculateCategoryScore_frame pe email now))).
  pose proof (threadScore_range email).
  repeat split; lia.
Qed.

(** A sender with one email and a read count of three: the engagement
    points, 15, are capped at 10. *)
Lemma C2_factors_within_caps_witness :
  factor_caps
    (NewPriorityEngine Example.cfg0 (Example.analytics_db Example.reread)
       None)
    Example.friend_email Example.a_day_and_a_half
  /\ engagementScore
       (NewPriorityEngine Example.cfg0 (Example.analytics_db Example.reread)
          None)
       Example.friend_email = 10.
Proof.
  split; [|vm_compute; reflexivity].
  apply C2_factors_within_caps.
  - intros analytics Hrow. vm_compute in Hrow.
    injection Hrow as <-. simpl. lia.
  - intros analytics Hrow. vm_compute in Hrow.
    injection Hrow as <-. simpl. unfold Go.max_int64. lia.
Defined.

(** C4, as stated, fails: [Validate] accepts any decay rate, and with the
    rate -1e18 the product of the sum, 32, and the decay factor is above
    the greatest int for a message of a VIP sender that is a day and a
    half old.  The conversion to int gives the least int, which the clamp
    turns into the score 0, where the floor of the product clamped to
    [0,100] is 100. *)
Lemma C4_large_negative_rate :
  config.Validate (Example.vip_cfg Example.exploding) = None
  /\ (exists ps,
        snd (CalculatePriority
               (NewPriorityEngine (Example.vip_cfg Example.exploding)
                  Example.db0 None)
               Example.boss_email Example.a_day_and_a_half)
        = (Some ps, None)
        /\ Score ps = 0)
  /\ spec_decayed_score
       (NewPriorityEngine (Example.vip_cfg Example.exploding) Example.db0
          None)
       Example.boss_email Example.a_day_and_a_half = Some 100
  /\ ~ decay_after_clamp
        (NewPriorityEngine (Example.vip_cfg Example.exploding) Example.db0
           None)
        Example.boss_email Example.a_day_and_a_half.
Proof.
  split; [vm_compute; reflexivity|].
  split; [eexists; split; vm_compute; reflexivity|].
  split; [vm_compute; reflexivity|].
  intros Hclaim.
  specialize (Hclaim _ _ eq_refl eq_refl).
  vm_compute in Hclaim. discriminate Hclaim.
Qed.

(** The sum of the contributions is above 100 only for a row of the sender
    that the CHECK of its table excludes; with an engagement score of 1000
    the sum is 155, and a quarter of it is 38 where a quarter of the
    clamped sum is 25. *)
Lemma sum_above_100_decays_differently :
  raw_sum
    (NewPriorityEngine (Example.vip_cfg Example.halving)
       (Example.analytics_db Example.unchecked) None)
    Example.friend_email Example.a_day_and_a_half = 155
  /\ decayed_sum
       (NewPriorityEngine (Example.vip_cfg Example.halving)
          (Example.analytics_db Example.unchecked) None)
       Example.friend_email Example.a_day_and_a_half = 38
  /\ spec_decayed_score
       (NewPriorityEngine (Example.vip_cfg Example.halving)
          (Example.analytics_db Example.unchecked) None)
       Example.friend_email Example.a_day_and_a_half = Some 25.
Proof. repeat split; vm_compute; reflexivity. Qed.

(** C4 (amended): when the time decay is enabled and the message is older
    than the threshold, the six contributions sum to at most 100, and the
    product clamp(sum, 0, 100) * max(0, 1 - decayRate * (ageInHours / 24)),
    taken in float64, is a number whose floor is at most the greatest int,
    the score that CalculatePriority returns, which is the decayed raw sum
    clamped once, equals the floor of that product clamped to [0,100]
    again. *)
Theorem C4_decay_pipelines_agree `{GoRuntime} (pe : PriorityEngine)
  (email : Email) (now : Z) (v : Z)
  (Hdecay : decay_applies pe email now = true)
  (Hsum : raw_sum pe email now <= 100)
  (Hfloor : floor_of_float (spec_product pe email now) = Some v)
  (Hfits : v <= Go.max_int64) :
  exists pe' ps,
    CalculatePriority pe email now = (pe', (Some ps, None))
    /\ Score ps = clamp 0 100 (decayed_sum pe email now)
    /\ spec_decayed_score pe email now = Some (Score ps).
Proof.
  destruct (CalculatePriority_result pe email now)
    as (pe' & ps & Hcall & _ & _ & _ & Hscore).
  exists pe', ps. rewrite Hdecay in Hscore.
  split; [exact Hcall|]. split; [exact Hscore|].
  unfold spec_decayed_score. rewrite Hfloor, Hscore. cbn [option_map].
  f_equal. symmetry. now apply decayed_spec.
Qed.

(** A message that is a day and a half old, of a sender with engagement
    score 60, with half of the score lost per day. *)
Lemma C4_decay_pipelines_agree_witness :
  exists ps,
    snd (CalculatePriority
           (NewPriorityEngine (Example.vip_cfg Example.halving)
              (Example.analytics_db Example.reader) None)
           Example.friend_email Example.a_day_and_a_half) = (Some ps, None)
    /\ Score ps = 3
    /\ spec_decayed_score
         (NewPriorityEngine (Example.vip_cfg Example.halving)
            (Example.analytics_db Example.reader) None)
         Example.friend_email Example.a_day_and_a_half = Some 3.
Proof.
  destruct (C4_decay_pipelines_agree
              (NewPriorityEngine (Example.vip_cfg Example.halving)
                 (Example.analytics_db Example.reader) None)
              Example.friend_email Example.a_day_and_a_half 3)
    as (pe' & ps & Hcall & Hcode & Hspec).
  - reflexivity.
  - vm_compute. discriminate.
  - vm_compute. reflexivity.
  - unfold Go.max_int64. lia.
  - exists ps. rewrite Hcall. split; [reflexivity|].
    split; [rewrite Hcode|]; vm_compute; reflexivity.
Defined.

(** * Further functions and properties *)

(** ** Byte strings and the helpers of package config *)

Module config_props.

Import config_facts.

Lemma append_cons (c : ascii) (s t : string) :
  String c s ++ t = String c (s ++ t).
Proof. reflexivity. Qed.

Lemma append_nil_r (s : string) : s ++ "" = s.
Proof.
  induction s as [|c s IH]; [reflexivity|].
  now rewrite append_cons, IH.
Qed.

Lemma append_assoc (s t u : string) : (s ++ t) ++ u = s ++ t ++ u.
Proof.
  induction s as [|c s IH]; [reflexivity|].
  now rewrite !append_cons, IH.
Qed.

Lemma substring_length (s : string) (i n : nat) :
  (i + n <= String.length s)%nat ->
  String.length (String.substring i n s) = n.
Proof.
  revert i n. induction s as [|c s IH]; intros [|i] [|n] Hle; simpl in *;
    try reflexivity; try lia.
  - rewrite (IH 0%nat n) by lia. reflexivity.
  - apply (IH i 0%nat). lia.
  - apply (IH i (S n)). lia.
Qed.

(** A string is its first [i] bytes, the next [n], and the rest. *)
Lemma substring_split (s : string) (i n : nat) :
  (i + n <= String.length s)%nat ->
  s = String.substring 0 i s ++ String.substring i n s
      ++ String.substring (i + n) (String.length s - (i + n)) s.
Proof.
  revert i n. induction s as [|c s IH]; intros i n Hle; simpl in *.
  - destruct i, n; simpl; try lia. reflexivity.
  - destruct i as [|i]; simpl.
    + destruct n as [|n]; simpl.
      * change ("" ++ "" ++ String c (String.substring 0 (String.length s) s))
          with (String c (String.substring 0 (String.length s) s)).
        f_equal. symmetry. apply substring_all.
      * change ("" ++ ?x) with x. rewrite append_cons. f_equal.
        specialize (IH 0%nat n ltac:(lia)). simpl in IH.
        replace (String.substring 0 0 s) with "" in IH
          by (destruct s; reflexivity).
        exact IH.
    + rewrite append_cons. f_equal. apply IH. lia.
Qed.

Lemma substring_middle (a sub b : string) :
  String.substring (String.length a) (String.length sub) (a ++ sub ++ b)
  = sub.
Proof.
  replace (String.length a) with (String.length a + 0)%nat by lia.
  rewrite substring_skip. apply substring_front.
Qed.

Lemma slice_middle (a sub b : string) :
  Go.slice (a ++ sub ++ b) (String.length a)
    (String.length a + String.length sub) = sub.
Proof.
  unfold Go.slice.
  replace (String.length a + String.length sub - String.length a)%nat
    with (String.length sub) by lia.
  apply substring_middle.
Qed.

Lemma slice_from_app (a b : string) :
  Go.slice_from (a ++ b) (String.length a) = b.
Proof.
  unfold Go.slice_from, Go.slice. rewrite length_app.
  replace (String.length a + String.length b - String.length a)%nat
    with (String.length b) by lia.
  apply substring_back.
Qed.

(** [s[i:i+len(sub)] == sub] within the bounds of [s] is an occurrence of
    [sub] after [i] bytes. *)
Lemma slice_occurrence (s sub : string) (i : nat) :
  (i + String.length sub <= String.length s)%nat ->
  Go.slice s i (i + String.length sub) = sub ->
  exists a b, s = a ++ sub ++ b /\ String.length a = i.
Proof.
  intros Hle Hslice. unfold Go.slice in Hslice.
  replace (i + String.length sub - i)%nat with (String.length sub)
    in Hslice by lia.
  exists (String.substring 0 i s),
         (String.substring (i + String.length sub)
            (String.length s - (i + String.length sub)) s).
  split.
  - pose proof (substring_split s i (String.length sub) Hle) as Hsplit.
    rewrite Hslice in Hsplit. exact Hsplit.
  - apply substring_length. lia.
Qed.

Lemma get_substring_one (s : string) (i : nat) (c : ascii) :
  String.get i s = Some c ->
  String.substring i 1 s = String c EmptyString.
Proof.
  revert i. induction s as [|d s IH]; intros [|i] Hget; simpl in *;
    try discriminate.
  - injection Hget as ->. destruct s; reflexivity.
  - apply IH. exact Hget.
Qed.

Lemma get_lt (s : string) (i : nat) (c : ascii) :
  String.get i s = Some c -> (i < String.length s)%nat.
Proof.
  revert i. induction s as [|d s IH]; intros [|i] Hget; simpl in *;
    try discriminate; [lia|].
  apply IH in Hget. lia.
Qed.

Lemma get_app_l (s t : string) (i : nat) :
  (i < String.length s)%nat -> String.get i (s ++ t) = String.get i s.
Proof.
  revert i. induction s as [|d s IH]; intros [|i] Hlt; simpl in *;
    try lia; [reflexivity|].
  apply IH. lia.
Qed.

(** The search loop of [indexOf] answers with the first position of its
    range that holds the substring, or with -1 when there is none. *)
Lemma indexOf_loop_spec (n : nat) (s substr : string) (i : nat) :
  (config.indexOf_loop n s substr i = -1
   /\ forall j, (i <= j < i + n)%nat ->
        Go.slice s j (j + String.length substr) <> substr)
  \/ exists k : nat,
       config.indexOf_loop n s substr i = Z.of_nat k
       /\ (i <= k < i + n)%nat
       /\ Go.slice s k (k + String.length substr) = substr
       /\ forall j, (i <= j < k)%nat ->
            Go.slice s j (j + String.length substr) <> substr.
Proof.
  revert i. induction n as [|n IH]; intros i; simpl.
  - left. split; [reflexivity|]. intros j Hj. lia.
  - destruct (String.eqb_spec
                (Go.slice s i (i + String.length substr)) substr)
      as [Heq|Hne].
    + right. exists i. split; [reflexivity|]. split; [lia|].
      split; [exact Heq|]. intros j Hj. lia.
    + destruct (IH (S i)) as [[Hnone Hall]|(k & Hk & Hrange & Hat & Hbefore)].
      * left. split; [exact Hnone|]. intros j Hj.
        destruct (Nat.eq_dec j i) as [->|Hji]; [exact Hne|].
        apply Hall. lia.
      * right. exists k. split; [exact Hk|]. split; [lia|].
        split; [exact Hat|]. intros j Hj.
        destruct (Nat.eq_dec j i) as [->|Hji]; [exact Hne|].
        apply Hbefore. lia.
Qed.

Lemma indexOf_spec (s substr : string) :
  (config.indexOf s substr = -1
   /\ forall j, (j + String.length substr <= String.length s)%nat ->
        Go.slice s j (j + String.length substr) <> substr)
  \/ exists k : nat,
       config.indexOf s substr = Z.of_nat k
       /\ (k + String.length substr <= String.length s)%nat
       /\ Go.slice s k (k + String.length substr) = substr
       /\ forall j, (j < k)%nat ->
            Go.slice s j (j + String.length substr) <> substr.
Proof.
  unfold config.indexOf.
  destruct (indexOf_loop_spec
              (S (String.length s) - String.length substr) s substr 0)
    as [[Hnone Hall]|(k & Hk & Hrange & Hat & Hbefore)].
  - left. split; [exact Hnone|]. intros j Hj. apply Hall. lia.
  - right. exists k. split; [exact Hk|]. split; [lia|].
    split; [exact Hat|]. intros j Hj. apply Hbefore. lia.
Qed.

(** An occurrence of [substr] in [s] makes [indexOf] answer with a
    position at most that of the occurrence. *)
Lemma indexOf_occurrence (a substr b : string) :
  exists k : nat,
    config.indexOf (a ++ substr ++ b) substr = Z.of_nat k
    /\ (k <= String.length a)%nat
    /\ (k + String.length substr <= String.length (a ++ substr ++ b))%nat
    /\ Go.slice (a ++ substr ++ b) k (k + String.length substr) = substr.
Proof.
  destruct (indexOf_spec (a ++ substr ++ b) substr)
    as [[_ Hall]|(k & Hk & Hle & Hat & Hbefore)].
  - exfalso. apply (Hall (String.length a)); [|apply slice_middle].
    rewrite !length_app. lia.
  - exists k. split; [exact Hk|]. split; [|split; [exact Hle|exact Hat]].
    destruct (Nat.le_gt_cases k (String.length a)) as [Hok|Hgt];
      [exact Hok|].
    exfalso. apply (Hbefore (String.length a) Hgt). apply slice_middle.
Qed.

Lemma contains_iff (s substr : string) :
  config.contains s substr = true <-> exists a b, s = a ++ substr ++ b.
Proof.
  unfold config.contains. split.
  - intros Hc. apply andb_prop in Hc. destruct Hc as [_ Hidx].
    apply Z.leb_le in Hidx.
    destruct (indexOf_spec s substr)
      as [[Hnone _]|(k & Hk & Hle & Hat & _)]; [lia|].
    destruct (slice_occurrence s substr k Hle Hat) as (a & b & Hs & _).
    exists a, b. exact Hs.
  - intros (a & b & ->).
    destruct (indexOf_occurrence a substr b) as (k & Hk & _).
    rewrite Hk. apply andb_true_intro. split.
    + apply Z.leb_le. unfold Go.len. rewrite !length_app. lia.
    + apply Z.leb_le. lia.
Qed.

Lemma substring_zero (s : string) (i : nat) : String.substring i 0 s = "".
Proof.
  revert i. induction s as [|c s IH]; intros [|i]; simpl; try reflexivity.
  apply IH.
Qed.

(** A string of at most [n] bytes from position 0 is a prefix. *)
Lemma prefix_split (s : string) (n : nat) :
  (n <= String.length s)%nat ->
  s = String.substring 0 n s
      ++ String.substring n (String.length s - n) s.
Proof.
  intros Hle. pose proof (substring_split s 0 n ltac:(lia)) as Hsplit.
  rewrite substring_zero in Hsplit. exact Hsplit.
Qed.

Lemma last_byte_split (s : string) (c : ascii) :
  String.get (String.length s - 1) s = Some c ->
  s = String.substring 0 (String.length s - 1) s ++ String c EmptyString.
Proof.
  intros Hget. pose proof (get_lt _ _ _ Hget) as Hlt.
  pose proof (substring_split s (String.length s - 1) 1 ltac:(lia)) as Hs.
  rewrite (get_substring_one _ _ _ Hget) in Hs.
  replace (String.length s - (String.length s - 1 + 1))%nat with 0%nat
    in Hs by lia.
  rewrite substring_zero in Hs. exact Hs.
Qed.

Lemma indexOf_star_none (p : string) :
  config.indexOf p "*" = -1 -> star_free p.
Proof.
  intros Hidx i Hget.
  destruct (indexOf_spec p "*") as [[_ Hall]|(k & Hk & _)]; [|lia].
  apply (Hall i).
  - apply get_lt in Hget. simpl. lia.
  - unfold Go.slice. simpl String.length.
    replace (i + 1 - i)%nat with 1%nat by lia.
    now apply get_substring_one.
Qed.

(** The patterns that [matchPattern] answers by one of its first four
    cases: a leading star, a trailing star, or no star. *)
Definition simple_pattern (pattern : string) : Prop :=
  String.get 0 pattern = Some "*"%char
  \/ String.get (String.length pattern - 1) pattern = Some "*"%char
  \/ star_free pattern.

Lemma matchPattern_simple (s pattern : string) :
  simple_pattern pattern ->
  config.matchPattern s pattern = true -> glob_match s pattern.
Proof.
  intros Hsimple. unfold config.matchPattern.
  destruct (String.eqb_spec pattern "*") as [->|Hne]; [constructor|].
  destruct (Z.eqb_spec (config.indexOf pattern "*") (-1)) as [Hnone|Hsome].
  { intros Heq. apply String.eqb_eq in Heq.
    apply glob_exact; [now apply indexOf_star_none|exact Heq]. }
  destruct pattern as [|c rest]; [exfalso; apply Hsome; reflexivity|].
  replace (0 <? Go.len (String c rest)) with true
    by (symmetry; apply Z.ltb_lt; unfold Go.len; simpl; lia).
  cbn [andb]. unfold Go.byte_at at 1. cbn [String.get].
  case_bool_decide as Hlead.
  - injection Hlead as ->. intros Hm. apply andb_prop in Hm.
    destruct Hm as [Hlen Heq]. apply Z.leb_le in Hlen.
    apply String.eqb_eq in Heq.
    assert (Hsuffix : Go.slice_from (String "*" rest) 1 = rest).
    { unfold Go.slice_from, Go.slice. simpl.
      rewrite Nat.sub_0_r. apply substring_all. }
    rewrite Hsuffix in Hlen, Heq. unfold Go.len in Hlen.
    apply (glob_suffix s
             (String.substring 0 (String.length s - String.length rest) s)
             rest).
    etransitivity; [apply (prefix_split s
                             (String.length s - String.length rest)); lia|].
    f_equal. exact Heq.
  - case_bool_decide as Htrail.
    + intros Hm. apply andb_prop in Hm. destruct Hm as [Hlen Heq].
      apply Z.leb_le in Hlen. apply String.eqb_eq in Heq.
      unfold Go.byte_at in Htrail.
      pose proof (last_byte_split _ _ Htrail) as Hpattern.
      set (prefix := Go.slice (String c rest) 0
                       (String.length (String c rest) - 1)) in *.
      assert (Hprefix : String c rest = prefix ++ "*").
      { unfold prefix, Go.slice. rewrite Nat.sub_0_r. exact Hpattern. }
      rewrite Hprefix.
      apply (glob_prefix s prefix
               (String.substring (String.length prefix)
                  (String.length s - String.length prefix) s)).
      * unfold no_leading_star, prefix, Go.slice. simpl.
        destruct (String.length rest - 0)%nat; simpl;
          [discriminate|congruence].
      * unfold Go.len in Hlen.
        etransitivity; [apply (prefix_split s (String.length prefix)); lia|].
        f_equal. unfold Go.slice in Heq. rewrite Nat.sub_0_r in Heq.
        exact Heq.
    + exfalso. destruct Hsimple as [Hs|[Hs|Hs]].
      * simpl in Hs. congruence.
      * apply Htrail. exact Hs.
      * apply Hsome. now apply indexOf_star_free.
Qed.

(** The pieces occur in [s] in the given order, one after the end of the
    other. *)
Fixpoint in_order (s : string) (parts : list string) : Prop :=
  match parts with
  | [] => True
  | part :: rest => exists a b, s = a ++ part ++ b /\ in_order b rest
  end.

Lemma in_order_prepend (c s : string) (parts : list string) :
  in_order s parts -> in_order (c ++ s) parts.
Proof.
  destruct parts as [|part rest]; [trivial|].
  intros (a & b & -> & Hrest). exists (c ++ a), b.
  split; [|exact Hrest]. now rewrite append_assoc.
Qed.

Lemma slice_from_0 (s : string) : Go.slice_from s 0 = s.
Proof.
  unfold Go.slice_from, Go.slice. rewrite Nat.sub_0_r. apply substring_all.
Qed.

Lemma slice_from_split (s : string) (i : nat) :
  (i <= String.length s)%nat ->
  s = String.substring 0 i s ++ Go.slice_from s i.
Proof. intros Hle. unfold Go.slice_from, Go.slice. now apply prefix_split. Qed.

(** The rest of [s] after [i + j] bytes is the rest after [j] bytes of its
    rest after [i] bytes. *)
Lemma slice_from_slice_from (s : string) (i j : nat) :
  (i <= String.length s)%nat ->
  Go.slice_from (Go.slice_from s i) j = Go.slice_from s (i + j).
Proof.
  revert i. induction s as [|c s IH]; intros i Hle.
  - simpl in Hle. replace i with 0%nat by lia. simpl.
    destruct j; reflexivity.
  - destruct i as [|i].
    + rewrite slice_from_0. reflexivity.
    + simpl in Hle. specialize (IH i ltac:(lia)).
      unfold Go.slice_from, Go.slice in *. simpl in *. exact IH.
Qed.

Lemma slice_from_length (s : string) (i : nat) :
  (i <= String.length s)%nat ->
  String.length (Go.slice_from s i) = (String.length s - i)%nat.
Proof.
  intros Hle. unfold Go.slice_from, Go.slice. apply substring_length. lia.
Qed.

Lemma parts_in_order_iff (s : string) (pos : nat) (parts : list string) :
  (pos <= String.length s)%nat ->
  config.parts_in_order s pos parts = true
  <-> in_order (Go.slice_from s pos) parts.
Proof.
  revert pos. induction parts as [|part rest IH]; intros pos Hpos; simpl.
  - split; trivial.
  - pose proof (slice_from_length s pos Hpos) as Hlen.
    destruct (indexOf_spec (Go.slice_from s pos) part)
      as [[Hnone Hall]|(k & Hk & Hle & Hat & Hbefore)].
    + rewrite Hnone. simpl. split; [discriminate|].
      intros (a & b & Hs & _). exfalso.
      apply (Hall (String.length a)).
      * rewrite Hs, !length_app. lia.
      * rewrite Hs. apply slice_middle.
    + rewrite Hk.
      replace (Z.of_nat k =? -1) with false by (symmetry; apply Z.eqb_neq; lia).
      rewrite Nat2Z.id.
      destruct (slice_occurrence _ _ _ Hle Hat) as (a & b & Hs & Ha).
      assert (Hrest : Go.slice_from s (pos + k + String.length part) = b).
      { rewrite <- Nat.add_assoc, <- slice_from_slice_from by exact Hpos.
        rewrite Hs, <- Ha, <- length_app, <- append_assoc.
        apply slice_from_app. }
      rewrite IH, Hrest by lia.
      split.
      * intros Hin. exists a, b. split; [exact Hs|exact Hin].
      * intros (a' & b' & Hs' & Hin).
        assert (Hk' : (k <= String.length a')%nat).
        { destruct (Nat.le_gt_cases k (String.length a')) as [Hok|Hgt];
            [exact Hok|].
          exfalso. apply (Hbefore (String.length a') Hgt).
          rewrite Hs'. apply slice_middle. }
        assert (Hb : exists c, b = c ++ b').
        { exists (String.substring 0
                    (String.length a' - String.length a) b).
          assert (Hb' : Go.slice_from b
                          (String.length a' - String.length a) = b').
          { rewrite <- Hrest at 1.
            rewrite slice_from_slice_from by lia.
            replace (pos + k + String.length part
                     + (String.length a' - String.length a))%nat
              with (pos + (String.length a' + String.length part))%nat
              by lia.
            rewrite <- slice_from_slice_from by exact Hpos.
            rewrite Hs', <- length_app, <- append_assoc.
            apply slice_from_app. }
          rewrite <- Hb'. apply slice_from_split.
          assert (String.length (a ++ part ++ b)
                  = String.length (a' ++ part ++ b')) by congruence.
          rewrite !length_app in *. lia. }
        destruct Hb as (c & ->). now apply in_order_prepend.
Qed.

Lemma star_free_cons (c : ascii) (q : string) :
  star_free (String c q) -> c <> "*"%char /\ star_free q.
Proof.
  intros Hfree. split.
  - intros ->. apply (Hfree 0%nat). reflexivity.
  - intros i. apply (Hfree (S i)).
Qed.

(** What the first loop of the last case of [matchPattern] collects for a
    piece of the pattern: every byte [b] of the piece as [string(b)]. *)
Fixpoint converted (piece : string) : string :=
  match piece with
  | EmptyString => EmptyString
  | String b rest => Go.string_of_byte b ++ converted rest
  end.

(** Every byte of [s] is below 0x80. *)
Fixpoint ascii_only (s : string) : Prop :=
  match s with
  | EmptyString => True
  | String b rest => (N_of_ascii b < 128)%N /\ ascii_only rest
  end.

Lemma converted_ascii_only (piece : string) :
  ascii_only piece -> converted piece = piece.
Proof.
  induction piece as [|b piece IH]; [reflexivity|].
  intros [Hb Hrest]. cbn [converted]. rewrite (IH Hrest).
  unfold Go.string_of_byte.
  replace (N_of_ascii b <? 128)%N with true
    by (symmetry; now apply N.ltb_lt).
  reflexivity.
Qed.

Lemma converted_not_empty (piece : string) :
  piece <> "" -> converted piece <> "".
Proof.
  destruct piece as [|b piece]; [congruence|]. intros _.
  cbn [converted]. unfold Go.string_of_byte.
  destruct (N_of_ascii b <? 128)%N; rewrite append_cons; discriminate.
Qed.

Lemma maps_converted_ascii_only (pieces : list string) :
  Forall ascii_only pieces -> List.map converted pieces = pieces.
Proof.
  induction 1 as [|piece pieces Hpiece _ IH]; [reflexivity|].
  cbn [List.map]. now rewrite converted_ascii_only, IH.
Qed.

(** The first loop of the last case of [matchPattern] runs through a
    star-free piece by appending its converted bytes to the current
    piece. *)
Lemma pattern_parts_star_free (q rest current : string)
  (parts : list string) :
  star_free q ->
  config.pattern_parts (q ++ rest) current parts
  = config.pattern_parts rest (current ++ converted q) parts.
Proof.
  revert current. induction q as [|c q IH]; intros current Hfree.
  - cbn [converted]. now rewrite append_nil_r.
  - apply star_free_cons in Hfree. destruct Hfree as [Hc Hq].
    rewrite append_cons. cbn [config.pattern_parts converted].
    replace (Ascii.eqb c "*") with false
      by (symmetry; now apply Ascii.eqb_neq).
    rewrite IH by exact Hq. now rewrite append_assoc.
Qed.

Lemma pattern_parts_join (pieces parts : list string) :
  pieces <> [] ->
  Forall (fun piece => star_free piece /\ piece <> "") pieces ->
  config.pattern_parts (Go.strings_Join pieces "*") "" parts
  = (parts ++ List.map converted pieces)%list.
Proof.
  revert parts. induction pieces as [|piece rest IH]; intros parts Hne Hall;
    [congruence|].
  inversion Hall as [|? ? [Hfree Hpiece] Hrest]; subst.
  apply converted_not_empty in Hpiece.
  destruct rest as [|piece' rest].
  - cbn [Go.strings_Join List.map]. rewrite <- (append_nil_r piece) at 1.
    rewrite pattern_parts_star_free by exact Hfree.
    cbn [config.pattern_parts].
    change ("" ++ converted piece) with (converted piece).
    destruct (String.eqb_spec (converted piece) "") as [Heq|_];
      [congruence|reflexivity].
  - change (Go.strings_Join (piece :: piece' :: rest) "*")
      with (piece ++ String "*" (Go.strings_Join (piece' :: rest) "*")).
    rewrite pattern_parts_star_free by exact Hfree.
    cbn [config.pattern_parts]. change (Ascii.eqb "*" "*") with true.
    cbn match. change ("" ++ converted piece) with (converted piece).
    destruct (String.eqb_spec (converted piece) "") as [Heq|_];
      [congruence|].
    rewrite IH by (congruence || exact Hrest).
    cbn [List.map]. now rewrite <- app_assoc.
Qed.

(** A joined pattern ends with its last piece. *)
Lemma join_last (pieces : list string) (piece : string) :
  exists front,
    Go.strings_Join (pieces ++ [piece]) "*" = front ++ piece.
Proof.
  induction pieces as [|p rest IH].
  - exists "". reflexivity.
  - destruct IH as (front & Hfront).
    exists (p ++ "*" ++ front).
    destruct rest as [|p' rest]; simpl in *.
    + rewrite !append_assoc. do 2 f_equal. exact Hfront.
    + rewrite !append_assoc. do 2 f_equal. exact Hfront.
Qed.

Lemma matchPattern_pieces (s : string) (pieces : list string) :
  (2 <= length pieces)%nat ->
  Forall (fun piece => star_free piece /\ piece <> "") pieces ->
  config.matchPattern s (Go.strings_Join pieces "*") = true
  <-> in_order s (List.map converted pieces).
Proof.
  intros Hlen Hall.
  assert (Hne : pieces <> []) by (destruct pieces; simpl in *; [lia|congruence]).
  pose proof (pattern_parts_join pieces [] Hne Hall) as Hparts.
  destruct (exists_last Hne) as (init & final & Hsplit).
  assert (Hfinal : star_free final /\ final <> "").
  { rewrite Forall_forall in Hall. apply Hall. rewrite Hsplit.
    apply list_elem_of_In, in_or_app. right. left. reflexivity. }
  destruct Hfinal as [Hfinal_free Hfinal].
  destruct (join_last init final) as (front & Hfront).
  rewrite <- Hsplit in Hfront. clear Hsplit init.
  destruct pieces as [|first [|second rest]]; simpl in Hlen; try lia.
  set (pattern := Go.strings_Join (first :: second :: rest) "*") in *.
  assert (Hpattern : pattern
                     = first ++ "*" ++ Go.strings_Join (second :: rest) "*")
    by reflexivity.
  inversion Hall as [|? ? [Hfree Hfirst] Htail]; subst.
  destruct first as [|c first]; [congruence|].
  apply star_free_cons in Hfree. destruct Hfree as [Hc _].
  unfold config.matchPattern.
  destruct (String.eqb_spec pattern "*") as [Heq|_].
  { exfalso. rewrite Hpattern in Heq. apply (f_equal String.length) in Heq.
    rewrite !length_app in Heq. simpl in Heq. lia. }
  destruct (Z.eqb_spec (config.indexOf pattern "*") (-1)) as [Hnone|_].
  { exfalso. rewrite Hpattern in Hnone.
    destruct (indexOf_occurrence (String c first) "*"
                (Go.strings_Join (second :: rest) "*")) as (k & Hk & _).
    lia. }
  replace (0 <? Go.len pattern) with true
    by (symmetry; apply Z.ltb_lt; rewrite Hpattern; unfold Go.len;
        rewrite !length_app; simpl; lia).
  cbn [andb].
  assert (Hlead : Go.byte_at pattern 0 <> Some "*"%char).
  { rewrite Hpattern. unfold Go.byte_at. simpl. congruence. }
  rewrite (bool_decide_eq_false_2 _ Hlead).
  assert (Htrail : Go.byte_at pattern (String.length pattern - 1)
                   <> Some "*"%char).
  { rewrite Hfront, length_app. unfold Go.byte_at.
    assert (0 < String.length final)%nat
      by (destruct final; simpl; [congruence|lia]).
    replace (String.length front + String.length final - 1)%nat
      with (String.length front + (String.length final - 1))%nat by lia.
    rewrite get_app_skip. apply Hfinal_free. }
  rewrite (bool_decide_eq_false_2 _ Htrail).
  rewrite Hparts. rewrite app_nil_l.
  rewrite parts_in_order_iff by lia. now rewrite slice_from_0.
Qed.

(** A piece with a byte from 0x80 on: for the pattern of the bytes C3 A9,
    a star and x, the piece searched is C3 83 C2 A9, so that the string of
    the bytes C3 A9, an at sign and x is not accepted. *)
Lemma matchPattern_converted_piece :
  let e_acute := String (ascii_of_nat 195) (String (ascii_of_nat 169) "") in
  let searched :=
    String (ascii_of_nat 195)
      (String (ascii_of_nat 131)
         (String (ascii_of_nat 194) (String (ascii_of_nat 169) ""))) in
  converted e_acute = searched
  /\ config.matchPattern (e_acute ++ "@x") (e_acute ++ "*x") = false
  /\ config.matchPattern (searched ++ "@x") (e_acute ++ "*x") = true.
Proof. repeat split; vm_compute; reflexivity. Qed.

(** *** ExtractDomain *)

Definition at_free (s : string) : Prop :=
  forall i, String.get i s <> Some "@"%char.

Lemma ExtractDomain_none (email : string) :
  at_free email -> config.ExtractDomain email = "".
Proof.
  intros Hfree. unfold config.ExtractDomain.
  destruct (indexOf_spec email "@") as [[-> _]|(k & _ & _ & Hat & _)];
    [reflexivity|].
  exfalso. apply (Hfree k). apply substring_one_get.
  unfold Go.slice in Hat. simpl String.length in Hat.
  replace (k + 1 - k)%nat with 1%nat in Hat by lia. exact Hat.
Qed.

Lemma ExtractDomain_first_at (mailbox domain : string) :
  at_free mailbox ->
  config.ExtractDomain (mailbox ++ "@" ++ domain) = domain.
Proof.
  intros Hfree. unfold config.ExtractDomain.
  destruct (indexOf_occurrence mailbox "@" domain)
    as (k & Hk & Hle & _ & Hat).
  assert (Hk' : k = String.length mailbox).
  { destruct (Nat.eq_dec k (String.length mailbox)) as [Heq|Hne];
      [exact Heq|].
    exfalso. apply (Hfree k).
    rewrite <- (get_app_l mailbox ("@" ++ domain)) by lia.
    apply substring_one_get.
    unfold Go.slice in Hat. simpl String.length in Hat.
    replace (k + 1 - k)%nat with 1%nat in Hat by lia. exact Hat. }
  rewrite Hk. subst k.
  replace (Z.of_nat (String.length mailbox) =? -1) with false
    by (symmetry; apply Z.eqb_neq; lia).
  replace (Z.to_nat (Z.of_nat (String.length mailbox) + 1))
    with (String.length (mailbox ++ "@")) by (rewrite length_app; simpl; lia).
  rewrite <- append_assoc. apply slice_from_app.
Qed.

(** *** HasUrgentKeyword *)

Lemma first_keyword_spec (textLower : string) (keywords : list string) :
  match config.first_keyword textLower keywords with
  | (true, keyword) =>
      exists before after,
        keywords = (before ++ keyword :: after)%list
        /\ config.contains textLower (config.toLower keyword) = true
        /\ forall earlier, In earlier before ->
             config.contains textLower (config.toLower earlier) = false
  | (false, keyword) =>
      keyword = ""
      /\ forall k, In k keywords ->
           config.contains textLower (config.toLower k) = false
  end.
Proof.
  induction keywords as [|keyword rest IH]; simpl.
  - split; [reflexivity|]. intros k [].
  - destruct (config.contains textLower (config.toLower keyword)) eqn:Hc.
    + exists [], rest. split; [reflexivity|]. split; [exact Hc|].
      intros earlier [].
    + destruct (config.first_keyword textLower rest) as [[|] found].
      * destruct IH as (before & after & -> & Hfound & Hearlier).
        exists (keyword :: before), after. split; [reflexivity|].
        split; [exact Hfound|]. intros earlier [<-|Hin];
          [exact Hc|now apply Hearlier].
      * destruct IH as [-> Hall]. split; [reflexivity|].
        intros k [<-|Hin]; [exact Hc|now apply Hall].
Qed.

(** *** Validate *)

Section Validate.
Context `{GoRuntime}.

Lemma validate_priorities_None (entries : list (string * Z)) :
  config.validate_priorities entries = None
  <-> forall category priority, In (category, priority) entries ->
        -100 <= priority <= 100.
Proof.
  induction entries as [|[category priority] rest IH]; simpl.
  - split; [intros _ ? ? []|reflexivity].
  - destruct (Z.ltb_spec priority (-100)); simpl.
    + split; [discriminate|]. intros Hall.
      specialize (Hall category priority (or_introl eq_refl)). lia.
    + destruct (Z.ltb_spec 100 priority); simpl.
      * split; [discriminate|]. intros Hall.
        specialize (Hall category priority (or_introl eq_refl)). lia.
      * rewrite IH. split.
        -- intros Hall c p [[= <- <-]|Hin]; [lia|now apply (Hall c p)].
        -- intros Hall c p Hin. apply (Hall c p). now right.
Qed.

Lemma validate_conditions_None (name : string) (i : nat)
  (conds : list config.Condition) :
  config.validate_conditions name i conds = None
  <-> forall cond, In cond conds -> config.Condition_Validate cond = None.
Proof.
  revert i. induction conds as [|cond rest IH]; intros i; simpl.
  - split; [intros _ ? []|reflexivity].
  - destruct (config.Condition_Validate cond) eqn:Hcond.
    + split; [discriminate|]. intros Hall.
      rewrite (Hall cond (or_introl eq_refl)) in Hcond. discriminate.
    + rewrite IH. split.
      * intros Hall c [<-|Hin]; [exact Hcond|now apply Hall].
      * intros Hall c Hin. apply Hall. now right.
Qed.

Lemma validate_rules_None
  (rules : list (string * config.ClassificationRule)) :
  config.validate_rules rules = None
  <-> forall name rule, In (name, rule) rules ->
        (config.Confidence rule <? 0)%float = false
        /\ (1 <? config.Confidence rule)%float = false
        /\ forall cond, In cond (config.Conditions rule) ->
             config.Condition_Validate cond = None.
Proof.
  induction rules as [|[name rule] rest IH]; simpl.
  - split; [intros _ ? ? []|reflexivity].
  - destruct (config.Confidence rule <? 0)%float eqn:Hlow; simpl.
    { split; [discriminate|]. intros Hall.
      destruct (Hall name rule (or_introl eq_refl)) as (Hl & _). congruence. }
    destruct (1 <? config.Confidence rule)%float eqn:Hhigh; simpl.
    { split; [discriminate|]. intros Hall.
      destruct (Hall name rule (or_introl eq_refl)) as (_ & Hh & _).
      congruence. }
    destruct (config.validate_conditions name 0 (config.Conditions rule))
      eqn:Hconds.
    { split; [discriminate|]. intros Hall.
      destruct (Hall name rule (or_introl eq_refl)) as (_ & _ & Hc).
      apply (validate_conditions_None name 0) in Hc. rewrite Hc in Hconds.
      discriminate. }
    rewrite validate_conditions_None in Hconds. rewrite IH. split.
    + intros Hall n r [[= <- <-]|Hin]; [auto|now apply (Hall n r)].
    + intros Hall n r Hin. apply (Hall n r). now right.
Qed.

Lemma Validate_None (pc : config.PriorityConfig) :
  config.Validate pc = None
  <-> (forall category priority,
         config.CategoryPriority (config.Rules pc) !! category
         = Some priority -> -100 <= priority <= 100)
      /\ forall name rule, In (name, rule) (config.ClassificationRules pc) ->
           (config.Confidence rule <? 0)%float = false
           /\ (1 <? config.Confidence rule)%float = false
           /\ forall cond, In cond (config.Conditions rule) ->
                config.Condition_Validate cond = None.
Proof.
  unfold config.Validate.
  destruct (config.validate_priorities _) eqn:Hp.
  - split; [discriminate|]. intros [Hall _].
    assert (Hnone : config.validate_priorities
                      (map_to_list
                         (config.CategoryPriority (config.Rules pc)))
                    = None).
    { apply validate_priorities_None. intros c p Hin.
      apply (Hall c p). apply elem_of_map_to_list.
      now apply list_elem_of_In. }
    congruence.
  - rewrite validate_priorities_None in Hp. rewrite validate_rules_None.
    split.
    + intros Hrules. split; [|exact Hrules]. intros c p Hl.
      apply (Hp c p). apply list_elem_of_In.
      now apply elem_of_map_to_list.
    + intros [_ Hrules]. exact Hrules.
Qed.

Lemma Condition_Validate_None (cond : config.Condition) :
  config.Condition_Validate cond = None ->
  In (config.Field cond) ["from"; "subject"; "body"; "headers"; "to"]
  /\ In (config.Operator cond)
       ["contains"; "contains_any"; "regex"; "domain_in"; "domain_not_in"]
  /\ (config.Operator cond = "regex" -> config.Value cond <> "" ->
      exists re, regexp_Compile (config.Value cond) = Some re).
Proof.
  unfold config.Condition_Validate.
  destruct (existsb (String.eqb (config.Field cond)) _) eqn:Hfield;
    [|discriminate].
  destruct (existsb (String.eqb (config.Operator cond)) _) eqn:Hop;
    [|discriminate].
  cbn [negb].
  apply existsb_exists in Hfield, Hop.
  destruct Hfield as (f & Hf & Hfeq). apply String.eqb_eq in Hfeq.
  destruct Hop as (o & Ho & Hoeq). apply String.eqb_eq in Hoeq.
  subst f o. intros Hregex. split; [exact Hf|]. split; [exact Ho|].
  intros Hop Hvalue. rewrite Hop in Hregex.
  change ("regex" =? "regex")%string with true in Hregex.
  destruct (String.eqb_spec (config.Value cond) "") as [|_]; [contradiction|].
  cbn [negb andb] in Hregex.
  destruct (regexp_Compile (config.Value cond)) as [re|];
    [now exists re|discriminate].
Qed.

End Validate.

End config_props.

(** ** Package ai: further operations of the classifier *)

Module Classifier_ops.

Import Classifier.

(** [fmt.Errorf("failed to classify email %s: %w", email.ID, err)] *)
Inductive error :=
| ErrClassify (emailID : string) (cause : Classifier.error).

(** The default categories that [getCategories] adds. *)
Definition defaultCategories : list string :=
  ["personal"; "spam"; "newsletters"; "promotions"; "invoice"; "urgent"].

(** The second loop of [getCategories]: a default category is appended
    unless it is among the categories collected so far. *)
Fixpoint add_defaults (categories defaults : list string) : list string :=
  match defaults with
  | [] => categories
  | cat :: rest =>
      if existsb (fun existing => String.eqb existing cat) categories
      then add_defaults categories rest
      else add_defaults (categories ++ [cat])%list rest
  end.

(** The list of all known categories: those of the rules, in the order of
    the visit of the map, then the missing default ones. *)
Definition getCategories (c : Classifier) : list string :=
  add_defaults (List.map fst (config.ClassificationRules (config c)))
    defaultCategories.

(** All supported categories. *)
Definition Categories (c : Classifier) : list string := getCategories c.

(** The statistics map of [GetStats], with its three keys as fields. *)
Record Stats := {
  cache_size : Z;
  rules_count : Z;
  categories : list string
}.

Definition GetStats (c : Classifier) : Stats :=
  {| cache_size := Z.of_nat (size (cache c));
     rules_count :=
       Z.of_nat (length (config.ClassificationRules (config c)));
     categories := getCategories c |}.

Section WithRuntime.
Context `{GoRuntime}.

(** The loop of [ClassifyBatch] over the emails left, [i] being the index
    of the next one; the call of Classify for the email of index [i] reads
    the clock as [clock i].  [results] is the slice made at the start,
    whose entries are nil until they are assigned. *)
Fixpoint ClassifyBatch_loop (c : Classifier) (emails : list Email)
  (clock : nat -> Z) (i : nat) (results : list (option ClassificationResult))
  : Classifier * (option (list (option ClassificationResult)) * option error)
  :=
  match emails with
  | [] => (c, (Some results, None))
  | email :: rest =>
      match Classify c email (clock i) with
      | (c', (_, Some err)) => (c', (None, Some (ErrClassify (ID email) err)))
      | (c', (result, None)) =>
          ClassifyBatch_loop c' rest clock (S i) (<[i := result]> results)
      end
  end.

(** Classifies multiple emails. *)
Definition ClassifyBatch (c : Classifier) (emails : list Email)
  (clock : nat -> Z)
  : Classifier * (option (list (option ClassificationResult)) * option error)
  :=
  ClassifyBatch_loop c emails clock 0 (replicate (length emails) None).

End WithRuntime.

End Classifier_ops.

Module Classifier_ops_facts.

Import Classifier Classifier_facts Classifier_ops.

(** What the second loop of [getCategories] appends: the default
    categories that are missing, each once. *)
Lemma add_defaults_spec (categories defaults : list string) :
  exists added,
    add_defaults categories defaults = (categories ++ added)%list
    /\ (forall cat, In cat added <-> In cat defaults /\ ~ In cat categories)
    /\ NoDup added.
Proof.
  revert categories. induction defaults as [|cat rest IH]; intros categories.
  - exists []. split; [now rewrite app_nil_r|]. split; [|constructor].
    intros cat. simpl. tauto.
  - simpl.
    destruct (existsb (fun existing => String.eqb existing cat) categories)
      eqn:Hfound.
    + apply existsb_exists in Hfound. destruct Hfound as (x & Hx & Heq).
      apply String.eqb_eq in Heq. subst x.
      destruct (IH categories) as (added & Heq & Hin & Hnodup).
      exists added. split; [exact Heq|]. split; [|exact Hnodup].
      intros c. rewrite Hin. simpl. split; [tauto|].
      intros [[<-|Hc] Hnot]; [contradiction|tauto].
    + assert (Hnot : ~ In cat categories).
      { intros Hin.
        assert (existsb (fun existing => String.eqb existing cat) categories
                = true); [|congruence].
        apply existsb_exists. exists cat. split; [exact Hin|].
        apply String.eqb_refl. }
      destruct (IH (categories ++ [cat])%list) as (added & Heq & Hin & Hnodup).
      exists (cat :: added). split; [now rewrite Heq, <- app_assoc|].
      split.
      * intros c. simpl. rewrite Hin, in_app_iff. simpl.
        destruct (String.eqb_spec c cat) as [->|Hne]; [tauto|].
        intuition congruence.
      * apply NoDup_cons. split; [|exact Hnodup].
        rewrite list_elem_of_In, Hin, in_app_iff. simpl. tauto.
Qed.

Section WithRuntime.
Context `{GoRuntime}.

(** *** Rules *)

Lemma rules_loop_cases (email : Email) (now : Z)
  (rules : list (string * config.ClassificationRule))
  (bestMatch : option ClassificationResult) (highestConfidence : float) :
  rules_loop email now rules bestMatch highestConfidence = bestMatch
  \/ exists category rule,
       In (category, rule) rules
       /\ matchesRule email rule = true
       /\ rules_loop email now rules bestMatch highestConfidence
          = Some (rule_result email category rule now).
Proof.
  revert bestMatch highestConfidence.
  induction rules as [|[category rule] rest IH]; intros best hc; simpl.
  - left. reflexivity.
  - destruct (matchesRule email rule) eqn:Hm; simpl.
    + destruct (hc <? config.Confidence rule)%float.
      * destruct (IH (Some (rule_result email category rule now))
                    (config.Confidence rule))
          as [Hkeep|(cat' & rule' & Hin & Hm' & Hres)].
        -- right. exists category, rule. split; [now left|].
           split; [exact Hm|exact Hkeep].
        -- right. exists cat', rule'. split; [now right|].
           split; [exact Hm'|exact Hres].
      * destruct (IH best hc) as [Hkeep|(cat' & rule' & Hin & Hm' & Hres)].
        -- left. exact Hkeep.
        -- right. exists cat', rule'. split; [now right|].
           split; [exact Hm'|exact Hres].
    + destruct (IH best hc) as [Hkeep|(cat' & rule' & Hin & Hm' & Hres)].
      * left. exact Hkeep.
      * right. exists cat', rule'. split; [now right|].
        split; [exact Hm'|exact Hres].
Qed.

(** Once a rule has been selected, a rule stays selected. *)
Lemma rules_loop_Some (email : Email) (now : Z)
  (rules : list (string * config.ClassificationRule))
  (best : ClassificationResult) (highestConfidence : float) :
  exists r, rules_loop email now rules (Some best) highestConfidence = Some r.
Proof.
  revert best highestConfidence.
  induction rules as [|[category rule] rest IH]; intros best hc; simpl.
  - now exists best.
  - destruct (matchesRule email rule && (hc <? config.Confidence rule)%float);
      apply IH.
Qed.

(** From the start of the loop, a matching rule of confidence above zero
    makes the loop select a rule. *)
Lemma rules_loop_positive (email : Email) (now : Z)
  (rules : list (string * config.ClassificationRule))
  (category : string) (rule : config.ClassificationRule) :
  In (category, rule) rules ->
  matchesRule email rule = true ->
  (0 <? config.Confidence rule)%float = true ->
  exists r, rules_loop email now rules None 0%float = Some r.
Proof.
  induction rules as [|[cat' rule'] rest IH]; intros Hin Hm Hpos; [destruct Hin|].
  simpl. destruct Hin as [[= -> ->]|Hin].
  - rewrite Hm, Hpos. simpl. apply rules_loop_Some.
  - destruct (matchesRule email rule' && (0 <? config.Confidence rule')%float).
    + apply rules_loop_Some.
    + now apply IH.
Qed.

Lemma rules_loop_none_positive (email : Email) (now : Z)
  (rules : list (string * config.ClassificationRule))
  (bestMatch : option ClassificationResult) :
  (forall category rule, In (category, rule) rules ->
     matchesRule email rule = true ->
     (0 <? config.Confidence rule)%float = false) ->
  rules_loop email now rules bestMatch 0%float = bestMatch.
Proof.
  induction rules as [|[cat' rule'] rest IH]; intros Hall; simpl;
    [reflexivity|].
  destruct (matchesRule email rule') eqn:Hm; simpl.
  - rewrite (Hall cat' rule' (or_introl eq_refl) Hm).
    apply IH. intros c r Hin. apply (Hall c r). now right.
  - apply IH. intros c r Hin. apply (Hall c r). now right.
Qed.

(** *** Classify *)

Lemma Classify_total (c : Classifier) (email : Email) (now : Z) :
  exists c' r,
    Classify c email now = (c', (Some r, None))
    /\ config c' = config c /\ db c' = db c.
Proof.
  unfold Classify.
  destruct (cache c !! getCacheKey email) as [cached|].
  - destruct (Go.time_Since now (Timestamp cached) <? 24 * Go.Hour).
    + now exists c, cached.
    + destruct (config.ShouldIgnoreSender _ _); [now eexists _, _|].
      destruct (config.ShouldIgnoreSubject _ _); now eexists _, _.
  - destruct (config.ShouldIgnoreSender _ _); [now eexists _, _|].
    destruct (config.ShouldIgnoreSubject _ _); now eexists _, _.
Qed.

(** Either the cache holds a fresh entry for the email or it does not. *)
Lemma fresh_or_not (c : Classifier) (email : Email) (now : Z) :
  (exists cached,
     cache c !! getCacheKey email = Some cached
     /\ Go.time_Since now (Timestamp cached) < 24 * Go.Hour)
  \/ no_fresh_entry c email now.
Proof.
  unfold no_fresh_entry.
  destruct (cache c !! getCacheKey email) as [cached|] eqn:Hc.
  - destruct (Z.lt_ge_cases (Go.time_Since now (Timestamp cached))
                (24 * Go.Hour)) as [Hlt|Hge].
    + left. now exists cached.
    + right. intros cached' [= <-]. lia.
  - right. intros cached' [=].
Qed.

Lemma time_Since_now (now : Z) :
  Go.min_int64 <= 0 <= Go.max_int64 -> Go.time_Since now now = 0.
Proof. unfold Go.time_Since, Go.time_Sub. rewrite Z.sub_diag. lia. Qed.

(** *** ClassifyBatch *)

(** The classifier and the results after the emails have been classified
    one after the other, the first of them at the clock reading of index
    [i]. *)
Fixpoint classify_each (c : Classifier) (emails : list Email)
  (clock : nat -> Z) (i : nat) : Classifier * list ClassificationResult :=
  match emails with
  | [] => (c, [])
  | email :: rest =>
      match Classify c email (clock i) with
      | (c', (Some r, _)) =>
          let '(c'', results) := classify_each c' rest clock (S i) in
          (c'', r :: results)
      | (c', (None, _)) => (c', [])
      end
  end.

Lemma ClassifyBatch_loop_each (c : Classifier) (emails : list Email)
  (clock : nat -> Z) (done : list (option ClassificationResult)) :
  ClassifyBatch_loop c emails clock (length done)
    (done ++ replicate (length emails) None)%list
  = (fst (classify_each c emails clock (length done)),
     (Some (done
            ++ List.map Some
                 (snd (classify_each c emails clock (length done))))%list,
      None)).
Proof.
  revert c done. induction emails as [|email rest IH]; intros c done.
  - simpl. now rewrite !app_nil_r.
  - simpl.
    destruct (Classify_total c email (clock (length done)))
      as (c' & r & -> & _).
    rewrite insert_app_r_alt by lia. rewrite Nat.sub_diag. simpl.
    specialize (IH c' (done ++ [Some r])%list).
    rewrite length_app in IH. simpl in IH.
    rewrite Nat.add_1_r, <- app_assoc in IH. simpl in IH.
    rewrite IH.
    destruct (classify_each c' rest clock (S (length done))) as [c'' rs].
    simpl. now rewrite <- app_assoc.
Qed.

Lemma ClassifyBatch_each (c : Classifier) (emails : list Email)
  (clock : nat -> Z) :
  ClassifyBatch c emails clock
  = (fst (classify_each c emails clock 0),
     (Some (List.map Some (snd (classify_each c emails clock 0))), None)).
Proof. apply (ClassifyBatch_loop_each c emails clock []). Qed.

Lemma classify_each_frame (c : Classifier) (emails : list Email)
  (clock : nat -> Z) (i : nat) :
  length (snd (classify_each c emails clock i)) = length emails
  /\ config (fst (classify_each c emails clock i)) = config c
  /\ db (fst (classify_each c emails clock i)) = db c.
Proof.
  revert c i. induction emails as [|email rest IH]; intros c i; simpl.
  - auto.
  - destruct (Classify_total c email (clock i)) as (c' & r & -> & Hc & Hd).
    specialize (IH c' (S i)).
    destruct (classify_each c' rest clock (S i)) as [c'' rs]. simpl in *.
    destruct IH as (Hlen & Hc' & Hd'). repeat split; congruence.
Qed.

Lemma classify_each_ext (c : Classifier) (emails : list Email)
  (clock1 clock2 : nat -> Z) (i1 i2 : nat) :
  (forall j, clock1 (i1 + j)%nat = clock2 (i2 + j)%nat) ->
  classify_each c emails clock1 i1 = classify_each c emails clock2 i2.
Proof.
  revert c i1 i2. induction emails as [|email rest IH]; intros c i1 i2 Hclock;
    simpl; [reflexivity|].
  pose proof (Hclock 0%nat) as H0. rewrite !Nat.add_0_r in H0. rewrite H0.
  destruct (Classify c email (clock2 i2)) as [c' [[r|] err]]; [|reflexivity].
  rewrite (IH c' (S i1) (S i2)); [reflexivity|].
  intros j. specialize (Hclock (S j)).
  now rewrite !Nat.add_succ_r in Hclock.
Qed.

Lemma classify_each_app (c : Classifier) (first second : list Email)
  (clock : nat -> Z) (i : nat) :
  classify_each c (first ++ second)%list clock i
  = let '(c1, r1) := classify_each c first clock i in
    let '(c2, r2) := classify_each c1 second clock (i + length first) in
    (c2, (r1 ++ r2)%list).
Proof.
  revert c i. induction first as [|email rest IH]; intros c i; simpl.
  - rewrite Nat.add_0_r.
    now destruct (classify_each c second clock i).
  - destruct (Classify_total c email (clock i)) as (c' & r & -> & _).
    rewrite IH. rewrite Nat.add_succ_r.
    destruct (classify_each c' rest clock (S i)) as [c1 r1].
    simpl. now destruct (classify_each c1 second clock (S (i + length rest))).
Qed.

(** Result [i] is the answer of [Classify] for email [i] in the classifier
    that the emails before it leave. *)
Lemma classify_each_lookup (c : Classifier) (emails : list Email)
  (clock : nat -> Z) (i0 i : nat) (email : Email) :
  emails !! i = Some email ->
  exists result,
    snd (classify_each c emails clock i0) !! i = Some result
    /\ snd (Classify (fst (classify_each c (take i emails) clock i0))
              email (clock (i0 + i)%nat))
       = (Some result, None).
Proof.
  revert c i0 i. induction emails as [|e rest IH]; intros c i0 i Hi;
    [discriminate|].
  destruct i as [|i].
  - injection Hi as ->. rewrite Nat.add_0_r. cbn [take classify_each fst].
    destruct (Classify_total c email (clock i0)) as (c' & r & Hcall & _).
    rewrite Hcall.
    destruct (classify_each c' rest clock (S i0)) as [c'' rs].
    exists r. split; reflexivity.
  - cbn [take classify_each]. cbn in Hi.
    destruct (Classify_total c e (clock i0)) as (c' & r & -> & _).
    destruct (IH c' (S i0) i Hi) as (result & Hres & Hcall).
    rewrite Nat.add_succ_r.
    destruct (classify_each c' rest clock (S i0)) as [c'' rs].
    destruct (classify_each c' (take i rest) clock (S i0)) as [c1 r1].
    exists result. split; [exact Hres|exact Hcall].
Qed.

(** *** The cache *)

(** A second call at the same instant changes nothing and returns what
    the first call returned. *)
Lemma Classify_again (c : Classifier) (email : Email) (now : Z) :
  Classify (fst (Classify c email now)) email now
  = (fst (Classify c email now), snd (Classify c email now)).
Proof.
  destruct (fresh_or_not c email now) as [(cached & Hc & Hfresh)|Hno].
  - rewrite (Classify_fresh c email now cached Hc Hfresh). simpl.
    apply Classify_fresh; assumption.
  - rewrite (Classify_no_fresh c email now Hno).
    destruct (config.ShouldIgnoreSender (config c) (From email)) eqn:Hs.
    + simpl. rewrite (Classify_no_fresh c email now Hno), Hs. reflexivity.
    + destruct (config.ShouldIgnoreSubject (config c) (Subject email))
        eqn:Hj.
      * simpl. rewrite (Classify_no_fresh c email now Hno), Hs, Hj.
        reflexivity.
      * simpl. apply Classify_fresh; [apply lookup_insert_eq|].
        assert (Hstamp : Timestamp (classifyByRules c email now) = now).
        { unfold classifyByRules.
          destruct (rules_loop_cases email now
                      (config.ClassificationRules (config c)) None 0%float)
            as [->|(cat & rule & _ & _ & ->)]; [|reflexivity].
          now destruct (defaultClassification_heuristics email now)
            as (_ & _ & _ & _ & Hstamp). }
        rewrite Hstamp, time_Since_now; [reflexivity|].
        unfold Go.min_int64, Go.max_int64. lia.
Qed.

(** Classify writes at most the cache entry of the email, and removes
    none. *)
Lemma Classify_cache (c : Classifier) (email : Email) (now : Z) :
  let c' := fst (Classify c email now) in
  config c' = config c /\ db c' = db c
  /\ (forall key, key <> getCacheKey email ->
        cache c' !! key = cache c !! key)
  /\ (forall key, is_Some (cache c !! key) -> is_Some (cache c' !! key)).
Proof.
  unfold Classify.
  destruct (match cache c !! getCacheKey email with
            | Some cached =>
                if Go.time_Since now (Timestamp cached) <? 24 * Go.Hour
                then Some cached else None
            | None => None
            end); [simpl; auto|].
  destruct (config.ShouldIgnoreSender _ _); [simpl; auto|].
  destruct (config.ShouldIgnoreSubject _ _); [simpl; auto|].
  simpl. repeat split.
  - intros key Hkey. now rewrite lookup_insert_ne.
  - intros key Hsome.
    destruct (decide (getCacheKey email = key)) as [<-|Hne].
    + rewrite lookup_insert_eq. eauto.
    + now rewrite lookup_insert_ne.
Qed.

(** *** Categories *)

Lemma defaultClassification_Category (email : Email) (now : Z) :
  In (Category (defaultClassification email now))
     ["personal"; "newsletters"; "promotions"; "invoice"; "urgent"].
Proof.
  unfold defaultClassification.
  repeat match goal with
         | |- context [if ?b then _ else _] => destruct b
         end; simpl; tauto.
Qed.

Lemma classifyByRules_Category (c : Classifier) (email : Email) (now : Z) :
  In (Category (classifyByRules c email now))
     (List.map fst (config.ClassificationRules (config c)))
  \/ In (Category (classifyByRules c email now))
       ["personal"; "newsletters"; "promotions"; "invoice"; "urgent"].
Proof.
  unfold classifyByRules.
  destruct (rules_loop_cases email now
              (config.ClassificationRules (config c)) None 0%float)
    as [->|(cat & rule & Hin & _ & ->)].
  - right. apply defaultClassification_Category.
  - left. simpl. apply in_map_iff. now exists (cat, rule).
Qed.

Lemma classifyByRules_EmailID (c : Classifier) (email : Email) (now : Z) :
  EmailID (classifyByRules c email now) = ID email
  /\ Method (classifyByRules c email now) = "rules"
  /\ Timestamp (classifyByRules c email now) = now.
Proof.
  unfold classifyByRules.
  destruct (rules_loop_cases email now
              (config.ClassificationRules (config c)) None 0%float)
    as [->|(cat & rule & _ & _ & ->)]; simpl; auto.
  unfold defaultClassification.
  repeat match goal with
         | |- context [if ?b then _ else _] => destruct b
         end; simpl; auto.
Qed.

Lemma getCategories_In (c : Classifier) (category : string) :
  In category (getCategories c)
  <-> In category (List.map fst (config.ClassificationRules (config c)))
      \/ In category defaultCategories.
Proof.
  unfold getCategories.
  destruct (add_defaults_spec
              (List.map fst (config.ClassificationRules (config c)))
              defaultCategories) as (added & -> & Hin & _).
  rewrite in_app_iff, Hin.
  destruct (in_dec string_dec category
              (List.map fst (config.ClassificationRules (config c))));
    tauto.
Qed.

End WithRuntime.

End Classifier_ops_facts.

(** ** Exact float64 operations *)

Module exact_facts.

Import float_facts.

Lemma Zdigits2_mul_pow2 (m k : Z) :
  0 < m -> 0 <= k -> Zdigits2 (m * 2 ^ k) = Zdigits2 m + k.
Proof.
  intros Hm Hk. pose proof (Zdigits2_pos m Hm) as Hd.
  destruct (Zdigits2_bounds m Hm) as [Hl Hu].
  pose proof (pow2_pos k Hk) as Hp.
  apply Zdigits2_unique; [lia|].
  replace (Zdigits2 m + k - 1) with (Zdigits2 m - 1 + k) by lia.
  rewrite !pow2_add by lia. split.
  - apply Z.mul_le_mono_nonneg_r; lia.
  - apply Z.mul_lt_mono_pos_r; lia.
Qed.

(** Rounding a number that is representable gives its representation. *)
Lemma binary_round_aux_exact (sx : bool) (mz m : positive) (ez e : Z) :
  fexp64 (Zdigits2 (Z.pos m) + e) = e -> e <= 971 -> ez <= e ->
  Z.pos mz = Z.pos m * 2 ^ (e - ez) ->
  binary_round_aux prec emax sx (Z.pos mz) ez loc_Exact
  = S754_finite sx m e.
Proof.
  intros Hcan Hmax Hle Hm.
  destruct (binary_round_aux_char sx (Z.pos mz) ez loc_Exact
              ltac:(lia)) as (m1 & k & _ & Hm1 & Hk & _ & ->).
  assert (Hdz : Zdigits2 (Z.pos mz) + ez = Zdigits2 (Z.pos m) + e).
  { rewrite Hm, Zdigits2_mul_pow2 by lia. lia. }
  rewrite Hdz, Hcan in Hm1.
  assert (Hn : Z.max 0 (e - ez) = e - ez) by lia.
  rewrite Hn in Hm1.
  pose proof (pow2_pos (e - ez) ltac:(lia)) as Hp.
  assert (Hm1' : m1 = Z.pos m).
  { rewrite Hm1; [|reflexivity|rewrite Hm; apply Z.mod_mul; lia].
    rewrite Hm. apply Z.div_mul. lia. }
  rewrite Hdz, Hcan, Hn in Hk |- *.
  replace (ez + (e - ez)) with e in Hk |- * by lia.
  rewrite Hm1', Hcan in Hk. rewrite Z.sub_diag in Hk. simpl in Hk.
  subst k m1. rewrite Z.div_1_r, Z.add_0_r.
  replace (e <=? 971) with true by (symmetry; apply Z.leb_le; lia).
  reflexivity.
Qed.

Lemma binary_round_exact (sx : bool) (mx m : positive) (ex e : Z) :
  fexp64 (Zdigits2 (Z.pos m) + e) = e -> e <= 971 ->
  Z.pos mx * 2 ^ (ex - Z.min ex e) = Z.pos m * 2 ^ (e - Z.min ex e) ->
  binary_round prec emax sx mx ex = S754_finite sx m e.
Proof.
  intros Hcan Hmax Hval. unfold binary_round.
  change (Z.pos (digits2_pos mx)) with (Zdigits2 (Z.pos mx)).
  rewrite fexp_64.
  assert (Hdig : Zdigits2 (Z.pos mx) + ex = Zdigits2 (Z.pos m) + e).
  { destruct (Z.le_ge_cases ex e) as [Hle|Hge].
    - replace (Z.min ex e) with ex in Hval by lia.
      rewrite Z.sub_diag, Z.mul_1_r in Hval. rewrite Hval.
      rewrite Zdigits2_mul_pow2 by lia. lia.
    - replace (Z.min ex e) with e in Hval by lia.
      rewrite Z.sub_diag, Z.mul_1_r in Hval. rewrite <- Hval.
      rewrite Zdigits2_mul_pow2 by lia. lia. }
  rewrite Hdig, Hcan.
  destruct (shl_align_spec mx ex e) as [He Hm].
  destruct (shl_align mx ex e) as [mz ez]. cbn [fst snd] in He, Hm.
  rewrite Hval in Hm. subst ez.
  apply binary_round_aux_exact; [exact Hcan|exact Hmax|lia|exact Hm].
Qed.

(** Multiplying by one changes nothing. *)
Lemma SFmul_one (x : spec_float) :
  valid_binary x = true ->
  match x with S754_zero _ | S754_finite _ _ _ => True | _ => False end ->
  SFmul prec emax x sf_one = x.
Proof.
  intros Hvalid Hfin. destruct x as [s|s| |s m e]; try contradiction.
  - simpl. now destruct s.
  - destruct (valid_finite _ _ _ Hvalid) as [Hcan Hmax].
    unfold sf_one. simpl SFmul. rewrite xorb_false_r.
    apply binary_round_aux_exact; [exact Hcan|exact Hmax|lia|].
    replace (e - (e + -52)) with 52 by lia.
    rewrite Pos2Z.inj_mul. reflexivity.
Qed.

(** An integer below [2^53] and its float64 are converted into one
    another without loss. *)
Lemma int_of_float_of_int (s : Z) :
  0 <= s < 2 ^ 53 -> Go.int_of_float (Go.float_of_int s) = s.
Proof.
  intros Hs. unfold Go.int_of_float.
  rewrite float_of_int_nonneg by lia.
  destruct s as [|p|p]; [reflexivity| |lia].
  simpl binary_normalize.
  set (d := Zdigits2 (Z.pos p)).
  assert (Hd : 0 < d <= 53).
  { split; [apply Zdigits2_pos; lia|]. apply Zdigits2_lt_pow; lia. }
  pose proof (pow2_pos (53 - d) ltac:(lia)) as Hp.
  assert (Hpos : 0 < Z.pos p * 2 ^ (53 - d)) by lia.
  destruct (Z.pos p * 2 ^ (53 - d)) as [|m|m] eqn:Em; try lia.
  rewrite (binary_round_exact false p m 0 (d - 53)).
  - destruct (Z.leb_spec 0 (d - 53)) as [Hz|Hneg].
    + assert (d = 53) by lia.
      replace (53 - d) with 0 in Em by lia.
      replace (d - 53) with 0 by lia.
      rewrite Z.mul_1_r in *.
      replace ((Go.min_int64 <=? Z.pos m) && (Z.pos m <=? Go.max_int64))
        with true; [lia|].
      symmetry. apply andb_true_intro.
      unfold Go.min_int64, Go.max_int64. split; apply Z.leb_le; lia.
    + replace (- (d - 53)) with (53 - d) by lia.
      rewrite <- Em, Z.div_mul by lia.
      replace ((Go.min_int64 <=? Z.pos p) && (Z.pos p <=? Go.max_int64))
        with true; [reflexivity|].
      symmetry. apply andb_true_intro.
      unfold Go.min_int64, Go.max_int64. split; apply Z.leb_le; lia.
  - rewrite <- Em, Zdigits2_mul_pow2 by lia. fold d. unfold fexp64. lia.
  - lia.
  - replace (Z.min 0 (d - 53)) with (d - 53) by lia.
    rewrite Z.sub_diag, Z.mul_1_r, <- Em. f_equal. f_equal. lia.
Qed.

(** A zero or a finite number. *)
Definition sf_fin (x : spec_float) : Prop :=
  match x with
  | S754_zero _ | S754_finite _ _ _ => True
  | _ => False
  end.

Lemma sf_le_fin (x : spec_float) (mb eb : Z) : sf_le x mb eb -> sf_fin x.
Proof. destruct x as [s|s| |[|] m e]; simpl; tauto. Qed.

Lemma float_of_int_le (n : Z) :
  0 <= n < 2 ^ 63 -> sf_le (Prim2SF (Go.float_of_int n)) (2 ^ 52) 11.
Proof.
  intros Hn. rewrite float_of_int_nonneg by exact Hn.
  apply normalize_le; [lia|apply (canonical_pow2 63); lia|].
  apply (dy_le_at 0); [lia|lia|].
  change (2 ^ (0 - 0)) with 1. change (2 ^ 52 * 2 ^ (11 - 0)) with (2 ^ 63).
  lia.
Qed.

Lemma float_of_int_fin (n : Z) :
  Go.min_int64 <= n <= Go.max_int64 -> sf_fin (Prim2SF (Go.float_of_int n)).
Proof.
  unfold Go.min_int64, Go.max_int64. intros Hn.
  destruct (Z.le_gt_cases 0 n) as [Hpos|Hneg].
  { apply (sf_le_fin _ (2 ^ 52) 11). apply float_of_int_le. lia. }
  unfold Go.float_of_int.
  destruct (Z.eqb_spec n Go.min_int64) as [->|Hne]; [exact I|].
  replace (n <? 0) with true by (symmetry; apply Z.ltb_lt; lia).
  rewrite opp_spec.
  assert (Hfin : sf_fin (Prim2SF (of_uint63 (Uint63.of_Z (- n))))).
  { pose proof (float_of_int_le (- n)) as Hle.
    unfold Go.float_of_int in Hle.
    replace (- n =? Go.min_int64) with false in Hle
      by (symmetry; apply Z.eqb_neq; unfold Go.min_int64; lia).
    replace (- n <? 0) with false in Hle by (symmetry; apply Z.ltb_ge; lia).
    apply (sf_le_fin _ (2 ^ 52) 11). apply Hle.
    unfold Go.min_int64 in Hne. lia. }
  destruct (Prim2SF (of_uint63 (Uint63.of_Z (- n)))); simpl in *; tauto.
Qed.

(** [int(float64(score) * 0)] is zero. *)
Lemma scaled_by_zero (score : Z) :
  Go.min_int64 <= score <= Go.max_int64 ->
  Go.int_of_float (Go.float_of_int score * 0) = 0.
Proof.
  intros Hs. pose proof (float_of_int_fin score Hs) as Hfin.
  unfold Go.int_of_float. rewrite mul_spec.
  change (Prim2SF 0) with (S754_zero false).
  destruct (Prim2SF (Go.float_of_int score)); simpl in *; tauto.
Qed.

(** The number of hours in a duration that is not negative is below
    [2^64]. *)
Lemma Duration_Hours_le (d : Z) :
  0 <= d < 2 ^ 63 -> sf_le (Prim2SF (Go.Duration_Hours d)) (2 ^ 52) 12.
Proof.
  intros Hd. unfold Go.Duration_Hours.
  assert (HH : 0 < Go.Hour) by reflexivity.
  pose proof (Z.quot_pos d Go.Hour ltac:(lia) HH).
  assert (Z.quot d Go.Hour < 2 ^ 63).
  { rewrite Z.quot_div_nonneg by lia.
    apply Z.div_lt_upper_bound; [lia|]. unfold Go.Hour, Go.Second. lia. }
  pose proof (Z.rem_bound_pos d Go.Hour ltac:(lia) HH) as Hrem.
  assert (HHour : Go.Hour = 3600000000000) by reflexivity.
  rewrite add_spec. apply (SFadd_le _ _ (2 ^ 63) 2 0).
  - lia.
  - lia.
  - pose proof (float_of_int_le (Z.quot d Go.Hour) ltac:(lia)) as Hq.
    destruct (Prim2SF (Go.float_of_int (Z.quot d Go.Hour)))
      as [s|s| |[|] m e]; simpl in *; try tauto.
    apply (dy_le_trans _ _ _ _ _ _ Hq). unfold dy_le. vm_compute.
    discriminate.
  - rewrite div_spec.
    assert (Hr : sf_le (Prim2SF (Go.float_of_int (Z.rem d Go.Hour))) 1 42).
    { rewrite float_of_int_nonneg by lia.
      assert (Hn : sf_le (binary_normalize prec emax (Z.rem d Go.Hour) 0
                            false) (2 ^ 52) (42 - 52)).
      { apply normalize_le; [lia|apply (canonical_pow2 42); lia|].
        apply (dy_le_at (-10)); [lia|lia|].
        change (2 ^ (0 - -10)) with 1024.
        change (2 ^ 52 * 2 ^ (42 - 52 - -10)) with (2 ^ 52).
        lia. }
      destruct (binary_normalize prec emax (Z.rem d Go.Hour) 0 false)
        as [s|s| |[|] m e]; simpl in *; try tauto.
      now apply dy_le_pow2_canon. }
    pose proof (SFdiv_le_pow2 _ (Prim2SF 3600000000000) 42 41 Hr) as Hdiv.
    assert (Hquot : sf_le (SFdiv prec emax
                             (Prim2SF (Go.float_of_int (Z.rem d Go.Hour)))
                             (Prim2SF 3600000000000)) 1 (42 - 41)).
    { apply Hdiv; [|lia]. unfold sf_ge. vm_compute. discriminate. }
    unfold SF64div.
    destruct (SFdiv prec emax _ _) as [s|s| |[|] m e]; simpl in *;
      try tauto.
    apply (dy_le_trans _ _ _ _ _ _ Hquot). unfold dy_le. vm_compute.
    discriminate.
  - apply (canonical_pow2 64). lia.
  - unfold dy_le. vm_compute. discriminate.
Qed.

(** With a decay rate of zero the decay factor is one. *)
Lemma zero_rate_factor (hours : float) :
  sf_le (Prim2SF hours) (2 ^ 52) 12 ->
  Prim2SF (if (1 - 0 * (hours / 24) <? 0)%float then 0%float
           else (1 - 0 * (hours / 24))%float) = sf_one.
Proof.
  intros Hle.
  assert (Hdays : sf_fin (Prim2SF (hours / 24))).
  { rewrite div_spec. unfold SF64div.
    apply (sf_le_fin _ 1 (64 - 4)). apply SFdiv_le_pow2; [| |lia].
    - destruct (Prim2SF hours) as [s|s| |[|] m e]; simpl in *; try tauto.
      now apply dy_le_pow2_canon.
    - unfold sf_ge. vm_compute. discriminate. }
  assert (Hzero : exists s, Prim2SF (0 * (hours / 24)) = S754_zero s).
  { rewrite mul_spec. change (Prim2SF 0) with (S754_zero false).
    destruct (Prim2SF (hours / 24)) as [s|s| |s m e]; simpl in *;
      try tauto; eauto. }
  destruct Hzero as (s & Hzero).
  assert (Hone : Prim2SF (1 - 0 * (hours / 24)) = sf_one).
  { rewrite sub_spec, Hzero. destruct s; reflexivity. }
  assert (Hltb : (1 - 0 * (hours / 24) <? 0)%float = false).
  { rewrite ltb_spec, Hone. reflexivity. }
  rewrite Hltb. exact Hone.
Qed.

(** Scaling by the factor one gives back an integer below [2^53]. *)
Lemma scaled_by_one (score : Z) (factor : float) :
  0 <= score < 2 ^ 53 -> Prim2SF factor = sf_one ->
  Go.int_of_float (Go.float_of_int score * factor) = score.
Proof.
  intros Hs Hone. rewrite <- (int_of_float_of_int score Hs) at 2.
  unfold Go.int_of_float. rewrite mul_spec, Hone. unfold SF64mul.
  rewrite SFmul_one; [reflexivity|apply Prim2SF_valid|].
  apply (float_of_int_fin score). unfold Go.min_int64, Go.max_int64. lia.
Qed.

End exact_facts.

(** ** Package ai: further operations of the priority engine *)

Module PriorityEngine_ops.

Import Classifier PriorityEngine.

Definition with_db (pe : PriorityEngine) (d : storage.Database)
  : PriorityEngine :=
  {| config := config pe; db := d; classifier := classifier pe |}.

(** The zero [time.Time], January 1 of year 1, counted in nanoseconds from
    the Unix epoch. *)
Definition zero_Time : Z := -62135596800 * Go.Second.

(** Marks a sender as VIP. *)
Definition UpdateVIPStatus (pe : PriorityEngine) (senderEmail : string)
  (isVIP : bool) : PriorityEngine * option error :=
  let analytics :=
    match storage.GetSenderAnalytics (db pe) senderEmail with
    | (Some analytics, None) =>
        {| storage.EmailAddress := storage.EmailAddress analytics;
           storage.AccountID := storage.AccountID analytics;
           storage.TotalEmails := storage.TotalEmails analytics;
           storage.ReadCount := storage.ReadCount analytics;
           storage.ReplyCount := storage.ReplyCount analytics;
           storage.AvgResponseTime := storage.AvgResponseTime analytics;
           storage.LastInteraction := storage.LastInteraction analytics;
           storage.EngagementScore := storage.EngagementScore analytics;
           storage.IsVIP := isVIP |}
    | _ =>
        {| storage.EmailAddress := senderEmail; storage.AccountID := "";
           storage.TotalEmails := 0; storage.ReadCount := 0;
           storage.ReplyCount := 0; storage.AvgResponseTime := 0;
           storage.LastInteraction := zero_Time;
           storage.EngagementScore := 0; storage.IsVIP := isVIP |}
    end in
  let '(d, err) := storage.UpdateSenderAnalytics (db pe) analytics in
  (with_db pe d, option_map ErrStorage err).

End PriorityEngine_ops.

Module PriorityEngine_ops_facts.

Import Classifier Classifier_facts Classifier_ops_facts.
Import PriorityEngine PriorityEngine_facts PriorityEngine_ops.

Section WithRuntime.
Context `{GoRuntime}.

(** The entry that the decay adds to the reasoning chain: none when the
    decay is not applied or leaves the sum as it is. *)
Definition decay_reason (pe : PriorityEngine) (email : Email) (now : Z)
  : list Reason :=
  if decay_applies pe email now
     && negb (decayed_sum pe email now =? raw_sum pe email now)
  then [TimeDecayed
          (Go.sub64 (raw_sum pe email now) (decayed_sum pe email now))
          (Go.Duration_Hours (age email now) / 24)%float]
  else [].

(** The reasoning chain of an email: the entries of the six factors in the
    order of their evaluation, then that of the decay. *)
Definition chain_of (pe : PriorityEngine) (email : Email) (now : Z)
  : list Reason :=
  (snd (calculateSenderScore pe email)
   ++ snd (calculateKeywordScore pe email)
   ++ snd (calculateTemporalScore email now)
   ++ snd (fst (snd (calculateCategoryScore pe email now)))
   ++ snd (calculateEngagementScore pe email)
   ++ snd (calculateThreadScore email)
   ++ decay_reason pe email now)%list.

Lemma calculateEngagementScore_frame (pe pe' : PriorityEngine)
  (email : Email) :
  db pe' = db pe ->
  calculateEngagementScore pe' email = calculateEngagementScore pe email.
Proof. intros Hdb. unfold calculateEngagementScore. now rewrite Hdb. Qed.

Lemma calculateSenderScore_frame (pe pe' : PriorityEngine) (email : Email) :
  config pe' = config pe -> db pe' = db pe ->
  calculateSenderScore pe' email = calculateSenderScore pe email.
Proof.
  intros Hc Hdb. unfold calculateSenderScore. now rewrite Hc, Hdb.
Qed.

Lemma calculateKeywordScore_frame (pe pe' : PriorityEngine) (email : Email) :
  config pe' = config pe ->
  calculateKeywordScore pe' email = calculateKeywordScore pe email.
Proof. intros Hc. unfold calculateKeywordScore. now rewrite Hc. Qed.

(** Everything that [CalculatePriority] returns. *)
Lemma CalculatePriority_unfold (pe : PriorityEngine) (email : Email)
  (now : Z) :
  CalculatePriority pe email now
  = (fst (calculateCategoryScore pe email now),
     (Some {| EmailID := ID email;
              Score :=
                clamp 0 100
                  (if decay_applies pe email now
                   then decayed_sum pe email now
                   else raw_sum pe email now);
              Factors := factors_of pe email now;
              ReasoningChain := chain_of pe email now;
              Category := snd (snd (calculateCategoryScore pe email now));
              Timestamp := now |}, None)).
Proof.
  pose proof (add64_chain pe email now) as Hsum.
  pose proof (calculateCategoryScore_frame pe email now) as (Hc & Hd & _).
  unfold chain_of, decay_reason, factors_of, decayed_sum, decay_applies,
    decay_factor, float_max0, maxAge, age.
  revert Hsum. generalize (raw_sum pe email now). intros raw Hsum.
  unfold CalculatePriority.
  unfold senderScore, keywordScore, temporalScore, categoryScore,
    threadScore in *.
  destruct (calculateSenderScore pe email) as [s1 r1].
  destruct (calculateKeywordScore pe email) as [s2 r2].
  destruct (calculateTemporalScore email now) as [s3 r3].
  destruct (calculateCategoryScore pe email now) as [pe' [[s4 r4] cat]].
  simpl in Hc, Hd, Hsum |- *.
  unfold engagementScore in *.
  rewrite <- (calculateEngagementScore_frame pe pe' email Hd) in Hsum |- *.
  destruct (calculateEngagementScore pe' email) as [s5 r5].
  destruct (calculateThreadScore email) as [s6 r6].
  simpl in Hsum |- *. rewrite Hsum.
  unfold applyTimeDecay, TimeDecay. rewrite Hc.
  destruct (config.Enabled _); simpl.
  - destruct (_ <? Go.time_Since now (ReceivedAt email)); simpl.
    + match goal with
      | |- context [negb (?d =? raw)] => destruct (Z.eqb_spec d raw) as [E|E]
      end; simpl.
      * rewrite E at 1. rewrite normalize_clamp.
        repeat (f_equal; try (rewrite <- ?app_assoc, ?app_nil_r; reflexivity)).
      * rewrite normalize_clamp.
        repeat (f_equal; try (rewrite <- ?app_assoc, ?app_nil_r; reflexivity)).
    + rewrite Z.eqb_refl. simpl. rewrite normalize_clamp.
      repeat (f_equal; try (rewrite <- ?app_assoc, ?app_nil_r; reflexivity)).
  - rewrite normalize_clamp.
    repeat (f_equal; try (rewrite <- ?app_assoc, ?app_nil_r; reflexivity)).
Qed.

(** *** A second evaluation at the same instant *)

Lemma GetClassification_frame (c c' : Classifier) (emailID : string) :
  Classifier.db c' = Classifier.db c ->
  GetClassification c' emailID = GetClassification c emailID.
Proof. intros Hdb. unfold GetClassification. now rewrite Hdb. Qed.

(** The two halves of [calculateCategoryScore]: finding the
    classification, and scoring its category. *)
Definition find_classification (pe : PriorityEngine) (email : Email)
  (now : Z) : PriorityEngine * option ClassificationResult :=
  match classifier pe with
  | Some c =>
      match GetClassification c (ID email) with
      | (found, None) => (pe, found)
      | (_, Some _) =>
          let '(c', (result, _)) := Classify c email now in
          (with_classifier pe (Some c'), result)
      end
  | None => (pe, None)
  end.

Definition score_category (cfg : config.PriorityConfig)
  (found : PriorityEngine * option ClassificationResult)
  : PriorityEngine * (Z * list Reason * string) :=
  let '(pe', classification) := found in
  match classification with
  | Some cl =>
      let category := Classifier.Category cl in
      let categoryBoost := config.GetCategoryPriority cfg category in
      let normalizedScore :=
        if 15 <? categoryBoost then 15 else categoryBoost in
      let normalizedScore :=
        if normalizedScore <? 0 then 0 else normalizedScore in
      let score := normalizedScore in
      if 0 <? categoryBoost
      then (pe', (score, [CategoryPlus category score], category))
      else if categoryBoost <? 0
      then (pe', (score, [CategoryMinus category categoryBoost], category))
      else (pe', (score, [CategoryZero category], category))
  | None => (pe', (0, [UnknownCategory], "unknown"))
  end.

Lemma calculateCategoryScore_split (pe : PriorityEngine) (email : Email)
  (now : Z) :
  calculateCategoryScore pe email now
  = score_category (config pe) (find_classification pe email now).
Proof. reflexivity. Qed.

Lemma score_category_fst (cfg : config.PriorityConfig)
  (found : PriorityEngine * option ClassificationResult) :
  fst (score_category cfg found) = fst found.
Proof.
  destruct found as [pe' [cl|]]; simpl; [|reflexivity].
  destruct (0 <? _); [reflexivity|]. destruct (_ <? 0); reflexivity.
Qed.

Lemma find_classification_again (pe : PriorityEngine) (email : Email)
  (now : Z) :
  find_classification (fst (find_classification pe email now)) email now
  = find_classification pe email now.
Proof.
  unfold find_classification at 2 3.
  destruct (classifier pe) as [c|] eqn:Hcl.
  - destruct (GetClassification c (ID email)) as [found [err|]] eqn:Hget.
    + pose proof (Classify_again c email now) as Hagain.
      pose proof (Classify_cache c email now) as (_ & Hdb & _).
      destruct (Classify c email now) as [c' [result err']] eqn:Hclassify.
      simpl in Hagain, Hdb. simpl fst.
      unfold find_classification. simpl classifier. cbv iota beta.
      rewrite (GetClassification_frame c c' (ID email) Hdb), Hget, Hagain.
      reflexivity.
    + simpl fst. unfold find_classification. now rewrite Hcl, Hget.
  - simpl fst. unfold find_classification. now rewrite Hcl.
Qed.

Lemma calculateCategoryScore_again (pe : PriorityEngine) (email : Email)
  (now : Z) :
  calculateCategoryScore (fst (calculateCategoryScore pe email now)) email now
  = calculateCategoryScore pe email now.
Proof.
  pose proof (calculateCategoryScore_frame pe email now) as (Hc & _ & _).
  rewrite !calculateCategoryScore_split in *.
  rewrite score_category_fst in *.
  now rewrite find_classification_again, Hc.
Qed.

Lemma CalculatePriority_again (pe : PriorityEngine) (email : Email)
  (now : Z) :
  CalculatePriority (fst (CalculatePriority pe email now)) email now
  = CalculatePriority pe email now.
Proof.
  rewrite (CalculatePriority_unfold pe email now). simpl fst.
  rewrite CalculatePriority_unfold.
  pose proof (calculateCategoryScore_frame pe email now) as (Hc & Hd & _).
  set (pe' := fst (calculateCategoryScore pe email now)) in *.
  pose proof (calculateCategoryScore_again pe email now) as Hcat.
  fold pe' in Hcat.
  assert (Hraw : raw_sum pe' email now = raw_sum pe email now).
  { unfold raw_sum, senderScore, keywordScore, categoryScore,
      engagementScore.
    now rewrite Hcat, (calculateSenderScore_frame pe pe' email Hc Hd),
      (calculateKeywordScore_frame pe pe' email Hc),
      (calculateEngagementScore_frame pe pe' email Hd). }
  assert (Hfactor : decay_factor pe' email now = decay_factor pe email now)
    by (unfold decay_factor, TimeDecay; now rewrite Hc).
  assert (Happlies : decay_applies pe' email now = decay_applies pe email now)
    by (unfold decay_applies, maxAge, TimeDecay; now rewrite Hc).
  assert (Hdecayed : decayed_sum pe' email now = decayed_sum pe email now)
    by (unfold decayed_sum; now rewrite Hraw, Hfactor).
  unfold chain_of, decay_reason, factors_of, senderScore, keywordScore,
    categoryScore, engagementScore.
  rewrite Hcat, Hraw, Happlies, Hdecayed,
    (calculateSenderScore_frame pe pe' email Hc Hd),
    (calculateKeywordScore_frame pe pe' email Hc),
    (calculateEngagementScore_frame pe pe' email Hd).
  reflexivity.
Qed.

(** *** The reasoning chain *)

Lemma sender_reasons (pe : PriorityEngine) (email : Email) :
  length (snd (calculateSenderScore pe email)) = 1%nat.
Proof.
  unfold calculateSenderScore, storage.GetSenderAnalytics.
  destruct (config.IsVIPSender _ _); [reflexivity|].
  destruct (config.IsImportantDomain _ _); [reflexivity|].
  destruct (storage.sender_analytics (db pe) !! From email) as [sa|];
    [|reflexivity].
  destruct (storage.IsVIP sa); [reflexivity|]. cbv zeta.
  destruct (Z.ltb_spec 0
              (Z.quot (Go.mul64 (storage.EngagementScore sa) 15) 100));
    [|reflexivity].
  destruct (Z.eqb_spec (Z.quot (Go.mul64 (storage.EngagementScore sa) 15) 100)
              0); [lia|reflexivity].
Qed.

Lemma keyword_reasons (pe : PriorityEngine) (email : Email) :
  length (snd (calculateKeywordScore pe email)) = 1%nat.
Proof.
  unfold calculateKeywordScore.
  destruct (config.HasUrgentKeyword (config pe) (Subject email)) as [[|] k1];
    [reflexivity|].
  destruct (config.HasUrgentKeyword (config pe) (BodySnippet email))
    as [[|] k2]; [reflexivity|].
  destruct (first_action_keyword email _); reflexivity.
Qed.

Lemma temporal_reasons (email : Email) (now : Z) :
  length (snd (calculateTemporalScore email now)) = 1%nat.
Proof.
  unfold calculateTemporalScore. cbv zeta.
  repeat match goal with
         | |- context [if ?b then _ else _] => destruct b
         end; reflexivity.
Qed.

Lemma category_reasons (pe : PriorityEngine) (email : Email) (now : Z) :
  length (snd (fst (snd (calculateCategoryScore pe email now)))) = 1%nat.
Proof.
  rewrite calculateCategoryScore_split.
  destruct (find_classification pe email now) as [pe' [cl|]]; simpl;
    [|reflexivity].
  destruct (0 <? _); [reflexivity|]. destruct (_ <? 0); reflexivity.
Qed.

Lemma engagement_reasons (pe : PriorityEngine) (email : Email) :
  (length (snd (calculateEngagementScore pe email)) <= 1)%nat
  /\ (0 <= engagementScore pe email ->
      length (snd (calculateEngagementScore pe email)) = 1%nat).
Proof.
  unfold engagementScore, calculateEngagementScore,
    storage.GetSenderAnalytics.
  destruct (storage.sender_analytics (db pe) !! From email) as [sa|];
    [|simpl; auto].
  destruct (0 <? storage.TotalEmails sa); [|simpl; auto]. cbv zeta.
  set (points := if 10 <? _ then 10 else _).
  destruct (Z.ltb_spec 5 points).
  { destruct (Z.eqb_spec points 0); [lia|simpl; auto]. }
  destruct (Z.ltb_spec 0 points).
  { destruct (Z.eqb_spec points 0); [lia|simpl; auto]. }
  destruct (Z.eqb_spec points 0); simpl; [auto|].
  split; [lia|]. intros Hpos. lia.
Qed.

Lemma thread_reasons (email : Email) :
  length (snd (calculateThreadScore email)) = 1%nat.
Proof.
  unfold calculateThreadScore. cbv zeta. destruct (_ || _); reflexivity.
Qed.

Lemma chain_length (pe : PriorityEngine) (email : Email) (now : Z) :
  (5 <= length (chain_of pe email now) <= 7)%nat
  /\ (0 <= engagementScore pe email ->
      length (chain_of pe email now)
      = (6 + length (decay_reason pe email now))%nat).
Proof.
  unfold chain_of. rewrite !length_app.
  rewrite sender_reasons, keyword_reasons, temporal_reasons,
    category_reasons, thread_reasons.
  destruct (engagement_reasons pe email) as [Hle Heq].
  assert (length (decay_reason pe email now) <= 1)%nat
    by (unfold decay_reason; destruct (_ && _); simpl; lia).
  split; [lia|]. intros Hpos. rewrite (Heq Hpos). lia.
Qed.

(** *** The category factor *)

(** With a classifier there is always a classification. *)
Lemma find_classification_Some (pe : PriorityEngine) (c : Classifier)
  (email : Email) (now : Z) :
  classifier pe = Some c ->
  exists cl, snd (find_classification pe email now) = Some cl.
Proof.
  intros Hcl. unfold find_classification. rewrite Hcl.
  unfold GetClassification.
  destruct (storage.GetClassification (Classifier.db c) (ID email))
    as [[row|] [err|]] eqn:Hget; simpl.
  - destruct (Classify_total c email now) as (c' & r & -> & _). now exists r.
  - eauto.
  - destruct (Classify_total c email now) as (c' & r & -> & _). now exists r.
  - unfold storage.GetClassification in Hget.
    destruct (storage.classifications (Classifier.db c) !! ID email);
      discriminate.
Qed.

(** *** Temporal relevance *)

Lemma time_Since_anti (now t1 t2 : Z) :
  t1 <= t2 -> Go.time_Since now t2 <= Go.time_Since now t1.
Proof. unfold Go.time_Since, Go.time_Sub. lia. Qed.

Lemma temporalScore_mono (older newer : Email) (now : Z) :
  ReceivedAt older <= ReceivedAt newer ->
  temporalScore older now <= temporalScore newer now.
Proof.
  intros Hle. apply (time_Since_anti now) in Hle.
  unfold temporalScore, calculateTemporalScore. cbv zeta.
  unfold Go.Hour, Go.Second in *.
  repeat match goal with
         | |- context [if ?a <? ?b then _ else _] =>
             destruct (Z.ltb_spec a b)
         end; simpl; lia.
Qed.

(** *** Time decay *)

Lemma decayed_sum_zero (pe : PriorityEngine) (email : Email) (now : Z) :
  (1 - config.DecayRate (TimeDecay pe)
       * (Go.Duration_Hours (age email now) / 24) <? 0)%float = true ->
  decayed_sum pe email now = 0.
Proof.
  intros Hneg. unfold decayed_sum, decay_factor, float_max0.
  rewrite Hneg. apply exact_facts.scaled_by_zero.
  pose proof (raw_sum_range pe email now). unfold Go.max_int64. lia.
Qed.

Lemma decayed_sum_zero_rate (pe : PriorityEngine) (email : Email)
  (now : Z) :
  config.DecayRate (TimeDecay pe) = 0%float ->
  ReceivedAt email <= now ->
  0 <= raw_sum pe email now < 2 ^ 53 ->
  decayed_sum pe email now = raw_sum pe email now.
Proof.
  intros Hrate Hage Hraw. unfold decayed_sum, decay_factor, float_max0.
  rewrite Hrate. apply exact_facts.scaled_by_one; [exact Hraw|].
  apply exact_facts.zero_rate_factor, exact_facts.Duration_Hours_le.
  now apply age_nn.
Qed.

(** *** UpdateVIPStatus *)

Lemma UpdateVIPStatus_stored (pe : PriorityEngine) (sender : string)
  (isVIP : bool) :
  (forall row, storage.sender_analytics (db pe) !! sender = Some row ->
     storage.EmailAddress row = sender
     /\ storage.analytics_check row = true) ->
  exists row,
    UpdateVIPStatus pe sender isVIP
    = (with_db pe
         {| storage.classifications := storage.classifications (db pe);
            storage.sender_analytics :=
              <[sender := row]> (storage.sender_analytics (db pe)) |},
       None)
    /\ storage.IsVIP row = isVIP
    /\ storage.EmailAddress row = sender
    /\ match storage.sender_analytics (db pe) !! sender with
       | Some old =>
           storage.AccountID row = storage.AccountID old
           /\ storage.TotalEmails row = storage.TotalEmails old
           /\ storage.ReadCount row = storage.ReadCount old
           /\ storage.ReplyCount row = storage.ReplyCount old
           /\ storage.AvgResponseTime row = storage.AvgResponseTime old
           /\ storage.LastInteraction row = storage.LastInteraction old
           /\ storage.EngagementScore row = storage.EngagementScore old
       | None =>
           storage.TotalEmails row = 0 /\ storage.ReadCount row = 0
           /\ storage.ReplyCount row = 0 /\ storage.EngagementScore row = 0
       end.
Proof.
  intros Hrow. unfold UpdateVIPStatus, storage.GetSenderAnalytics.
  destruct (storage.sender_analytics (db pe) !! sender) as [old|] eqn:Hold.
  - destruct (Hrow old eq_refl) as [Hkey Hcheck].
    unfold storage.UpdateSenderAnalytics. cbn [storage.EmailAddress].
    rewrite Hkey, Hold.
    unfold storage.analytics_check in *. cbn [storage.EngagementScore].
    rewrite Hcheck. eexists. split; [reflexivity|]. simpl. auto 10.
  - unfold storage.UpdateSenderAnalytics. cbn [storage.EmailAddress].
    rewrite Hold. cbn. eexists. split; [reflexivity|]. simpl. auto 10.
Qed.

(** *** The classifier of the engine *)

(** Finding the classification leaves the engine as it is but for the
    cache of its classifier. *)
Lemma find_classification_classifier (pe : PriorityEngine) (email : Email)
  (now : Z) :
  match classifier pe with
  | None => fst (find_classification pe email now) = pe
  | Some c =>
      exists c',
        classifier (fst (find_classification pe email now)) = Some c'
        /\ Classifier.config c' = Classifier.config c
        /\ Classifier.db c' = Classifier.db c
  end.
Proof.
  unfold find_classification.
  destruct (classifier pe) as [c|] eqn:Hcl; [|reflexivity].
  destruct (GetClassification c (ID email)) as [found [err|]].
  - pose proof (Classify_cache c email now) as (Hc & Hd & _).
    destruct (Classify c email now) as [c' [result err']].
    simpl in *. now exists c'.
  - simpl. now exists c.
Qed.

(** A classification that is stored for the email is the one used, and
    the classifier is not called. *)
Lemma find_classification_stored (pe : PriorityEngine) (c : Classifier)
  (email : Email) (now : Z) (row : storage.Classification) :
  classifier pe = Some c ->
  storage.classifications (Classifier.db c) !! ID email = Some row ->
  exists cl,
    find_classification pe email now = (pe, Some cl)
    /\ Classifier.Category cl = storage.Category row.
Proof.
  intros Hcl Hrow. unfold find_classification, GetClassification,
    storage.GetClassification.
  rewrite Hcl, Hrow. simpl. eexists. split; reflexivity.
Qed.

Lemma score_category_Some (cfg : config.PriorityConfig)
  (pe' : PriorityEngine) (cl : ClassificationResult) :
  fst (fst (snd (score_category cfg (pe', Some cl))))
  = clamp 0 15 (config.GetCategoryPriority cfg (Classifier.Category cl))
  /\ snd (snd (score_category cfg (pe', Some cl))) = Classifier.Category cl.
Proof.
  unfold score_category, clamp. cbv zeta.
  generalize (config.GetCategoryPriority cfg (Classifier.Category cl)).
  intros p.
  destruct (Z.ltb_spec 0 p); [|destruct (Z.ltb_spec p 0)]; cbn [fst snd];
    (split; [|reflexivity]);
    destruct (Z.ltb_spec 15 p);
    repeat match goal with
           | |- context [if ?a <? ?b then _ else _] =>
               destruct (Z.ltb_spec a b)
           end; lia.
Qed.

End WithRuntime.

End PriorityEngine_ops_facts.

(** ** Further examples *)

Module Example_ops.

(** A rule set with a regular expression, a keyword list, and priorities
    of categories. *)
Definition invoice_rule : config.ClassificationRule :=
  {| config.Description := "Invoices";
     config.Conditions :=
       [{| config.Field := "subject"; config.Operator := "regex";
           config.Value := "invoice"; config.Values := [] |}];
     config.PriorityBoost := 5; config.Confidence := 0.8%float;
     config.Tags := ["billing"] |}.

Definition office_cfg : config.PriorityConfig :=
  {| config.Version := "1.0";
     config.Rules :=
       {| config.VIPSenders := []; config.ImportantDomains := [];
          config.UrgentKeywords := ["urgent"; "asap"];
          config.IgnoreSenders := []; config.IgnoreSubjects := [];
          config.CategoryPriority := {["work" := 10; "spam" := -50]};
          config.TimeDecay := Example.halving |};
     config.ClassificationRules :=
       [("work", Example.work_rule); ("invoice", invoice_rule)] |}.

(** The message of [email0] under another ID. *)
Definition email0_again : Classifier.Email :=
  {| Classifier.ID := "m1-bis";
     Classifier.From := "newsletter@techcrunch.com";
     Classifier.To := "you@example.com";
     Classifier.Subject := "Daily Tech News Digest";
     Classifier.Body := ""; Classifier.BodySnippet := "";
     Classifier.Headers := []; Classifier.ReceivedAt := 0;
     Classifier.ReceivedAt_zone := 0 |}.

(** A result that the database accepts. *)
Definition work_result : Classifier.ClassificationResult :=
  {| Classifier.EmailID := "m1"; Classifier.Category := "work";
     Classifier.Confidence := 0.9%float; Classifier.Method := "rules";
     Classifier.Tags := ["office"; "team"];
     Classifier.Reasoning := "Matched rule: Work email";
     Classifier.Timestamp := 7 |}.

(** A database that holds a classification of [email0]. *)
Definition classified_db : storage.Database :=
  {| storage.classifications :=
       {["m1" := {| storage.EmailID := "m1"; storage.Category := "spam";
                    storage.Confidence := 1%float;
                    storage.Method := "ai"; storage.Tags := ["junk"];
                    storage.Reasoning := "Looks like spam";
                    storage.ClassifiedAt := 3 |}]};
     storage.sender_analytics := ∅ |}.

End Example_ops.

(** ** Properties of the helper functions of package config *)

Import config_facts config_props.

(** X1: indexOf answers -1 exactly when the substring occurs at no
    position of the string, and otherwise the first position at which it
    occurs, which leaves room for the substring. *)
Theorem indexOf_finds_first (s substr : string) :
  (config.indexOf s substr = -1
   /\ forall j, (j + String.length substr <= String.length s)%nat ->
        Go.slice s j (j + String.length substr) <> substr)
  \/ exists k : nat,
       config.indexOf s substr = Z.of_nat k
       /\ (k + String.length substr <= String.length s)%nat
       /\ Go.slice s k (k + String.length substr) = substr
       /\ forall j, (j < k)%nat ->
            Go.slice s j (j + String.length substr) <> substr.
Proof. apply indexOf_spec. Qed.

(** X2: contains holds exactly for the strings that are made of some
    bytes, the substring, and some more bytes; the empty substring is
    contained in every string. *)
Theorem contains_occurrence (s substr : string) :
  (config.contains s substr = true <-> exists a b, s = a ++ substr ++ b)
  /\ config.contains s "" = true.
Proof.
  split; [apply contains_iff|].
  apply contains_iff. exists "", s. reflexivity.
Qed.

(** X3: for a pattern with a leading star, a trailing star or no star,
    matchPattern accepts exactly: every string for the pattern of one
    star; the strings that end with what follows a leading star; the
    strings that start with what precedes a trailing star; the pattern
    itself when it has no star.  Further stars of such a pattern are
    compared as plain bytes. *)
Theorem matchPattern_simple_patterns (s pattern : string) :
  simple_pattern pattern ->
  config.matchPattern s pattern = true <-> glob_match s pattern.
Proof.
  intros Hsimple. split.
  - now apply matchPattern_simple.
  - apply matchPattern_glob.
Qed.

Lemma matchPattern_simple_patterns_witness :
  config.matchPattern "a*c@marketing.com" "*a*c@marketing.com" = true
  <-> glob_match "a*c@marketing.com" "*a*c@marketing.com".
Proof.
  apply matchPattern_simple_patterns. left. reflexivity.
Defined.

(** X4: for a pattern made of two or more pieces joined by stars, the
    pieces not empty and without star, matchPattern accepts exactly the
    strings in which the converted pieces occur in order, one after the end
    of the other; the match is anchored at neither end.  The code converts
    every byte b of a piece by string(b): a byte below 0x80 stays, a byte
    from 0x80 on becomes the two bytes of the UTF-8 encoding of the code
    point b.  So pieces of ASCII bytes are searched as they are. *)
Theorem matchPattern_pieces_in_order (s : string) (pieces : list string) :
  (2 <= length pieces)%nat ->
  Forall (fun piece => star_free piece /\ piece <> "") pieces ->
  (config.matchPattern s (Go.strings_Join pieces "*") = true
   <-> in_order s (List.map converted pieces))
  /\ (Forall ascii_only pieces ->
      config.matchPattern s (Go.strings_Join pieces "*") = true
      <-> in_order s pieces).
Proof.
  intros Hlen Hall. split.
  - now apply matchPattern_pieces.
  - intros Hascii. rewrite <- (maps_converted_ascii_only pieces Hascii) at 2.
    now apply matchPattern_pieces.
Qed.

Lemma matchPattern_pieces_in_order_witness :
  config.matchPattern "xaxbx" "a*b" = true.
Proof.
  assert (Hlen : (2 <= length ["a"; "b"])%nat) by (simpl; lia).
  assert (Hall : Forall (fun piece => star_free piece /\ piece <> "")
                   ["a"; "b"]).
  { repeat constructor; try discriminate;
      intros [|[|i]]; simpl; discriminate. }
  apply (proj2 (matchPattern_pieces_in_order "xaxbx" ["a"; "b"] Hlen Hall)).
  - repeat constructor.
  - exists "x", "xbx". split; [reflexivity|].
    exists "x", "x". split; [reflexivity|exact I].
Defined.

(** X5: ExtractDomain returns what follows the first at sign, and the
    empty string for an address without at sign. *)
Theorem ExtractDomain_after_first_at (mailbox domain : string) :
  at_free mailbox ->
  config.ExtractDomain mailbox = ""
  /\ config.ExtractDomain (mailbox ++ "@" ++ domain) = domain.
Proof.
  intros Hfree. split.
  - now apply ExtractDomain_none.
  - now apply ExtractDomain_first_at.
Qed.

Lemma ExtractDomain_after_first_at_witness :
  config.ExtractDomain "boss" = ""
  /\ config.ExtractDomain "boss@example.com@relay.net"
     = "example.com@relay.net".
Proof.
  apply (ExtractDomain_after_first_at "boss" "example.com@relay.net").
  intros [|[|[|[|[|i]]]]]; simpl; discriminate.
Defined.

(** X6: HasUrgentKeyword returns the first keyword of the configured list
    that the text contains, both lowered byte by byte, and (false, "")
    when the text contains none of them. *)
Theorem HasUrgentKeyword_first (pc : config.PriorityConfig) (text : string) :
  match config.HasUrgentKeyword pc text with
  | (true, keyword) =>
      exists before after,
        config.UrgentKeywords (config.Rules pc)
        = (before ++ keyword :: after)%list
        /\ config.contains (config.toLower text) (config.toLower keyword)
           = true
        /\ forall earlier, In earlier before ->
             config.contains (config.toLower text) (config.toLower earlier)
             = false
  | (false, keyword) =>
      keyword = ""
      /\ forall k, In k (config.UrgentKeywords (config.Rules pc)) ->
           config.contains (config.toLower text) (config.toLower k) = false
  end.
Proof. apply first_keyword_spec. Qed.

(** X7: Validate accepts a configuration exactly when every category
    priority lies in [-100,100], no rule has a confidence below 0 or
    above 1, and every condition of every rule is valid. *)
Theorem Validate_accepts `{GoRuntime} (pc : config.PriorityConfig) :
  config.Validate pc = None
  <-> (forall category priority,
         config.CategoryPriority (config.Rules pc) !! category
         = Some priority -> -100 <= priority <= 100)
      /\ forall name rule, In (name, rule) (config.ClassificationRules pc) ->
           (config.Confidence rule <? 0)%float = false
           /\ (1 <? config.Confidence rule)%float = false
           /\ forall cond, In cond (config.Conditions rule) ->
                config.Condition_Validate cond = None.
Proof. apply Validate_None. Qed.

(** X8: in a configuration that Validate accepts, every condition of
    every rule names one of the five fields and one of the five operators,
    and every regex condition with a pattern that is not empty has a
    pattern that compiles; GetCategoryPriority returns a value in
    [-100,100] for every category.  In every configuration it returns
    the entry of the category, and 0 for a category without entry. *)
Theorem Validate_conditions `{GoRuntime} (pc : config.PriorityConfig) :
  (config.Validate pc = None ->
   (forall name rule cond,
      In (name, rule) (config.ClassificationRules pc) ->
      In cond (config.Conditions rule) ->
      In (config.Field cond) ["from"; "subject"; "body"; "headers"; "to"]
      /\ In (config.Operator cond)
           ["contains"; "contains_any"; "regex"; "domain_in";
            "domain_not_in"]
      /\ (config.Operator cond = "regex" -> config.Value cond <> "" ->
          exists re, regexp_Compile (config.Value cond) = Some re))
   /\ forall category,
        -100 <= config.GetCategoryPriority pc category <= 100)
  /\ (forall category priority,
        config.CategoryPriority (config.Rules pc) !! category
        = Some priority ->
        config.GetCategoryPriority pc category = priority)
  /\ (forall category,
        config.CategoryPriority (config.Rules pc) !! category = None ->
        config.GetCategoryPriority pc category = 0).
Proof.
  split; [|split].
  - intros Hvalid. apply Validate_None in Hvalid.
    destruct Hvalid as [Hprio Hrules]. split.
    + intros name rule cond Hrule Hcond.
      destruct (Hrules name rule Hrule) as (_ & _ & Hconds).
      apply Condition_Validate_None. now apply Hconds.
    + intros category. unfold config.GetCategoryPriority.
      destruct (config.CategoryPriority (config.Rules pc) !! category)
        as [p|] eqn:Hp; [apply (Hprio category p Hp)|lia].
  - intros category priority Hentry.
    unfold config.GetCategoryPriority. now rewrite Hentry.
  - intros category Hnone.
    unfold config.GetCategoryPriority. now rewrite Hnone.
Qed.

Lemma Validate_conditions_witness :
  (exists re, regexp_Compile "invoice" = Some re)
  /\ -100 <= config.GetCategoryPriority Example_ops.office_cfg "spam" <= 100
  /\ config.GetCategoryPriority Example_ops.office_cfg "travel" = 0.
Proof.
  destruct (Validate_conditions Example_ops.office_cfg)
    as (Hvalid & _ & Hnone).
  destruct Hvalid as [Hconds Hprio]; [vm_compute; reflexivity|].
  destruct (Hconds "invoice" Example_ops.invoice_rule
              {| config.Field := "subject"; config.Operator := "regex";
                 config.Value := "invoice"; config.Values := [] |})
    as (_ & _ & Hre).
  - right. left. reflexivity.
  - left. reflexivity.
  - split; [apply Hre; [reflexivity|discriminate]|].
    split; [apply Hprio|]. apply Hnone. reflexivity.
Defined.

(** ** Properties of the classifier *)

Import Classifier Classifier_facts Classifier_ops Classifier_ops_facts.

(** X9: classifyByRules answers with a rule exactly when some matching
    rule has a confidence above zero, and the rule it answers with is a
    matching rule of the rule set; otherwise it answers with the fallback
    heuristics. *)
Theorem classifyByRules_rule_or_fallback `{GoRuntime} (c : Classifier)
  (email : Email) (now : Z) :
  ((exists category rule,
      In (category, rule) (config.ClassificationRules (config c))
      /\ matchesRule email rule = true
      /\ (0 <? config.Confidence rule)%float = true)
   /\ exists category rule,
        In (category, rule) (config.ClassificationRules (config c))
        /\ matchesRule email rule = true
        /\ classifyByRules c email now
           = rule_result email category rule now)
  \/ ((forall category rule,
         In (category, rule) (config.ClassificationRules (config c)) ->
         matchesRule email rule = true ->
         (0 <? config.Confidence rule)%float = false)
      /\ classifyByRules c email now = defaultClassification email now).
Proof.
  set (rules := config.ClassificationRules (config c)).
  destruct (existsb
              (fun entry : string * config.ClassificationRule =>
                 matchesRule email (snd entry)
                 && (0 <? config.Confidence (snd entry))%float) rules)
    eqn:Hex.
  - left. apply existsb_exists in Hex.
    destruct Hex as ([category rule] & Hin & Hboth). simpl in Hboth.
    apply andb_prop in Hboth. destruct Hboth as [Hm Hpos].
    split; [now exists category, rule|].
    destruct (rules_loop_positive email now rules category rule Hin Hm Hpos)
      as (r & Hr).
    destruct (rules_loop_cases email now rules None 0%float)
      as [Hnone|(cat' & rule' & Hin' & Hm' & Hres)]; [congruence|].
    exists cat', rule'. split; [exact Hin'|]. split; [exact Hm'|].
    unfold classifyByRules. fold rules. now rewrite Hres.
  - right.
    assert (Hall : forall category rule, In (category, rule) rules ->
              matchesRule email rule = true ->
              (0 <? config.Confidence rule)%float = false).
    { intros category rule Hin Hm.
      destruct (0 <? config.Confidence rule)%float eqn:Hpos; [|reflexivity].
      assert (existsb
                (fun entry : string * config.ClassificationRule =>
                   matchesRule email (snd entry)
                   && (0 <? config.Confidence (snd entry))%float) rules
              = true); [|congruence].
      apply existsb_exists. exists (category, rule).
      split; [exact Hin|]. simpl. now rewrite Hm, Hpos. }
    split; [exact Hall|].
    unfold classifyByRules. fold rules.
    now rewrite (rules_loop_none_positive email now rules None Hall).
Qed.

(** X10: for a message that reaches the rules, a matching rule whose
    confidence is above zero and greater than that of every other
    matching rule is the answer of Classify, whatever the order in which
    the rules are visited, and the answer is stored in the cache. *)
Theorem Classify_highest_confidence `{GoRuntime} (c : Classifier)
  (email : Email) (now : Z) (category : string)
  (rule : config.ClassificationRule) :
  reaches_rules c email now ->
  NoDup (List.map fst (config.ClassificationRules (config c))) ->
  In (category, rule) (config.ClassificationRules (config c)) ->
  matchesRule email rule = true ->
  (0 <? config.Confidence rule)%float = true ->
  (forall cat' rule',
     In (cat', rule') (config.ClassificationRules (config c)) ->
     cat' <> category -> matchesRule email rule' = true ->
     (config.Confidence rule' <? config.Confidence rule)%float = true) ->
  Classify c email now
  = (with_cache c (<[getCacheKey email
                     := rule_result email category rule now]> (cache c)),
     (Some (rule_result email category rule now), None)).
Proof.
  intros (Hno & Hsender & Hsubject) Hnodup Hin Hm Hpos Hothers.
  rewrite (Classify_no_fresh c email now Hno), Hsender, Hsubject.
  now rewrite (classifyByRules_highest c email now category rule).
Qed.

Lemma Classify_highest_confidence_witness :
  snd (Classify (NewClassifier Example_ops.office_cfg Example.db0)
         Example.email0 0)
  = (Some (rule_result Example.email0 "work" Example.work_rule 0), None).
Proof.
  rewrite (Classify_highest_confidence
             (NewClassifier Example_ops.office_cfg Example.db0)
             Example.email0 0 "work" Example.work_rule).
  - reflexivity.
  - split; [|split; reflexivity].
    intros cached Hc. vm_compute in Hc. discriminate Hc.
  - repeat (apply NoDup_cons; split;
              [rewrite list_elem_of_In; simpl; intuition discriminate|]).
    apply NoDup_nil_2.
  - left. reflexivity.
  - reflexivity.
  - reflexivity.
  - intros cat' rule' [[= <- <-]|[[= <- <-]|[]]] Hne Hm;
      [congruence|vm_compute in Hm; discriminate Hm].
Defined.

(** X11: a second call of Classify for the same message at the same
    instant returns what the first call returned and leaves the
    classifier as the first call left it. *)
Theorem Classify_same_instant `{GoRuntime} (c : Classifier) (email : Email)
  (now : Z) :
  Classify (fst (Classify c email now)) email now
  = (fst (Classify c email now), snd (Classify c email now)).
Proof. apply Classify_again. Qed.

(** X12: Classify changes neither the configuration nor the database; in
    the cache it writes at most the entry of the message and never removes
    an entry. *)
Theorem Classify_writes_one_entry `{GoRuntime} (c : Classifier)
  (email : Email) (now : Z) :
  let c' := fst (Classify c email now) in
  config c' = config c /\ db c' = db c
  /\ (forall key, key <> getCacheKey email ->
        cache c' !! key = cache c !! key)
  /\ (forall key, is_Some (cache c !! key) -> is_Some (cache c' !! key)).
Proof. apply Classify_cache. Qed.

(** X13: the cache key is made of the sender, the subject and the time
    of reception as Format prints it in RFC 3339, in the zone that the
    time carries, and of nothing else: after a message that reaches the
    rules has been classified, a message with the same sender and subject
    whose time of reception prints the same (as it does for the same
    instant in the same zone) is answered, for 24 hours, with the cached
    result of the first one, which carries the ID of the first message,
    whatever its own ID, recipient, body and headers are. *)
Theorem Classify_shares_cache_entry `{GoRuntime} (c : Classifier)
  (first second : Email) (now1 now2 : Z) :
  From second = From first -> Subject second = Subject first ->
  format_RFC3339 (ReceivedAt second) (ReceivedAt_zone second)
  = format_RFC3339 (ReceivedAt first) (ReceivedAt_zone first) ->
  reaches_rules c first now1 ->
  now1 <= now2 < now1 + 24 * Go.Hour ->
  exists result,
    snd (Classify c first now1) = (Some result, None)
    /\ Classify (fst (Classify c first now1)) second now2
       = (fst (Classify c first now1), (Some result, None))
    /\ EmailID result = ID first /\ Timestamp result = now1.
Proof.
  intros Hfrom Hsubject Hreceived (Hno & Hsender & Hsubj) Hwithin.
  exists (classifyByRules c first now1).
  rewrite (Classify_no_fresh c first now1 Hno), Hsender, Hsubj. simpl.
  destruct (classifyByRules_EmailID c first now1) as (Hid & _ & Hstamp).
  split; [reflexivity|]. split; [|split; assumption].
  assert (Hkey : getCacheKey second = getCacheKey first)
    by (unfold getCacheKey; now rewrite Hfrom, Hsubject, Hreceived).
  apply Classify_fresh.
  - simpl. rewrite Hkey. apply lookup_insert_eq.
  - rewrite Hstamp. unfold Go.time_Since, Go.time_Sub, Go.min_int64,
      Go.max_int64, Go.Hour, Go.Second in *. lia.
Qed.

Lemma Classify_shares_cache_entry_witness :
  exists result,
    Classify (fst (Classify (NewClassifier Example.cfg0 Example.db0)
                     Example.email0 0))
      Example_ops.email0_again 5
    = (fst (Classify (NewClassifier Example.cfg0 Example.db0)
              Example.email0 0), (Some result, None))
    /\ EmailID result = "m1".
Proof.
  destruct (Classify_shares_cache_entry
              (NewClassifier Example.cfg0 Example.db0)
              Example.email0 Example_ops.email0_again 0 5)
    as (result & _ & Hsecond & Hid & _); try reflexivity.
  - split; [|split; reflexivity].
    intros cached Hc. vm_compute in Hc. discriminate Hc.
  - vm_compute. split; [discriminate|reflexivity].
  - exists result. split; [exact Hsecond|exact Hid].
Defined.

(** X14: getCategories lists the categories of the rules in the order of
    the visit, followed by those of the six default categories that no
    rule has, each once; GetStats reports between as many categories as
    rules and six more, and no category twice when no two rules have the
    same category. *)
Theorem getCategories_rules_then_defaults (c : Classifier) :
  exists added,
    getCategories c
    = (List.map fst (config.ClassificationRules (config c)) ++ added)%list
    /\ (forall category,
          In category added
          <-> In category defaultCategories
              /\ ~ In category
                     (List.map fst (config.ClassificationRules (config c))))
    /\ NoDup added
    /\ rules_count (GetStats c) <= Z.of_nat (length (categories (GetStats c)))
       <= rules_count (GetStats c) + 6
    /\ (NoDup (List.map fst (config.ClassificationRules (config c))) ->
        NoDup (getCategories c)).
Proof.
  unfold getCategories.
  destruct (add_defaults_spec
              (List.map fst (config.ClassificationRules (config c)))
              defaultCategories) as (added & Heq & Hin & Hnodup).
  exists added. split; [exact Heq|]. split; [exact Hin|].
  split; [exact Hnodup|].
  assert (Hlen : (length added <= 6)%nat).
  { change 6%nat with (length defaultCategories).
    apply NoDup_incl_length; [now apply NoDup_ListNoDup|].
    intros x Hx. now apply Hin in Hx. }
  split.
  - unfold GetStats. cbn [categories rules_count]. unfold getCategories.
    rewrite Heq, List.length_app, length_map. lia.
  - intros Hrules. rewrite Heq. apply NoDup_app. split; [exact Hrules|].
    split; [|exact Hnodup].
    intros x Hx Hadded. rewrite list_elem_of_In in Hx, Hadded.
    apply Hin in Hadded. tauto.
Qed.

Lemma getCategories_rules_then_defaults_witness :
  getCategories (NewClassifier Example_ops.office_cfg Example.db0)
  = ["work"; "invoice"; "personal"; "spam"; "newsletters"; "promotions";
     "urgent"]
  /\ NoDup (getCategories (NewClassifier Example_ops.office_cfg Example.db0)).
Proof.
  split; [reflexivity|].
  destruct (getCategories_rules_then_defaults
              (NewClassifier Example_ops.office_cfg Example.db0))
    as (added & _ & _ & _ & _ & Hnodup).
  apply Hnodup.
  repeat (apply NoDup_cons; split;
            [rewrite list_elem_of_In; simpl; intuition discriminate|]).
  apply NoDup_nil_2.
Defined.


(** X15: the result of Classify is the fresh cached entry of the message
    or has one of the categories that Categories lists. *)
Theorem Classify_category_is_listed `{GoRuntime} (c : Classifier)
  (email : Email) (now : Z) :
  exists result,
    snd (Classify c email now) = (Some result, None)
    /\ (cache c !! getCacheKey email = Some result
        \/ In (Category result) (Categories c)).
Proof.
  unfold Categories.
  destruct (fresh_or_not c email now) as [(cached & Hc & Hfresh)|Hno].
  - exists cached. rewrite (Classify_fresh c email now cached Hc Hfresh).
    split; [reflexivity|now left].
  - rewrite (Classify_no_fresh c email now Hno).
    destruct (config.ShouldIgnoreSender _ _).
    { eexists. split; [reflexivity|]. right. apply getCategories_In.
      right. simpl. tauto. }
    destruct (config.ShouldIgnoreSubject _ _).
    { eexists. split; [reflexivity|]. right. apply getCategories_In.
      right. simpl. tauto. }
    eexists. split; [reflexivity|]. right. apply getCategories_In.
    destruct (classifyByRules_Category c email now) as [Hrule|Hdefault];
      [now left|right].
    simpl in *. tauto.
Qed.

(** X16: ClassifyBatch never fails: it returns one result for every
    email, none of them nil and in the order of the emails: result i is
    what Classify returns for email i, at the clock reading of that call,
    in the classifier that the emails before it leave.  The call changes
    neither the configuration nor the database of the classifier. *)
Theorem ClassifyBatch_one_result_each `{GoRuntime} (c : Classifier)
  (emails : list Email) (clock : nat -> Z) :
  exists c' results,
    ClassifyBatch c emails clock = (c', (Some (List.map Some results), None))
    /\ length results = length emails
    /\ (forall i email,
          emails !! i = Some email ->
          exists result,
            results !! i = Some result
            /\ snd (Classify (fst (ClassifyBatch c (take i emails) clock))
                      email (clock i))
               = (Some result, None))
    /\ config c' = config c /\ db c' = db c.
Proof.
  rewrite ClassifyBatch_each.
  destruct (classify_each_frame c emails clock 0) as (Hlen & Hc & Hd).
  eexists _, _. split; [reflexivity|]. split; [exact Hlen|].
  split; [|auto].
  intros i email Hi. rewrite ClassifyBatch_each. cbn [fst].
  exact (classify_each_lookup c emails clock 0 i email Hi).
Qed.

(** X17: classifying a batch is classifying its first part and then, with
    the classifier that this leaves and at the clock readings that
    follow, the rest: the results are those of the two parts, one list
    after the other. *)
Theorem ClassifyBatch_append `{GoRuntime} (c : Classifier)
  (first second : list Email) (clock : nat -> Z) :
  ClassifyBatch c (first ++ second)%list clock
  = match ClassifyBatch c first clock with
    | (c1, (Some results1, None)) =>
        match ClassifyBatch c1 second
                (fun j => clock (length first + j)%nat) with
        | (c2, (Some results2, None)) =>
            (c2, (Some (results1 ++ results2)%list, None))
        | failed => failed
        end
    | failed => failed
    end.
Proof.
  rewrite !ClassifyBatch_each, classify_each_app. cbv iota beta.
  destruct (classify_each c first clock 0) as [c1 r1]. cbn [fst snd].
  rewrite (classify_each_ext c1 second
             (fun j => clock (length first + j)%nat) clock 0 (length first))
    by (intros j; reflexivity).
  change (0 + length first)%nat with (length first).
  destruct (classify_each c1 second clock (length first)) as [c2 r2].
  cbn [fst snd]. now rewrite map_app.
Qed.

(** X18: a result whose confidence lies in [0,1] and whose method is
    rules, ai or hybrid is saved, and GetClassification then returns its
    ID, category, confidence, method and reasoning, with no tags and with
    the time of the save as timestamp; the cache is left as it was. *)
Theorem SaveClassification_then_Get (c : Classifier)
  (result : ClassificationResult) (now : Z) :
  (0 <=? Confidence result)%float = true ->
  (Confidence result <=? 1)%float = true ->
  In (Method result) ["rules"; "ai"; "hybrid"] ->
  exists c',
    SaveClassification c result now = (c', None)
    /\ GetClassification c' (EmailID result)
       = (Some {| EmailID := EmailID result; Category := Category result;
                  Confidence := Confidence result;
                  Method := Method result; Tags := [];
                  Reasoning := Reasoning result; Timestamp := now |}, None)
    /\ cache c' = cache c /\ config c' = config c.
Proof.
  intros Hlow Hhigh Hmethod.
  unfold SaveClassification, storage.SaveClassification,
    storage.classification_check.
  cbn [storage.Confidence storage.Method storage.EmailID].
  rewrite Hlow, Hhigh.
  assert (Hm : existsb (String.eqb (Method result)) ["rules"; "ai"; "hybrid"]
               = true).
  { apply existsb_exists. exists (Method result).
    split; [exact Hmethod|apply String.eqb_refl]. }
  rewrite Hm. cbn [andb option_map].
  eexists. split; [reflexivity|]. split; [|split; reflexivity].
  unfold GetClassification, storage.GetClassification.
  cbn [db with_db storage.classifications]. rewrite lookup_insert_eq.
  reflexivity.
Qed.

Lemma SaveClassification_then_Get_witness :
  exists c',
    SaveClassification (NewClassifier Example.cfg0 Example.db0)
      Example_ops.work_result 9 = (c', None)
    /\ GetClassification c' "m1"
       = (Some {| EmailID := "m1"; Category := "work";
                  Confidence := 0.9%float; Method := "rules"; Tags := [];
                  Reasoning := "Matched rule: Work email";
                  Timestamp := 9 |}, None).
Proof.
  destruct (SaveClassification_then_Get
              (NewClassifier Example.cfg0 Example.db0)
              Example_ops.work_result 9) as (c' & Hsave & Hget & _).
  - reflexivity.
  - reflexivity.
  - left. reflexivity.
  - exists c'. split; [exact Hsave|exact Hget].
Defined.

(** X19: LearnFromFeedback always fails: the method user that it records
    is none of rules, ai and hybrid, which the table of classifications
    requires, so that the classifier, its database included, is left as
    it was and a stored classification of the message is not replaced. *)
Theorem LearnFromFeedback_rejected (c : Classifier)
  (emailID correctCategory : string) (now : Z) :
  LearnFromFeedback c emailID correctCategory now
  = (c, Some (ErrStorage (storage.ErrConstraint "classifications"))).
Proof.
  unfold LearnFromFeedback, SaveClassification, storage.SaveClassification,
    storage.classification_check.
  cbn [storage.Confidence storage.Method storage.EmailID Method Confidence].
  replace (existsb (String.eqb "user") ["rules"; "ai"; "hybrid"])
    with false by reflexivity.
  rewrite andb_false_r. destruct c. reflexivity.
Qed.

(** ** Properties of the priority engine *)

Import PriorityEngine PriorityEngine_facts.
Import PriorityEngine_ops PriorityEngine_ops_facts.

(** X20: of two messages, the one received earlier never gets the higher
    temporal contribution. *)
Theorem temporal_older_not_higher (older newer : Email) (now : Z) :
  ReceivedAt older <= ReceivedAt newer ->
  fst (calculateTemporalScore older now)
  <= fst (calculateTemporalScore newer now).
Proof. apply temporalScore_mono. Qed.

Lemma temporal_older_not_higher_witness :
  fst (calculateTemporalScore Example.boss_email Example.a_day_and_a_half)
  <= fst (calculateTemporalScore
            {| ID := "m5"; From := "boss@example.com";
               To := "me@example.com"; Subject := "Quarterly report";
               Body := ""; BodySnippet := ""; Headers := [];
               ReceivedAt := 35 * Go.Hour; ReceivedAt_zone := 0 |}
            Example.a_day_and_a_half).
Proof.
  apply temporal_older_not_higher. vm_compute. discriminate.
Defined.

(** X21: the score that CalculatePriority returns carries the ID of the
    message and the time of the call, and its factor map has the six keys
    sender, keywords, temporal, category, engagement and thread.  The
    call changes neither the configuration nor the database of the engine
    or of its classifier; without classifier the engine is left as it was
    and the category is unknown, with contribution 0. *)
Theorem CalculatePriority_fields `{GoRuntime} (pe : PriorityEngine)
  (email : Email) (now : Z) :
  exists pe' ps,
    CalculatePriority pe email now = (pe', (Some ps, None))
    /\ EmailID ps = ID email /\ Timestamp ps = now
    /\ dom (Factors ps)
       = ({["sender"; "keywords"; "temporal"; "category"; "engagement";
            "thread"]} : gset string)
    /\ config pe' = config pe /\ db pe' = db pe
    /\ match classifier pe with
       | None =>
           pe' = pe /\ Category ps = "unknown"
           /\ Factors ps !! "category" = Some 0
       | Some c =>
           exists c',
             classifier pe' = Some c'
             /\ Classifier.config c' = Classifier.config c
             /\ Classifier.db c' = Classifier.db c
       end.
Proof.
  rewrite CalculatePriority_unfold. eexists _, _.
  split; [reflexivity|]. cbn [EmailID Timestamp Factors Category].
  destruct (calculateCategoryScore_frame pe email now) as (Hc & Hd & _).
  split; [reflexivity|]. split; [reflexivity|].
  split; [unfold factors_of; rewrite !dom_insert_L, dom_empty_L;
          set_solver|].
  split; [exact Hc|]. split; [exact Hd|].
  rewrite calculateCategoryScore_split, score_category_fst.
  pose proof (find_classification_classifier pe email now) as Hcl.
  destruct (classifier pe) as [c|] eqn:Hclassifier; [exact Hcl|].
  split; [exact Hcl|].
  unfold factors_of, categoryScore.
  rewrite calculateCategoryScore_split.
  unfold find_classification. rewrite Hclassifier. simpl.
  split; reflexivity.
Qed.

(** X22: a second call of CalculatePriority for the same message at the
    same instant returns the same score, factors, reasoning chain and
    category as the first, and leaves the engine as the first call left
    it. *)
Theorem CalculatePriority_same_instant `{GoRuntime} (pe : PriorityEngine)
  (email : Email) (now : Z) :
  CalculatePriority (fst (CalculatePriority pe email now)) email now
  = CalculatePriority pe email now.
Proof. apply CalculatePriority_again. Qed.

(** X23: the reasoning chain has between five and seven entries: one for
    each factor, none for the engagement when its contribution is
    negative, and one more when the decay changed the score. *)
Theorem ReasoningChain_length `{GoRuntime} (pe : PriorityEngine)
  (email : Email) (now : Z) :
  exists pe' ps,
    CalculatePriority pe email now = (pe', (Some ps, None))
    /\ (5 <= length (ReasoningChain ps) <= 7)%nat
    /\ (0 <= engagementScore pe email ->
        length (ReasoningChain ps)
        = if decay_applies pe email now
             && negb (decayed_sum pe email now =? raw_sum pe email now)
          then 7%nat else 6%nat).
Proof.
  rewrite CalculatePriority_unfold. eexists _, _.
  split; [reflexivity|]. cbn [ReasoningChain].
  destruct (chain_length pe email now) as [Hrange Hexact].
  split; [exact Hrange|]. intros Hpos. rewrite (Hexact Hpos).
  unfold decay_reason. destruct (_ && _); reflexivity.
Qed.

(** X24: with a classifier, the category contribution is the configured
    priority of the category that the score reports, clamped to [0,15]:
    a negative priority contributes 0 and does not lower the score. *)
Theorem category_contribution `{GoRuntime} (pe : PriorityEngine)
  (c : Classifier) (email : Email) (now : Z) :
  classifier pe = Some c ->
  exists pe' ps,
    CalculatePriority pe email now = (pe', (Some ps, None))
    /\ Factors ps !! "category"
       = Some (clamp 0 15
                 (config.GetCategoryPriority (config pe) (Category ps))).
Proof.
  intros Hcl. rewrite CalculatePriority_unfold. eexists _, _.
  split; [reflexivity|]. cbn [Factors Category].
  unfold factors_of. rewrite lookup_insert_ne by discriminate.
  rewrite lookup_insert_ne by discriminate. rewrite lookup_insert_eq.
  unfold categoryScore. rewrite calculateCategoryScore_split.
  destruct (find_classification_Some pe c email now Hcl) as (cl & Hsome).
  destruct (find_classification pe email now) as [pe' found].
  simpl in Hsome. subst found.
  destruct (score_category_Some (config pe) pe' cl) as [-> ->].
  reflexivity.
Qed.

Lemma category_contribution_witness :
  exists pe' ps,
    CalculatePriority
      (NewPriorityEngine Example_ops.office_cfg Example.db0
         (Some (NewClassifier Example_ops.office_cfg Example.db0)))
      Example.email0 0 = (pe', (Some ps, None))
    /\ Category ps = "work" /\ Factors ps !! "category" = Some 10.
Proof.
  destruct (category_contribution
              (NewPriorityEngine Example_ops.office_cfg Example.db0
                 (Some (NewClassifier Example_ops.office_cfg Example.db0)))
              (NewClassifier Example_ops.office_cfg Example.db0)
              Example.email0 0 eq_refl) as (pe' & ps & Hcall & Hfactor).
  exists pe', ps. split; [exact Hcall|].
  assert (Hcat : Category ps = "work").
  { pose proof (f_equal (fun r => option_map Category (fst (snd r))) Hcall)
      as Hc.
    simpl in Hc. injection Hc as <-. vm_compute. reflexivity. }
  split; [exact Hcat|]. rewrite Hfactor, Hcat. reflexivity.
Defined.

(** X25: a classification that the database holds for the message is the
    one that CalculatePriority uses: the score reports its category, and
    the classifier is not called, so that the engine is left as it
    was. *)
Theorem stored_classification_used `{GoRuntime} (pe : PriorityEngine)
  (c : Classifier) (email : Email) (now : Z)
  (row : storage.Classification) :
  classifier pe = Some c ->
  storage.classifications (Classifier.db c) !! ID email = Some row ->
  exists ps,
    CalculatePriority pe email now = (pe, (Some ps, None))
    /\ Category ps = storage.Category row.
Proof.
  intros Hcl Hrow. rewrite CalculatePriority_unfold.
  rewrite calculateCategoryScore_split.
  destruct (find_classification_stored pe c email now row Hcl Hrow)
    as (cl & Hfind & Hcat).
  rewrite score_category_fst, Hfind. cbn [fst].
  eexists. split; [reflexivity|]. cbn [Category].
  rewrite <- Hcat. unfold score_category. cbv zeta.
  destruct (0 <? _); [reflexivity|]. destruct (_ <? 0); reflexivity.
Qed.

Lemma stored_classification_used_witness :
  exists ps,
    snd (CalculatePriority
           (NewPriorityEngine Example_ops.office_cfg
              Example_ops.classified_db
              (Some (NewClassifier Example_ops.office_cfg
                       Example_ops.classified_db)))
           Example.email0 0) = (Some ps, None)
    /\ Category ps = "spam".
Proof.
  destruct (stored_classification_used
              (NewPriorityEngine Example_ops.office_cfg
                 Example_ops.classified_db
                 (Some (NewClassifier Example_ops.office_cfg
                          Example_ops.classified_db)))
              (NewClassifier Example_ops.office_cfg
                 Example_ops.classified_db)
              Example.email0 0
              {| storage.EmailID := "m1"; storage.Category := "spam";
                 storage.Confidence := 1%float; storage.Method := "ai";
                 storage.Tags := ["junk"];
                 storage.Reasoning := "Looks like spam";
                 storage.ClassifiedAt := 3 |})
    as (ps & Hcall & Hcat).
  - reflexivity.
  - vm_compute. reflexivity.
  - exists ps. rewrite Hcall. split; [reflexivity|exact Hcat].
Defined.

(** X26: when the decay is applied and the factor
    1 - decayRate * (hours / 24) that the code computes is below zero,
    the score is 0, whatever the contributions are. *)
Theorem decay_to_zero `{GoRuntime} (pe : PriorityEngine) (email : Email)
  (now : Z) :
  decay_applies pe email now = true ->
  (1 - config.DecayRate (TimeDecay pe)
       * (Go.Duration_Hours (Go.time_Since now (ReceivedAt email)) / 24)
   <? 0)%float = true ->
  exists pe' ps,
    CalculatePriority pe email now = (pe', (Some ps, None))
    /\ Score ps = 0.
Proof.
  intros Happlies Hneg. rewrite CalculatePriority_unfold. eexists _, _.
  split; [reflexivity|]. cbn [Score].
  rewrite Happlies, (decayed_sum_zero pe email now Hneg). reflexivity.
Qed.

Lemma decay_to_zero_witness :
  exists pe' ps,
    CalculatePriority
      (NewPriorityEngine (Example.vip_cfg Example.halving) Example.db0 None)
      Example.boss_email (72 * Go.Hour) = (pe', (Some ps, None))
    /\ Score ps = 0.
Proof.
  apply decay_to_zero; vm_compute; reflexivity.
Defined.

(** X27: with a decay rate of zero the decay changes nothing: for a
    message that is not dated in the future, and a sender whose row, if
    there is one, satisfies the constraint of its table, the score is the
    clamped sum of the recorded contributions, whether the decay is
    applied or not. *)
Theorem zero_rate_keeps_score `{GoRuntime} (pe : PriorityEngine)
  (email : Email) (now : Z) :
  config.DecayRate (TimeDecay pe) = 0%float ->
  ReceivedAt email <= now ->
  (forall analytics,
     sender_analytics_of pe email = Some analytics ->
     storage.analytics_check analytics = true) ->
  exists pe' ps,
    CalculatePriority pe email now = (pe', (Some ps, None))
    /\ Score ps = clamp 0 100 (factor_sum (Factors ps)).
Proof.
  intros Hrate Hage Hschema. rewrite CalculatePriority_unfold.
  eexists _, _. split; [reflexivity|]. cbn [Score Factors].
  rewrite factor_sum_factors_of.
  destruct (decay_applies pe email now); [|reflexivity].
  pose proof (raw_sum_le_100 pe email now Hschema) as Hle.
  pose proof (raw_sum_range pe email now) as Hrange.
  destruct (Z.le_gt_cases 0 (raw_sum pe email now)) as [Hpos|Hneg].
  - rewrite decayed_sum_zero_rate; [reflexivity|exact Hrate|exact Hage|lia].
  - assert (Hbelow : Go.min_int64 <= raw_sum pe email now <= 0) by lia.
    pose proof (decayed_negative _ _ Hbelow (decay_factor_nn pe email now))
      as Hdecayed.
    fold (decayed_sum pe email now) in Hdecayed. unfold clamp. lia.
Qed.

Lemma zero_rate_keeps_score_witness :
  exists pe' ps,
    CalculatePriority
      (NewPriorityEngine
         (Example.vip_cfg
            {| config.Enabled := true; config.MaxAgeHours := 24;
               config.DecayRate := 0%float |})
         (Example.analytics_db Example.reader) None)
      Example.friend_email Example.a_day_and_a_half
    = (pe', (Some ps, None))
    /\ Score ps = 14.
Proof.
  destruct (zero_rate_keeps_score
              (NewPriorityEngine
                 (Example.vip_cfg
                    {| config.Enabled := true; config.MaxAgeHours := 24;
                       config.DecayRate := 0%float |})
                 (Example.analytics_db Example.reader) None)
              Example.friend_email Example.a_day_and_a_half)
    as (pe' & ps & Hcall & Hscore).
  - reflexivity.
  - vm_compute. discriminate.
  - intros analytics Hrow. vm_compute in Hrow.
    injection Hrow as <-. reflexivity.
  - exists pe', ps. split; [exact Hcall|]. rewrite Hscore.
    pose proof (f_equal (fun r => option_map Factors (fst (snd r))) Hcall)
      as Hfactors.
    simpl in Hfactors. injection Hfactors as <-. vm_compute. reflexivity.
Defined.

(** X28: marking a sender as VIP stores the mark in the row of the
    sender, which keeps its counts and its engagement score (a new row
    has zero counts), and leaves the rows of the other senders and the
    classifications as they were; a message of that sender, who is
    neither on the VIP list nor of an important domain, then gets the
    sender contribution 25. *)
Theorem UpdateVIPStatus_learned_VIP `{GoRuntime} (pe : PriorityEngine)
  (email : Email) :
  (forall row,
     storage.sender_analytics (db pe) !! From email = Some row ->
     storage.EmailAddress row = From email
     /\ storage.analytics_check row = true) ->
  config.IsVIPSender (config pe) (From email) = false ->
  config.IsImportantDomain (config pe) (config.ExtractDomain (From email))
  = false ->
  exists pe' row,
    UpdateVIPStatus pe (From email) true = (pe', None)
    /\ config pe' = config pe
    /\ storage.classifications (db pe') = storage.classifications (db pe)
    /\ storage.GetSenderAnalytics (db pe') (From email) = (Some row, None)
    /\ storage.IsVIP row = true
    /\ (forall old,
          storage.sender_analytics (db pe) !! From email = Some old ->
          storage.TotalEmails row = storage.TotalEmails old
          /\ storage.ReadCount row = storage.ReadCount old
          /\ storage.ReplyCount row = storage.ReplyCount old
          /\ storage.EngagementScore row = storage.EngagementScore old)
    /\ (forall other, other <> From email ->
          storage.sender_analytics (db pe') !! other
          = storage.sender_analytics (db pe) !! other)
    /\ fst (calculateSenderScore pe' email) = 25.
Proof.
  intros Hrow Hvip Hdomain.
  destruct (UpdateVIPStatus_stored pe (From email) true Hrow)
    as (row & Hcall & Hmark & _ & Hkept).
  eexists _, row. split; [exact Hcall|].
  cbn [config db with_db storage.classifications storage.sender_analytics].
  split; [reflexivity|]. split; [reflexivity|].
  split; [unfold storage.GetSenderAnalytics;
          cbn [storage.sender_analytics]; now rewrite lookup_insert_eq|].
  split; [exact Hmark|]. split.
  { intros old Hold. rewrite Hold in Hkept. tauto. }
  split.
  { intros other Hother. now rewrite lookup_insert_ne. }
  unfold calculateSenderScore, storage.GetSenderAnalytics.
  cbn [config db with_db storage.sender_analytics].
  rewrite Hvip, Hdomain, lookup_insert_eq, Hmark. reflexivity.
Qed.

Lemma UpdateVIPStatus_learned_VIP_witness :
  exists pe',
    UpdateVIPStatus
      (NewPriorityEngine Example.cfg0 (Example.analytics_db Example.reader)
         None)
      "friend@example.com" true = (pe', None)
    /\ fst (calculateSenderScore pe' Example.friend_email) = 25.
Proof.
  destruct (UpdateVIPStatus_learned_VIP
              (NewPriorityEngine Example.cfg0
                 (Example.analytics_db Example.reader) None)
              Example.friend_email)
    as (pe' & row & Hcall & _ & _ & _ & _ & _ & _ & Hscore).
  - intros row Hrow. vm_compute in Hrow. injection Hrow as <-.
    split; reflexivity.
  - reflexivity.
  - reflexivity.
  - exists pe'. split; [exact Hcall|exact Hscore].
Defined.
